(** * CyberAsio-Core: audio engine, configuration manager and HTTP dispatcher

    A shallow embedding of the C++ backend (audio_engine.cpp, config_manager.cpp,
    device_manager.cpp, webserver.cpp, the argument loop of main.cpp and their
    headers) together with the properties stated for it.

    Conventions of the embedding:
    - [int] fields are [Z]; the validation code only compares them, and the one
      bit operation ([buffer_size & (buffer_size - 1)]) is guarded by a range test;
    - [float] is IEEE-754 binary32 and [double] is binary64, both through the
      executable specification [SpecFloat] of the standard library;
    - [std::string] is [string], [std::map<std::string, std::string>] is
      [gmap string string], [std::vector] is [list];
    - member functions take the object state and return the new state, together
      with the C++ return value when there is one;
    - files are a partial map from paths to contents; [std::getline],
      [std::stoi] and the stream output of an [int] are modelled in [Text] and
      by [pretty]. *)

From Stdlib Require Import ZArith Lia List Bool Ascii String QArith Qabs.
From Stdlib Require Import Floats.SpecFloat.
From stdpp Require Import gmap strings list pretty.

Local Open Scope Z_scope.

(* ===================================================================== *)
(** * IEEE-754 formats used by the code *)
(* ===================================================================== *)

Module IEEE.

(** A format is given by its precision and the exponent of its infinities. *)
Section Format.
Variables prec emax : Z.

(** Conversion of an integer ([static_cast<float>(i)], integer promotion in
    mixed arithmetic): the nearest representable value. *)
Definition of_Z (z : Z) : spec_float := binary_normalize prec emax z 0 false.

(** [std::max(a, b)] is [(a < b) ? b : a]. *)
Definition max (a b : spec_float) : spec_float :=
  if SFltb a b then b else a.
End Format.

(** The rational value of a finite number. *)
Definition value (x : spec_float) : option Q :=
  match x with
  | S754_zero _ => Some 0%Q
  | S754_finite s m e =>
      let mag := match e with
                 | Z0 => Z.pos m # 1
                 | Zpos p => Z.pos m * Z.pow_pos 2 p # 1
                 | Zneg p => Z.pos m # Pos.pow 2 p
                 end in
      Some (if s then Qopp mag else mag)
  | _ => None
  end.

Definition is_finite (x : spec_float) : bool :=
  match x with
  | S754_zero _ | S754_finite _ _ _ => true
  | _ => false
  end.

End IEEE.

(** [float]: binary32. *)
Module F32.
Definition prec : Z := 24.
Definition emax : Z := 128.
Definition of_Z : Z -> spec_float := IEEE.of_Z prec emax.
Definition add : spec_float -> spec_float -> spec_float := SFadd prec emax.
Definition sub : spec_float -> spec_float -> spec_float := SFsub prec emax.
Definition mul : spec_float -> spec_float -> spec_float := SFmul prec emax.
Definition div : spec_float -> spec_float -> spec_float := SFdiv prec emax.
Definition max : spec_float -> spec_float -> spec_float := IEEE.max.
Definition valid : spec_float -> bool := valid_binary prec emax.
(** Literals of the source; a decimal literal denotes the nearest float. *)
Definition zero : spec_float := S754_zero false.          (* 0.0f *)
Definition one : spec_float := of_Z 1.                     (* 1.0f *)
Definition tenth : spec_float := div (of_Z 1) (of_Z 10).   (* 0.1f *)
Definition half : spec_float := div (of_Z 1) (of_Z 2).     (* 0.5f *)
Definition c32 : spec_float := of_Z 32.                    (* 32.0f *)
Definition c100 : spec_float := of_Z 100.                  (* 100.0f *)
End F32.

(** [double]: binary64. *)
Module F64.
Definition prec : Z := 53.
Definition emax : Z := 1024.
Definition of_Z : Z -> spec_float := IEEE.of_Z prec emax.
Definition add : spec_float -> spec_float -> spec_float := SFadd prec emax.
Definition mul : spec_float -> spec_float -> spec_float := SFmul prec emax.
Definition div : spec_float -> spec_float -> spec_float := SFdiv prec emax.
Definition zero : spec_float := S754_zero false.           (* 0.0 *)
Definition c1000 : spec_float := of_Z 1000.                (* 1000.0 *)
Definition two : spec_float := of_Z 2.
End F64.

(* ===================================================================== *)
(** * Shared data (audio_engine.h, device_manager.h, config_manager.h) *)
(* ===================================================================== *)

Record AudioConfig := mkAudioConfig {
  sample_rate : Z;
  buffer_size : Z;
  bit_depth : Z;
  channels : Z
}.

Record AudioMetrics := mkAudioMetrics {
  input_latency : spec_float;          (* double *)
  output_latency : spec_float;         (* double *)
  total_latency : spec_float;          (* double *)
  spectrum_data : list spec_float;     (* std::vector<float> *)
  is_playing : bool
}.

Inductive DeviceType := WDM | KS | WASAPI | ASIO.
Inductive DeviceStatus := Active | Inactive | Disabled | Error.

Record AudioDevice := mkAudioDevice {
  id : Z;
  name : string;
  type : DeviceType;
  status : DeviceStatus;
  max_sample_rate : Z;
  min_buffer_size : Z;
  max_buffer_size : Z;
  supported_sample_rates : list Z;
  supported_bit_depths : list Z;
  is_input : bool;
  is_output : bool
}.

Record SystemConfig := mkSystemConfig {
  audio : AudioConfig;
  active_device_id : Z;
  current_audio_file : string;
  auto_save : bool;
  config_file_path : string
}.

(* ===================================================================== *)
(** * AudioEngine (audio_engine.cpp) *)
(* ===================================================================== *)

Module AudioEngine.

(** What one run of the 50 ms branch of [audioThreadFunction] obtains from
    outside the engine: the draws of the static
    [uniform_real_distribution<float> dis(0.1f, 1.0f)], the readings of
    [steady_clock::now()] in milliseconds and [std::sin] on [float]; the
    index is the bin for which the call is made. *)
Record TickEnv := mkTickEnv {
  dis : nat -> spec_float;
  now_ms : nat -> Z;
  sinf : spec_float -> spec_float
}.

(** The engine. Of [audio_buffer_] only the size is kept (no member function
    reads a sample back); [audio_thread_] records whether the thread object
    exists; the visualisation callback takes the spectrum by const reference
    and the arguments of its calls are recorded in [visualized_]. *)
Record t := mk {
  config_ : AudioConfig;
  initialized_ : bool;
  playing_ : bool;
  active_device_id_ : Z;
  audio_buffer_ : Z;
  playback_position_ : Z;
  audio_thread_ : bool;
  should_stop_ : bool;
  current_metrics_ : AudioMetrics;
  visualization_callback_ : bool;
  visualized_ : list (list spec_float)
}.

(** Field updates. *)
Definition set_config (c : AudioConfig) (s : t) : t :=
  mk c (initialized_ s) (playing_ s) (active_device_id_ s) (audio_buffer_ s)
     (playback_position_ s) (audio_thread_ s) (should_stop_ s)
     (current_metrics_ s) (visualization_callback_ s) (visualized_ s).

Definition set_initialized (b : bool) (s : t) : t :=
  mk (config_ s) b (playing_ s) (active_device_id_ s) (audio_buffer_ s)
     (playback_position_ s) (audio_thread_ s) (should_stop_ s)
     (current_metrics_ s) (visualization_callback_ s) (visualized_ s).

Definition set_playing (b : bool) (s : t) : t :=
  mk (config_ s) (initialized_ s) b (active_device_id_ s) (audio_buffer_ s)
     (playback_position_ s) (audio_thread_ s) (should_stop_ s)
     (current_metrics_ s) (visualization_callback_ s) (visualized_ s).

Definition set_active_device (d : Z) (s : t) : t :=
  mk (config_ s) (initialized_ s) (playing_ s) d (audio_buffer_ s)
     (playback_position_ s) (audio_thread_ s) (should_stop_ s)
     (current_metrics_ s) (visualization_callback_ s) (visualized_ s).

Definition set_audio_buffer (n : Z) (s : t) : t :=
  mk (config_ s) (initialized_ s) (playing_ s) (active_device_id_ s) n
     (playback_position_ s) (audio_thread_ s) (should_stop_ s)
     (current_metrics_ s) (visualization_callback_ s) (visualized_ s).

Definition set_playback_position (p : Z) (s : t) : t :=
  mk (config_ s) (initialized_ s) (playing_ s) (active_device_id_ s)
     (audio_buffer_ s) p (audio_thread_ s) (should_stop_ s)
     (current_metrics_ s) (visualization_callback_ s) (visualized_ s).

Definition set_audio_thread (b : bool) (s : t) : t :=
  mk (config_ s) (initialized_ s) (playing_ s) (active_device_id_ s)
     (audio_buffer_ s) (playback_position_ s) b (should_stop_ s)
     (current_metrics_ s) (visualization_callback_ s) (visualized_ s).

Definition set_should_stop (b : bool) (s : t) : t :=
  mk (config_ s) (initialized_ s) (playing_ s) (active_device_id_ s)
     (audio_buffer_ s) (playback_position_ s) (audio_thread_ s) b
     (current_metrics_ s) (visualization_callback_ s) (visualized_ s).

Definition set_metrics (m : AudioMetrics) (s : t) : t :=
  mk (config_ s) (initialized_ s) (playing_ s) (active_device_id_ s)
     (audio_buffer_ s) (playback_position_ s) (audio_thread_ s) (should_stop_ s)
     m (visualization_callback_ s) (visualized_ s).

Definition set_callback (b : bool) (s : t) : t :=
  mk (config_ s) (initialized_ s) (playing_ s) (active_device_id_ s)
     (audio_buffer_ s) (playback_position_ s) (audio_thread_ s) (should_stop_ s)
     (current_metrics_ s) b (visualized_ s).

Definition set_visualized (l : list (list spec_float)) (s : t) : t :=
  mk (config_ s) (initialized_ s) (playing_ s) (active_device_id_ s)
     (audio_buffer_ s) (playback_position_ s) (audio_thread_ s) (should_stop_ s)
     (current_metrics_ s) (visualization_callback_ s) l.

Definition set_latency (i o tl : spec_float) (m : AudioMetrics) : AudioMetrics :=
  mkAudioMetrics i o tl (spectrum_data m) (is_playing m).

Definition set_spectrum (v : list spec_float) (m : AudioMetrics) : AudioMetrics :=
  mkAudioMetrics (input_latency m) (output_latency m) (total_latency m) v
                 (is_playing m).

Definition set_is_playing (b : bool) (m : AudioMetrics) : AudioMetrics :=
  mkAudioMetrics (input_latency m) (output_latency m) (total_latency m)
                 (spectrum_data m) b.

(** The default member initialisers of the two headers. *)
Definition default_config : AudioConfig :=
  {| sample_rate := 48000; buffer_size := 256; bit_depth := 24; channels := 2 |}.

Definition default_metrics : AudioMetrics :=
  {| input_latency := F64.zero; output_latency := F64.zero;
     total_latency := F64.zero; spectrum_data := []; is_playing := false |}.

Definition new : t :=
  {| config_ := default_config; initialized_ := false; playing_ := false;
     active_device_id_ := -1; audio_buffer_ := 0; playback_position_ := 0;
     audio_thread_ := false; should_stop_ := false;
     current_metrics_ := default_metrics;
     visualization_callback_ := false; visualized_ := [] |}.

(** [std::vector<float>::resize(n)]: truncate, or pad with [0.0f]. *)
Definition resize (n : nat) (v : list spec_float) : list spec_float :=
  take n v ++ replicate (n - length v) F32.zero.

(** [v.assign(n, x)] and, on a vector of [n] elements, [std::fill]. *)
Definition assign (n : nat) (x : spec_float) : list spec_float := replicate n x.

Definition fill (v : list spec_float) (x : spec_float) : list spec_float :=
  replicate (length v) x.

Definition calculateLatency (s : t) : t :=
  let buffer_time_ms :=
    F64.mul (F64.div (F64.of_Z (buffer_size (config_ s)))
                     (F64.of_Z (sample_rate (config_ s))))
            F64.c1000 in
  let m1 := set_latency buffer_time_ms buffer_time_ms
                        (total_latency (current_metrics_ s))
                        (current_metrics_ s) in
  let m2 := set_latency (input_latency m1) (output_latency m1)
                        (F64.add (input_latency m1) (output_latency m1)) m1 in
  set_metrics m2 s.

(** [generateDefaultAudio] leaves [static_cast<size_t>(44100.0f * 3.0f) * 2]
    samples in the buffer. *)
Definition generateDefaultAudio (s : t) : t := set_audio_buffer 264600 s.

Definition stop (s : t) : t :=
  let s1 := set_playback_position 0 (set_playing false s) in
  set_metrics (set_is_playing false
                 (set_spectrum (assign 32 F32.zero) (current_metrics_ s1))) s1.

Definition shutdown (s : t) : t :=
  if negb (initialized_ s) then s
  else
    let s1 := stop s in
    let s2 := set_should_stop true s1 in
    (* join: the thread leaves its loop *)
    let s3 := set_audio_thread false s2 in
    set_initialized false s3.

Definition initialize (c : AudioConfig) (s : t) : bool * t :=
  let s0 := if initialized_ s then shutdown s else s in
  let s1 := set_config c s0 in
  let s2 := set_audio_buffer (44100 * 2 * 10) s1 in
  let s3 := generateDefaultAudio s2 in
  let s4 := calculateLatency s3 in
  let s5 := set_should_stop false s4 in
  let s6 := set_audio_thread true s5 in
  (true, set_initialized true s6).

Definition setConfig (c : AudioConfig) (s : t) : bool * t :=
  if negb (initialized_ s) then (false, s)
  else
    let needs_restart :=
      negb (sample_rate c =? sample_rate (config_ s)) ||
      negb (buffer_size c =? buffer_size (config_ s)) ||
      negb (bit_depth c =? bit_depth (config_ s)) in
    let s1 := set_config c s in
    (true, if needs_restart then calculateLatency s1 else s1).

Definition play (s : t) : t :=
  if negb (initialized_ s) then s
  else set_playback_position 0 (set_playing true s).

Definition pause (s : t) : t := set_playing false s.

Definition isPlaying (s : t) : bool := playing_ s.
Definition isInitialized (s : t) : bool := initialized_ s.
Definition getConfig (s : t) : AudioConfig := config_ s.
Definition getMetrics (s : t) : AudioMetrics := current_metrics_ s.

Definition setVisualizationCallback (s : t) : t := set_callback true s.

Definition setActiveDevice (d : Z) (s : t) : bool * t :=
  (true, set_active_device d s).

(** [playback_position_] is a [size_t]: additions wrap at 2^64. The product
    [sample_rate * 50] is an [int] product, taken here without overflow. *)
Definition processAudioBuffer (s : t) : t :=
  if negb (playing_ s) || (audio_buffer_ s =? 0) then s
  else
    let samples_per_update := Z.quot (sample_rate (config_ s) * 50) 1000 in
    let p := (playback_position_ s + samples_per_update) mod 2 ^ 64 in
    let p := if audio_buffer_ s <=? p then 0 else p in
    let s1 := set_playback_position p s in
    set_metrics (set_is_playing true (current_metrics_ s1)) s1.

(** The three factors of a bin and their product, as the loop body writes
    them. *)
Definition base_level (i : nat) : spec_float :=
  F32.max F32.tenth
          (F32.sub F32.one (F32.div (F32.of_Z (Z.of_nat i)) F32.c32)).

Definition time_factor (env : TickEnv) (i : nat) : spec_float :=
  let time_ms := now_ms env i in
  F32.add F32.half
    (F32.mul F32.half
       (sinf env (F32.add (F32.div (F32.of_Z time_ms) F32.c100)
                          (F32.mul (F32.of_Z (Z.of_nat i)) F32.half)))).

Definition bin (env : TickEnv) (i : nat) : spec_float :=
  let random_factor := dis env i in
  F32.mul (F32.mul (base_level i) random_factor) (time_factor env i).

(** [for (size_t i = 0; i < 32; ++i) spectrum_data[i] = ...] *)
Definition spectrum_loop (env : TickEnv) (v : list spec_float) : list spec_float :=
  foldl (fun d i => <[i := bin env i]> d) v (seq 0 32).

Definition generateSpectrumData (env : TickEnv) (s : t) : t :=
  if playing_ s then
    let v := spectrum_loop env (resize 32 (spectrum_data (current_metrics_ s))) in
    let s1 := set_metrics (set_spectrum v (current_metrics_ s)) s in
    if visualization_callback_ s1
    then set_visualized (visualized_ s1 ++ [v]) s1
    else s1
  else
    let v := resize 32 (spectrum_data (current_metrics_ s)) in
    set_metrics (set_spectrum (fill v F32.tenth) (current_metrics_ s)) s.

(** One update of the audio thread (the body run every 50 ms). *)
Definition tick (env : TickEnv) (s : t) : t :=
  generateSpectrumData env (processAudioBuffer s).

(** The calls that can reach an engine: the public member functions and the
    updates of its own thread. *)
Inductive op :=
| OpInitialize (c : AudioConfig)
| OpShutdown
| OpSetConfig (c : AudioConfig)
| OpPlay
| OpPause
| OpStop
| OpSetVisualizationCallback
| OpSetActiveDevice (d : Z)
| OpTick (env : TickEnv).

Definition step (o : op) (s : t) : t :=
  match o with
  | OpInitialize c => snd (initialize c s)
  | OpShutdown => shutdown s
  | OpSetConfig c => snd (setConfig c s)
  | OpPlay => play s
  | OpPause => pause s
  | OpStop => stop s
  | OpSetVisualizationCallback => setVisualizationCallback s
  | OpSetActiveDevice d => snd (setActiveDevice d s)
  | OpTick env => tick env s
  end.

Definition run (ops : list op) (s : t) : t := foldl (fun s o => step o s) s ops.

End AudioEngine.

(* ===================================================================== *)
(** * ConfigManager (config_manager.cpp) *)
(* ===================================================================== *)

Module ConfigManager.

(** The change callback receives the configuration by const reference; it is
    an observer, and its invocations are recorded in [notified_]. *)
Record t := mk {
  system_config_ : SystemConfig;
  device_profiles_ : gmap Z AudioConfig;
  config_change_callback_ : bool;        (* is a callback installed? *)
  notified_ : list SystemConfig          (* arguments of the calls made *)
}.

Definition getDefaultAudioConfig : AudioConfig :=
  {| sample_rate := 48000; buffer_size := 256; bit_depth := 24; channels := 2 |}.

Definition getDefaultSystemConfig : SystemConfig :=
  {| audio := getDefaultAudioConfig;
     active_device_id := -1;
     current_audio_file := "T-Rex Roar (Default)";
     auto_save := true;
     config_file_path := "config.txt" |}.

(** The constructor: [initializeDefaults]. *)
Definition new : t :=
  {| system_config_ := getDefaultSystemConfig;
     device_profiles_ := ∅;
     config_change_callback_ := false;
     notified_ := [] |}.

Definition valid_rates : list Z := [44100; 48000; 88200; 96000; 192000].

(** [std::find(valid_rates.begin(), valid_rates.end(), r) != valid_rates.end()] *)
Definition isValidSampleRate (r : Z) : bool :=
  existsb (Z.eqb r) valid_rates.

Definition isValidBufferSize (b : Z) : bool :=
  (32 <=? b) && (b <=? 2048) && (Z.land b (b - 1) =? 0).

Definition isValidBitDepth (d : Z) : bool :=
  (d =? 16) || (d =? 24) || (d =? 32).

Definition validateAudioConfig (c : AudioConfig) : bool :=
  isValidSampleRate (sample_rate c) &&
  isValidBufferSize (buffer_size c) &&
  isValidBitDepth (bit_depth c) &&
  (0 <? channels c) && (channels c <=? 8).

Definition validateConfig (c : SystemConfig) : bool :=
  validateAudioConfig (audio c) && (-1 <=? active_device_id c).

Definition notifyConfigChanged (cm : t) : t :=
  if config_change_callback_ cm
  then {| system_config_ := system_config_ cm;
          device_profiles_ := device_profiles_ cm;
          config_change_callback_ := config_change_callback_ cm;
          notified_ := notified_ cm ++ [system_config_ cm] |}
  else cm.

Definition set_system_config (sc : SystemConfig) (cm : t) : t :=
  {| system_config_ := sc;
     device_profiles_ := device_profiles_ cm;
     config_change_callback_ := config_change_callback_ cm;
     notified_ := notified_ cm |}.

Definition with_audio (c : AudioConfig) (sc : SystemConfig) : SystemConfig :=
  {| audio := c;
     active_device_id := active_device_id sc;
     current_audio_file := current_audio_file sc;
     auto_save := auto_save sc;
     config_file_path := config_file_path sc |}.

Definition getSystemConfig (cm : t) : SystemConfig := system_config_ cm.
Definition getAudioConfig (cm : t) : AudioConfig := audio (system_config_ cm).

Definition setSystemConfig (c : SystemConfig) (cm : t) : bool * t :=
  if negb (validateConfig c) then (false, cm)
  else (true, notifyConfigChanged (set_system_config c cm)).

Definition setAudioConfig (c : AudioConfig) (cm : t) : bool * t :=
  if negb (validateAudioConfig c) then (false, cm)
  else (true, notifyConfigChanged
                (set_system_config (with_audio c (system_config_ cm)) cm)).

Definition setConfigChangeCallback (cm : t) : t :=
  {| system_config_ := system_config_ cm;
     device_profiles_ := device_profiles_ cm;
     config_change_callback_ := true;
     notified_ := notified_ cm |}.

(** Device profiles: [device_profiles_] is a [std::map<int, AudioConfig>]. *)
Definition set_device_profiles (m : gmap Z AudioConfig) (cm : t) : t :=
  {| system_config_ := system_config_ cm;
     device_profiles_ := m;
     config_change_callback_ := config_change_callback_ cm;
     notified_ := notified_ cm |}.

Definition saveDeviceProfile (device_id : Z) (c : AudioConfig) (cm : t) : bool * t :=
  if negb (validateAudioConfig c) then (false, cm)
  else (true, set_device_profiles (<[device_id := c]> (device_profiles_ cm)) cm).

Definition getDeviceProfile (device_id : Z) (cm : t) : AudioConfig :=
  match device_profiles_ cm !! device_id with
  | Some c => c
  | None => getDefaultAudioConfig
  end.

Definition hasDeviceProfile (device_id : Z) (cm : t) : bool :=
  bool_decide (is_Some (device_profiles_ cm !! device_id)).

Definition removeDeviceProfile (device_id : Z) (cm : t) : t :=
  set_device_profiles (delete device_id (device_profiles_ cm)) cm.

Definition with_active_device (d : Z) (sc : SystemConfig) : SystemConfig :=
  {| audio := audio sc;
     active_device_id := d;
     current_audio_file := current_audio_file sc;
     auto_save := auto_save sc;
     config_file_path := config_file_path sc |}.

Definition with_audio_file (f : string) (sc : SystemConfig) : SystemConfig :=
  {| audio := audio sc;
     active_device_id := active_device_id sc;
     current_audio_file := f;
     auto_save := auto_save sc;
     config_file_path := config_file_path sc |}.

Definition setActiveDevice (device_id : Z) (cm : t) : t :=
  notifyConfigChanged
    (set_system_config (with_active_device device_id (system_config_ cm)) cm).

Definition getActiveDevice (cm : t) : Z := active_device_id (system_config_ cm).

Definition setCurrentAudioFile (filepath : string) (cm : t) : t :=
  notifyConfigChanged
    (set_system_config (with_audio_file filepath (system_config_ cm)) cm).

Definition getCurrentAudioFile (cm : t) : string :=
  current_audio_file (system_config_ cm).

Definition resetToDefaults (cm : t) : t :=
  notifyConfigChanged
    (set_device_profiles ∅ (set_system_config getDefaultSystemConfig cm)).

(** The public calls that change a manager without touching files. *)
Inductive op :=
| OpSetSystemConfig (c : SystemConfig)
| OpSetAudioConfig (c : AudioConfig)
| OpSaveDeviceProfile (device_id : Z) (c : AudioConfig)
| OpRemoveDeviceProfile (device_id : Z)
| OpSetActiveDevice (device_id : Z)
| OpSetCurrentAudioFile (filepath : string)
| OpSetConfigChangeCallback
| OpResetToDefaults.

Definition step (o : op) (cm : t) : t :=
  match o with
  | OpSetSystemConfig c => snd (setSystemConfig c cm)
  | OpSetAudioConfig c => snd (setAudioConfig c cm)
  | OpSaveDeviceProfile d c => snd (saveDeviceProfile d c cm)
  | OpRemoveDeviceProfile d => removeDeviceProfile d cm
  | OpSetActiveDevice d => setActiveDevice d cm
  | OpSetCurrentAudioFile f => setCurrentAudioFile f cm
  | OpSetConfigChangeCallback => setConfigChangeCallback cm
  | OpResetToDefaults => resetToDefaults cm
  end.

Definition run (ops : list op) (cm : t) : t := foldl (fun cm o => step o cm) cm ops.

End ConfigManager.

(* ===================================================================== *)
(** * DeviceManager (device_manager.cpp), as far as the server reads it *)
(* ===================================================================== *)

Module DeviceManager.

Record t := mk {
  devices_ : list AudioDevice;
  active_device_id_ : Z
}.

Definition getDevices (dm : t) : list AudioDevice := devices_ dm.

End DeviceManager.

Definition deviceTypeToString (ty : DeviceType) : string :=
  match ty with
  | WDM => "WDM"
  | KS => "KS"
  | WASAPI => "WASAPI"
  | ASIO => "ASIO"
  end.

Definition deviceStatusToString (st : DeviceStatus) : string :=
  match st with
  | Active => "Active"
  | Inactive => "Inactive"
  | Disabled => "Disabled"
  | Error => "Error"
  end.

(* ===================================================================== *)
(** * std::string operations used by the server *)
(* ===================================================================== *)

Module Str.

Definition CR : ascii := "013"%char.
Definition LF : ascii := "010"%char.
Definition CRLF : string := String CR (String LF EmptyString).
(** The double quote, and a string between double quotes. *)
Definition dq : string := String "034"%char EmptyString.
Definition quoted (s : string) : string := dq +:+ s +:+ dq.

(** [s.find(c)] *)
Fixpoint find_char (c : ascii) (s : string) : option nat :=
  match s with
  | EmptyString => None
  | String a s' =>
      if Ascii.eqb a c then Some 0%nat
      else match find_char c s' with
           | Some n => Some (S n)
           | None => None
           end
  end.

(** Does [s] start with [needle]? *)
Fixpoint starts_with (needle s : string) : bool :=
  match needle with
  | EmptyString => true
  | String a needle' =>
      match s with
      | EmptyString => false
      | String b s' => Ascii.eqb a b && starts_with needle' s'
      end
  end.

(** [s.find(needle)] *)
Fixpoint find (needle s : string) : option nat :=
  if starts_with needle s then Some 0%nat
  else match s with
       | EmptyString => None
       | String _ s' =>
           match find needle s' with
           | Some n => Some (S n)
           | None => None
           end
       end.

(** [s.find_last_of(c)] *)
Fixpoint find_last_of (c : ascii) (s : string) : option nat :=
  match s with
  | EmptyString => None
  | String a s' =>
      match find_last_of c s' with
      | Some n => Some (S n)
      | None => if Ascii.eqb a c then Some 0%nat else None
      end
  end.

(** [s.substr(0, n)] *)
Fixpoint take (n : nat) (s : string) : string :=
  match n, s with
  | S n', String a s' => String a (take n' s')
  | _, _ => EmptyString
  end.

(** [s.substr(n)], for [n] up to the size of [s] *)
Fixpoint drop (n : nat) (s : string) : string :=
  match n, s with
  | S n', String _ s' => drop n' s'
  | _, _ => s
  end.

(** [std::isspace] in the C locale *)
Definition isspace (c : ascii) : bool :=
  let n := nat_of_ascii c in
  (n =? 32)%nat || ((9 <=? n)%nat && (n <=? 13)%nat).

(** [stream >> word]: skip white space, then read up to the next white space
    or the end; the remaining input is returned too. On an exhausted stream
    the word stays empty. *)
Fixpoint skip_ws (s : string) : string :=
  match s with
  | EmptyString => EmptyString
  | String c s' => if isspace c then skip_ws s' else s
  end.

Fixpoint read_word (s : string) : string * string :=
  match s with
  | EmptyString => (EmptyString, EmptyString)
  | String c s' =>
      if isspace c then (EmptyString, s)
      else let (w, r) := read_word s' in (String c w, r)
  end.

Definition extract (s : string) : string * string := read_word (skip_ws s).

(** [std::string(buffer)] of a NUL-terminated buffer: the bytes before the
    first NUL. *)
Fixpoint c_str (s : string) : string :=
  match s with
  | EmptyString => EmptyString
  | String c s' => if Ascii.eqb c "000"%char then EmptyString else String c (c_str s')
  end.

End Str.

(* ===================================================================== *)
(** * The query-string regex of handleClient *)
(* ===================================================================== *)

(** The regular expression of [handleClient] has two groups around an equals
    sign: group 1 is one or more characters other than ampersand and equals
    sign, group 2 is zero or more of them. It is iterated with
    [std::sregex_iterator]: each match is the leftmost one after the previous
    match, and both groups are greedy. *)
Module ParamRegex.

Definition is_sep (c : ascii) : bool := Ascii.eqb c "&"%char || Ascii.eqb c "="%char.

(** The longest prefix without ampersand and equals sign, and what follows
    it. *)
Fixpoint span (s : string) : string * string :=
  match s with
  | EmptyString => (EmptyString, EmptyString)
  | String c s' =>
      if is_sep c then (EmptyString, s)
      else let (k, r) := span s' in (String c k, r)
  end.

(** A match anchored at the start of [s]: group 1, group 2 and the input
    after the match. Giving back characters of group 1 cannot help, the
    character after a shorter group 1 is no equals sign. *)
Definition match_here (s : string) : option (string * string * string) :=
  match span s with
  | (String c k, String e r) =>
      if Ascii.eqb e "="%char
      then let (v, r') := span r in Some (String c k, v, r')
      else None
  | _ => None
  end.

(** [std::regex_search]: the match at the leftmost position that has one. *)
Fixpoint search (s : string) : option (string * string * string) :=
  match match_here s with
  | Some m => Some m
  | None =>
      match s with
      | EmptyString => None
      | String _ s' => search s'
      end
  end.

(** The iterator: search again from the end of the previous match. A match
    has at least two characters, so [fuel] bounds the number of matches. *)
Fixpoint iter (fuel : nat) (s : string) : list (string * string) :=
  match fuel with
  | O => []
  | S fuel' =>
      match search s with
      | Some (k, v, rest) => (k, v) :: iter fuel' rest
      | None => []
      end
  end.

Definition matches (query : string) : list (string * string) :=
  iter (String.length query) query.

End ParamRegex.

(* ===================================================================== *)
(** * WebServer (webserver.cpp) *)
(* ===================================================================== *)

Module WebServer.

(** The injected components; [None] is the null [shared_ptr]. *)
Record Components := mkComponents {
  audio_engine_ : option AudioEngine.t;
  device_manager_ : option DeviceManager.t;
  config_manager_ : option ConfigManager.t
}.

(** A route. The handlers installed by [setupRoutes] capture [this] and read
    the components when they are called, so a handler takes the components
    next to the parameters; a handler given to [addRoute] from outside may
    ignore them. *)
Record Route := mkRoute {
  method : string;
  path : string;
  handler : Components -> gmap string string -> string
}.

Record t := mk {
  port_ : Z;
  running_ : bool;
  static_directory_ : string;
  routes_ : list Route;
  components_ : Components
}.

(** The files that can be opened, by full path, with their contents. *)
Definition FileSystem := string -> option string.

Definition handleDevicesAPI (c : Components) (params : gmap string string) : string :=
  match device_manager_ c with
  | None => "{" +:+ Str.quoted "error" +:+ ": "
              +:+ Str.quoted "Device manager not available" +:+ "}"
  | Some dm =>
      let device_json (d : AudioDevice) : string :=
        "{" +:+ Str.quoted "id" +:+ ": " +:+ pretty (id d)
            +:+ ", " +:+ Str.quoted "name" +:+ ": " +:+ Str.quoted (name d)
            +:+ ", " +:+ Str.quoted "type" +:+ ": "
            +:+ Str.quoted (deviceTypeToString (type d))
            +:+ ", " +:+ Str.quoted "status" +:+ ": "
            +:+ Str.quoted (deviceStatusToString (status d))
            +:+ "}" in
      let fix items (first : bool) (ds : list AudioDevice) : string :=
        match ds with
        | [] => EmptyString
        | d :: ds' =>
            (if first then EmptyString else ",") +:+ device_json d
              +:+ items false ds'
        end in
      "{" +:+ Str.quoted "devices" +:+ ": [" +:+
        items true (DeviceManager.getDevices dm) +:+ "]}"
  end.

Definition handleConfigAPI (c : Components) (params : gmap string string) : string :=
  match config_manager_ c with
  | None => "{" +:+ Str.quoted "error" +:+ ": "
              +:+ Str.quoted "Config manager not available" +:+ "}"
  | Some cm =>
      let config := ConfigManager.getAudioConfig cm in
      "{" +:+ Str.quoted "config" +:+ ": {"
        +:+ Str.quoted "sample_rate" +:+ ": " +:+ pretty (sample_rate config)
        +:+ ", " +:+ Str.quoted "buffer_size" +:+ ": " +:+ pretty (buffer_size config)
        +:+ ", " +:+ Str.quoted "bit_depth" +:+ ": " +:+ pretty (bit_depth config)
        +:+ ", " +:+ Str.quoted "channels" +:+ ": " +:+ pretty (channels config)
        +:+ "}}"
  end.

Definition online (b : bool) : string := if b then "online" else "offline".

Definition handleStatusAPI (c : Components) (params : gmap string string) : string :=
  "{" +:+ Str.quoted "status" +:+ ": {"
    +:+ Str.quoted "server" +:+ ": " +:+ Str.quoted "online"
    +:+ ", " +:+ Str.quoted "audio_engine" +:+ ": "
    +:+ Str.quoted (online (match audio_engine_ c with
                            | Some e => AudioEngine.isInitialized e
                            | None => false
                            end))
    +:+ ", " +:+ Str.quoted "device_manager" +:+ ": "
    +:+ Str.quoted (online (bool_decide (is_Some (device_manager_ c))))
    +:+ ", " +:+ Str.quoted "config_manager" +:+ ": "
    +:+ Str.quoted (online (bool_decide (is_Some (config_manager_ c))))
    +:+ "}}".

Definition handleAudioAPI (c : Components) (params : gmap string string) : string :=
  match audio_engine_ c with
  | None => "{" +:+ Str.quoted "error" +:+ ": "
              +:+ Str.quoted "Audio engine not available" +:+ "}"
  | Some _ => "{" +:+ Str.quoted "result" +:+ ": " +:+ Str.quoted "success"
                +:+ ", " +:+ Str.quoted "message" +:+ ": "
                +:+ Str.quoted "Audio command processed" +:+ "}"
  end.

Definition setupRoutes : list Route :=
  [ mkRoute "GET" "/api/devices" handleDevicesAPI;
    mkRoute "GET" "/api/config" handleConfigAPI;
    mkRoute "GET" "/api/status" handleStatusAPI;
    mkRoute "POST" "/api/audio/play" handleAudioAPI ].

(** The constructor. *)
Definition new (port : Z) : t :=
  {| port_ := port; running_ := false; static_directory_ := EmptyString;
     routes_ := setupRoutes;
     components_ := mkComponents None None None |}.

Definition set_running (b : bool) (s : t) : t :=
  mk (port_ s) b (static_directory_ s) (routes_ s) (components_ s).

Definition addRoute (m p : string)
    (h : Components -> gmap string string -> string) (s : t) : t :=
  mk (port_ s) (running_ s) (static_directory_ s)
     (routes_ s ++ [mkRoute m p h]) (components_ s).

Definition setStaticDirectory (dir : string) (s : t) : t :=
  mk (port_ s) (running_ s) dir (routes_ s) (components_ s).

Definition setAudioEngine (e : option AudioEngine.t) (s : t) : t :=
  mk (port_ s) (running_ s) (static_directory_ s) (routes_ s)
     (mkComponents e (device_manager_ (components_ s))
                   (config_manager_ (components_ s))).

Definition setDeviceManager (d : option DeviceManager.t) (s : t) : t :=
  mk (port_ s) (running_ s) (static_directory_ s) (routes_ s)
     (mkComponents (audio_engine_ (components_ s)) d
                   (config_manager_ (components_ s))).

Definition setConfigManager (c : option ConfigManager.t) (s : t) : t :=
  mk (port_ s) (running_ s) (static_directory_ s) (routes_ s)
     (mkComponents (audio_engine_ (components_ s))
                   (device_manager_ (components_ s)) c).

Definition isRunning (s : t) : bool := running_ s.

(** [start]: [listening] tells whether socket, bind and listen all succeed.
    The accept thread is not part of the state; it polls [running_]. *)
Definition start (listening : bool) (s : t) : bool * t :=
  if running_ s then (true, s)
  else if listening then (true, set_running true s)
  else (false, s).

Definition stop (s : t) : t := set_running false s.

Definition serveStaticFile (fs : FileSystem) (s : t) (p : string) : string :=
  let full_path := static_directory_ s +:+ p in
  match fs full_path with
  | None => EmptyString
  | Some content => content
  end.

Definition getContentType (p : string) : string :=
  match Str.find_last_of "."%char p with
  | None => "text/plain"
  | Some dot_pos =>
      let extension := Str.drop dot_pos p in
      if String.eqb extension ".html" then "text/html"
      else if String.eqb extension ".css" then "text/css"
      else if String.eqb extension ".js" then "application/javascript"
      else if String.eqb extension ".json" then "application/json"
      else if String.eqb extension ".png" then "image/png"
      else if String.eqb extension ".jpg" || String.eqb extension ".jpeg"
           then "image/jpeg"
      else if String.eqb extension ".gif" then "image/gif"
      else if String.eqb extension ".svg" then "image/svg+xml"
      else if String.eqb extension ".ico" then "image/x-icon"
      else if String.eqb extension ".wav" then "audio/wav"
      else if String.eqb extension ".mp3" then "audio/mpeg"
      else "text/plain"
  end.

Definition cors_headers : string :=
  "Access-Control-Allow-Origin: *" +:+ Str.CRLF +:+
  "Access-Control-Allow-Methods: GET, POST, PUT, DELETE, OPTIONS" +:+ Str.CRLF +:+
  "Access-Control-Allow-Headers: Content-Type, Authorization" +:+ Str.CRLF.

Definition addCORSHeaders (response : string) : string :=
  match Str.find (Str.CRLF +:+ Str.CRLF) response with
  | Some header_end =>
      Str.take header_end response +:+ Str.CRLF +:+ cors_headers
        +:+ Str.drop header_end response
  | None => response
  end.

(** The loop over [routes_]: the first route whose method and path are both
    equal to those of the request. *)
Fixpoint find_route (routes : list Route) (m p : string) : option Route :=
  match routes with
  | [] => None
  | route :: rest =>
      if String.eqb (method route) m && String.eqb (path route) p
      then Some route
      else find_route rest m p
  end.

Definition not_found : string :=
  "HTTP/1.1 404 Not Found" +:+ Str.CRLF +:+ "Content-Type: text/html"
    +:+ Str.CRLF +:+ Str.CRLF +:+ "<h1>404 Not Found</h1>".

Definition handleRequest (fs : FileSystem) (s : t) (m p : string)
    (params : gmap string string) : string :=
  match find_route (routes_ s) m p with
  | Some route =>
      let json_response := handler route (components_ s) params in
      addCORSHeaders ("HTTP/1.1 200 OK" +:+ Str.CRLF
                        +:+ "Content-Type: application/json"
                        +:+ Str.CRLF +:+ Str.CRLF +:+ json_response)
  | None =>
      let static :=
        if String.eqb m "GET" then
          let file_path := if String.eqb p "/" then "/index.html" else p in
          let content := serveStaticFile fs s file_path in
          if negb (String.eqb content EmptyString) then
            Some (addCORSHeaders ("HTTP/1.1 200 OK" +:+ Str.CRLF
                                    +:+ "Content-Type: " +:+ getContentType file_path
                                    +:+ Str.CRLF +:+ Str.CRLF +:+ content))
          else None
        else None in
      match static with
      | Some response => response
      | None => addCORSHeaders not_found
      end
  end.

(** The query parameters: for each match in turn, group 2 is stored under
    group 1 with [operator[]] of [std::map], which overwrites. *)
Definition query_params (query : string) : gmap string string :=
  foldl (fun params kv => <[kv.1 := kv.2]> params) ∅ (ParamRegex.matches query).

(** The part of [handleClient] that splits the request target at its first
    question mark. *)
Definition split_target (target : string) : string * gmap string string :=
  match Str.find_char "?"%char target with
  | Some query_pos =>
      (Str.take query_pos target, query_params (Str.drop (S query_pos) target))
  | None => (target, ∅)
  end.

(** [handleClient]: [received] is what [recv] delivered, [None] when it returned
    no bytes or failed. The result is the response sent, if any. *)
Definition handleClient (fs : FileSystem) (s : t) (received : option string)
    : option string :=
  match received with
  | None => None
  | Some buffer =>
      let request := Str.c_str buffer in
      let '(m, r1) := Str.extract request in
      let '(target, r2) := Str.extract r1 in
      let '(version, _) := Str.extract r2 in
      let '(p, params) := split_target target in
      Some (handleRequest fs s m p params)
  end.

End WebServer.

(* ===================================================================== *)
(** * DeviceManager (device_manager.cpp): the whole class *)
(* ===================================================================== *)

Definition stringToDeviceType (type_str : string) : DeviceType :=
  if String.eqb type_str "WDM" then WDM
  else if String.eqb type_str "KS" then KS
  else if String.eqb type_str "WASAPI" then WASAPI
  else if String.eqb type_str "ASIO" then ASIO
  else WDM.

Definition stringToDeviceStatus (status_str : string) : DeviceStatus :=
  if String.eqb status_str "Active" then Active
  else if String.eqb status_str "Inactive" then Inactive
  else if String.eqb status_str "Disabled" then Disabled
  else if String.eqb status_str "Error" then Error
  else Inactive.

Definition DeviceStatus_eqb (a b : DeviceStatus) : bool :=
  match a, b with
  | Active, Active | Inactive, Inactive | Disabled, Disabled | Error, Error => true
  | _, _ => false
  end.

(** The device manager with the members that the web server does not read:
    the status map and the flag of the system audio layer. The build modelled
    is the one without the Windows branches. *)
Module Devices.

Record t := mk {
  manager : DeviceManager.t;
  device_status_ : gmap Z DeviceStatus;
  system_initialized_ : bool
}.

Definition devices_ (dm : t) : list AudioDevice :=
  DeviceManager.devices_ (manager dm).

Definition active_device_id_ (dm : t) : Z :=
  DeviceManager.active_device_id_ (manager dm).

Definition set_devices (l : list AudioDevice) (dm : t) : t :=
  mk (DeviceManager.mk l (active_device_id_ dm)) (device_status_ dm)
     (system_initialized_ dm).

Definition set_active (d : Z) (dm : t) : t :=
  mk (DeviceManager.mk (devices_ dm) d) (device_status_ dm)
     (system_initialized_ dm).

Definition set_status_map (m : gmap Z DeviceStatus) (dm : t) : t :=
  mk (manager dm) m (system_initialized_ dm).

Definition set_system_initialized (b : bool) (dm : t) : t :=
  mk (manager dm) (device_status_ dm) b.

Definition with_status (st : DeviceStatus) (d : AudioDevice) : AudioDevice :=
  mkAudioDevice (id d) (name d) (type d) st (max_sample_rate d)
                (min_buffer_size d) (max_buffer_size d)
                (supported_sample_rates d) (supported_bit_depths d)
                (is_input d) (is_output d).

Definition createMockDevice (i : Z) (n : string) (ty : DeviceType) : AudioDevice :=
  let st := if i =? 1 then Active else Inactive in
  let st := if i =? 2 then Disabled else st in
  {| id := i; name := n; type := ty; status := st;
     max_sample_rate := 192000;
     min_buffer_size := 32;
     max_buffer_size := 2048;
     supported_sample_rates := [44100; 48000; 88200; 96000; 192000];
     supported_bit_depths := [16; 24; 32];
     is_input := true; is_output := true |}.

Definition default_devices : list AudioDevice :=
  [ createMockDevice 1 "Generic HD Audio Device (WDM)" WDM;
    createMockDevice 2 "Realtek ASIO (KS)" KS;
    createMockDevice 3 "NVIDIA Broadcast (WASAPI)" WASAPI;
    createMockDevice 4 "Focusrite USB ASIO (WDM)" WDM ].

Definition populateDefaultDevices (dm : t) : t :=
  let dm1 := set_devices default_devices dm in
  let statuses :=
    foldl (fun m d => <[id d := status d]> m) (device_status_ dm1) (devices_ dm1) in
  let dm2 := set_status_map statuses dm1 in
  if bool_decide (devices_ dm2 = []) then dm2 else set_active 1 dm2.

Definition initializeSystemAudio (dm : t) : bool * t :=
  if system_initialized_ dm then (true, dm)
  else (true, set_system_initialized true dm).

Definition shutdownSystemAudio (dm : t) : t :=
  if negb (system_initialized_ dm) then dm
  else set_system_initialized false dm.

(** The constructor. *)
Definition new : t :=
  populateDefaultDevices
    (snd (initializeSystemAudio (mk (DeviceManager.mk [] (-1)) ∅ false))).

Definition scanDevices (dm : t) : bool * t :=
  let dm1 := set_status_map ∅ (set_devices [] dm) in
  let dm2 := populateDefaultDevices dm1 in
  (negb (bool_decide (devices_ dm2 = [])), dm2).

Definition getDevices (dm : t) : list AudioDevice := devices_ dm.

(** [std::find_if] on the id. *)
Fixpoint find_device (device_id : Z) (l : list AudioDevice) : option AudioDevice :=
  match l with
  | [] => None
  | d :: l' => if id d =? device_id then Some d else find_device device_id l'
  end.

Definition getDevice (device_id : Z) (dm : t) : option AudioDevice :=
  find_device device_id (devices_ dm).

(** The status of the first device with the id is overwritten. *)
Fixpoint update_first (device_id : Z) (st : DeviceStatus) (l : list AudioDevice)
    : list AudioDevice :=
  match l with
  | [] => []
  | d :: l' =>
      if id d =? device_id then with_status st d :: l'
      else d :: update_first device_id st l'
  end.

Definition updateDeviceStatus (device_id : Z) (st : DeviceStatus) (dm : t) : t :=
  let dm1 := set_status_map (<[device_id := st]> (device_status_ dm)) dm in
  set_devices (update_first device_id st (devices_ dm1)) dm1.

Definition getDeviceStatus (device_id : Z) (dm : t) : DeviceStatus :=
  match device_status_ dm !! device_id with
  | Some st => st
  | None => Inactive
  end.

Definition activateDevice (device_id : Z) (dm : t) : bool * t :=
  match getDevice device_id dm with
  | None => (false, dm)
  | Some device =>
      if DeviceStatus_eqb (status device) Disabled then (false, dm)
      else
        let dm1 := if negb (active_device_id_ dm =? -1)
                   then updateDeviceStatus (active_device_id_ dm) Inactive dm
                   else dm in
        let dm2 := updateDeviceStatus device_id Active dm1 in
        (true, set_active device_id dm2)
  end.

Definition deactivateDevice (device_id : Z) (dm : t) : bool * t :=
  let dm1 := if active_device_id_ dm =? device_id then set_active (-1) dm else dm in
  (true, updateDeviceStatus device_id Inactive dm1).

Definition isDeviceActive (device_id : Z) (dm : t) : bool :=
  active_device_id_ dm =? device_id.

(** [setDeviceConfig] only checks; nothing is stored. *)
Definition setDeviceConfig (device_id sample_rate buffer_size bit_depth : Z)
    (dm : t) : bool :=
  match getDevice device_id dm with
  | None => false
  | Some device =>
      let valid_sample_rate :=
        existsb (Z.eqb sample_rate) (supported_sample_rates device) in
      let valid_buffer_size :=
        (min_buffer_size device <=? buffer_size) &&
        (buffer_size <=? max_buffer_size device) in
      let valid_bit_depth :=
        existsb (Z.eqb bit_depth) (supported_bit_depths device) in
      if negb valid_sample_rate || negb valid_buffer_size || negb valid_bit_depth
      then false else true
  end.

Definition bool_string (b : bool) : string := if b then "true" else "false".

Definition getDeviceInfo (device_id : Z) (dm : t) : gmap string string :=
  match getDevice device_id dm with
  | None => ∅
  | Some device =>
      <["is_output" := bool_string (is_output device)]>
      (<["is_input" := bool_string (is_input device)]>
      (<["max_buffer_size" := pretty (max_buffer_size device)]>
      (<["min_buffer_size" := pretty (min_buffer_size device)]>
      (<["max_sample_rate" := pretty (max_sample_rate device)]>
      (<["status" := deviceStatusToString (status device)]>
      (<["type" := deviceTypeToString (type device)]>
      (<["name" := name device]>
      (<["id" := pretty (id device)]> ∅))))))))
  end.

(** The public calls that change the manager. *)
Inductive op :=
| OpScanDevices
| OpActivateDevice (device_id : Z)
| OpDeactivateDevice (device_id : Z)
| OpUpdateDeviceStatus (device_id : Z) (st : DeviceStatus)
| OpInitializeSystemAudio
| OpShutdownSystemAudio.

Definition step (o : op) (dm : t) : t :=
  match o with
  | OpScanDevices => snd (scanDevices dm)
  | OpActivateDevice d => snd (activateDevice d dm)
  | OpDeactivateDevice d => snd (deactivateDevice d dm)
  | OpUpdateDeviceStatus d st => updateDeviceStatus d st dm
  | OpInitializeSystemAudio => snd (initializeSystemAudio dm)
  | OpShutdownSystemAudio => shutdownSystemAudio dm
  end.

Definition run (ops : list op) (dm : t) : t := foldl (fun dm o => step o dm) dm ops.

End Devices.

(* ===================================================================== *)
(** * Text operations of the configuration file code *)
(* ===================================================================== *)

Module Text.

(** The lines that repeated [std::getline] calls deliver: the pieces between
    line feeds; a last piece without line feed is delivered when it is not
    empty. *)
Fixpoint getlines (s : string) : list string :=
  match s with
  | EmptyString => []
  | String c s' =>
      if Ascii.eqb c Str.LF then EmptyString :: getlines s'
      else match getlines s' with
           | [] => [String c EmptyString]
           | l :: ls => String c l :: ls
           end
  end.

(** Space and tab, the set given to [find_first_not_of] and
    [find_last_not_of]. *)
Definition is_blank (c : ascii) : bool :=
  Ascii.eqb c " "%char || Ascii.eqb c "009"%char.

(** [s.erase(0, s.find_first_not_of(...))] *)
Fixpoint trim_left (s : string) : string :=
  match s with
  | EmptyString => EmptyString
  | String c s' => if is_blank c then trim_left s' else s
  end.

(** [s.erase(s.find_last_not_of(...) + 1)] *)
Fixpoint trim_right (s : string) : string :=
  match s with
  | EmptyString => EmptyString
  | String c s' =>
      match trim_right s' with
      | EmptyString => if is_blank c then EmptyString else String c EmptyString
      | t => String c t
      end
  end.

Definition trim (s : string) : string := trim_right (trim_left s).

Definition is_digit (c : ascii) : bool :=
  (48 <=? nat_of_ascii c)%nat && (nat_of_ascii c <=? 57)%nat.

Definition digit_value (c : ascii) : Z := Z.of_nat (nat_of_ascii c) - 48.

(** The value of the leading decimal digits of [s], continuing from [acc]. *)
Fixpoint read_digits (acc : Z) (s : string) : Z :=
  match s with
  | EmptyString => acc
  | String c s' =>
      if is_digit c then read_digits (acc * 10 + digit_value c) s' else acc
  end.

Definition INT_MIN : Z := - 2 ^ 31.
Definition INT_MAX : Z := 2 ^ 31 - 1.

(** [std::stoi(s)]: white space, an optional sign, then decimal digits; what
    follows the digits is ignored. [None] stands for the exception thrown
    when there is no digit ([std::invalid_argument]) or when the value is no
    [int] ([std::out_of_range]). *)
Definition stoi (s : string) : option Z :=
  let s1 := Str.skip_ws s in
  let '(negative, s2) :=
    match s1 with
    | String c r =>
        if Ascii.eqb c "-"%char then (true, r)
        else if Ascii.eqb c "+"%char then (false, r)
        else (false, s1)
    | EmptyString => (false, s1)
    end in
  match s2 with
  | String c _ =>
      if is_digit c then
        let v := read_digits 0 s2 in
        let v := if negative then - v else v in
        if (INT_MIN <=? v) && (v <=? INT_MAX) then Some v else None
      else None
  | EmptyString => None
  end.

End Text.

(* ===================================================================== *)
(** * ConfigManager: files (config_manager.cpp) *)
(* ===================================================================== *)

Module ConfigIO.

(** The outcome of reading a configuration file: the function returned, or
    [std::stoi] threw; in both cases the manager is as the lines read so far
    left it. *)
Inductive load_result :=
| Returned (ok : bool) (cm : ConfigManager.t)
| Thrown (cm : ConfigManager.t).

Definition with_sample_rate (v : Z) (sc : SystemConfig) : SystemConfig :=
  ConfigManager.with_audio
    (mkAudioConfig v (buffer_size (audio sc)) (bit_depth (audio sc))
                   (channels (audio sc))) sc.

Definition with_buffer_size (v : Z) (sc : SystemConfig) : SystemConfig :=
  ConfigManager.with_audio
    (mkAudioConfig (sample_rate (audio sc)) v (bit_depth (audio sc))
                   (channels (audio sc))) sc.

Definition with_bit_depth (v : Z) (sc : SystemConfig) : SystemConfig :=
  ConfigManager.with_audio
    (mkAudioConfig (sample_rate (audio sc)) (buffer_size (audio sc)) v
                   (channels (audio sc))) sc.

Definition with_channels (v : Z) (sc : SystemConfig) : SystemConfig :=
  ConfigManager.with_audio
    (mkAudioConfig (sample_rate (audio sc)) (buffer_size (audio sc))
                   (bit_depth (audio sc)) v) sc.

(** The body of the loop of [loadFromFile] for one line; [None] when
    [std::stoi] throws. The fields are assigned directly, without validation
    and without notification. *)
Definition process_line (line : string) (sc : SystemConfig) : option SystemConfig :=
  match line with
  | EmptyString => Some sc
  | String c _ =>
      if Ascii.eqb c "#"%char then Some sc
      else
        match Str.find_char "="%char line with
        | None => Some sc
        | Some eq_pos =>
            let key := Text.trim (Str.take eq_pos line) in
            let value := Text.trim (Str.drop (S eq_pos) line) in
            if String.eqb key "sample_rate" then
              option_map (fun v => with_sample_rate v sc) (Text.stoi value)
            else if String.eqb key "buffer_size" then
              option_map (fun v => with_buffer_size v sc) (Text.stoi value)
            else if String.eqb key "bit_depth" then
              option_map (fun v => with_bit_depth v sc) (Text.stoi value)
            else if String.eqb key "channels" then
              option_map (fun v => with_channels v sc) (Text.stoi value)
            else if String.eqb key "active_device_id" then
              option_map (fun v => ConfigManager.with_active_device v sc)
                         (Text.stoi value)
            else if String.eqb key "current_audio_file" then
              Some (ConfigManager.with_audio_file value sc)
            else Some sc
        end
  end.

(** The loop over the lines: the configuration reached, and whether a line
    threw. *)
Fixpoint process_lines (lines : list string) (sc : SystemConfig)
    : SystemConfig * bool :=
  match lines with
  | [] => (sc, false)
  | line :: rest =>
      match process_line line sc with
      | Some sc' => process_lines rest sc'
      | None => (sc, true)
      end
  end.

Definition loadFromFile (fs : string -> option string) (filepath : string)
    (cm : ConfigManager.t) : load_result :=
  match fs filepath with
  | None => Returned false cm
  | Some content =>
      if String.eqb content EmptyString then Returned false cm
      else
        let '(sc, threw) :=
          process_lines (Text.getlines content) (ConfigManager.system_config_ cm) in
        let cm' := ConfigManager.set_system_config sc cm in
        if threw then Thrown cm' else Returned true cm'
  end.

(** The text written by [saveToFile], line by line. *)
Definition line (s : string) : string := s +:+ String Str.LF EmptyString.

Definition config_text (sc : SystemConfig) : string :=
  line "# CyberASIO Core Configuration" +:+
  line "# Generated automatically - do not edit while application is running" +:+
  line EmptyString +:+
  line "# Audio Configuration" +:+
  line ("sample_rate=" +:+ pretty (sample_rate (audio sc))) +:+
  line ("buffer_size=" +:+ pretty (buffer_size (audio sc))) +:+
  line ("bit_depth=" +:+ pretty (bit_depth (audio sc))) +:+
  line ("channels=" +:+ pretty (channels (audio sc))) +:+
  line EmptyString +:+
  line "# System Configuration" +:+
  line ("active_device_id=" +:+ pretty (active_device_id sc)) +:+
  line ("current_audio_file=" +:+ current_audio_file sc).

(** [saveToFile]: [writable] tells which files can be opened for writing. The
    new file system is returned with the result. *)
Definition saveToFile (writable : string -> bool) (fs : string -> option string)
    (filepath : string) (cm : ConfigManager.t)
    : bool * (string -> option string) :=
  if negb (writable filepath) then (false, fs)
  else (true, fun p => if String.eqb p filepath
                       then Some (config_text (ConfigManager.system_config_ cm))
                       else fs p).

Definition resolve_path (config_path : string) (cm : ConfigManager.t) : string :=
  if String.eqb config_path EmptyString
  then config_file_path (ConfigManager.system_config_ cm)
  else config_path.

Definition loadConfig (fs : string -> option string) (config_path : string)
    (cm : ConfigManager.t) : load_result :=
  loadFromFile fs (resolve_path config_path cm) cm.

Definition saveConfig (writable : string -> bool) (fs : string -> option string)
    (config_path : string) (cm : ConfigManager.t)
    : bool * (string -> option string) :=
  saveToFile writable fs (resolve_path config_path cm) cm.

(** [importConfigFromJSON]: both braces must occur somewhere. *)
Definition importConfigFromJSON (json_data : string) : bool :=
  match Str.find "{" json_data, Str.find "}" json_data with
  | Some _, Some _ => true
  | _, _ => false
  end.

End ConfigIO.

(* ===================================================================== *)
(** * The command line (main.cpp) *)
(* ===================================================================== *)

Module Main.

(** The outcome of the loop over [argv]: the usage text was printed and the
    process ends with status 0, or the settings to run with. *)
Inductive parsed :=
| Help
| Run (port : Z) (static_dir : string).

Section Args.
(** [std::atoi] of the C library. *)
Variable atoi : string -> Z.

(** The loop over [argv[1..]]: [--port] and [--static-dir] take the next
    argument when there is one; other arguments are skipped. *)
Fixpoint parse_args (args : list string) (port : Z) (static_dir : string)
    : parsed :=
  match args with
  | [] => Run port static_dir
  | arg :: rest =>
      match rest with
      | v :: rest' =>
          if String.eqb arg "--port" then parse_args rest' (atoi v) static_dir
          else if String.eqb arg "--static-dir" then parse_args rest' port v
          else if String.eqb arg "--help" || String.eqb arg "-h" then Help
          else parse_args rest port static_dir
      | [] =>
          if String.eqb arg "--help" || String.eqb arg "-h" then Help
          else Run port static_dir
      end
  end.

Definition parse_command_line (args : list string) : parsed :=
  parse_args args 7788 "static".

End Args.

End Main.

(* ===================================================================== *)
(** * Vocabulary of the specification: audio configurations *)
(* ===================================================================== *)

(** The validity conditions of an audio configuration, in the words of the
    specification. *)
Definition power_of_two (b : Z) : Prop := exists k : Z, 0 <= k /\ b = 2 ^ k.

Definition valid_audio_spec (c : AudioConfig) : Prop :=
  In (sample_rate c) [44100; 48000; 88200; 96000; 192000] /\
  (power_of_two (buffer_size c) /\ 32 <= buffer_size c <= 2048) /\
  In (bit_depth c) [16; 24; 32] /\
  1 <= channels c <= 8.

(** The powers of two between 32 and 2048. *)
Definition pow2_in_range : list Z := [32; 64; 128; 256; 512; 1024; 2048].

(* ===================================================================== *)
(** * Vocabulary of the specification: metrics *)
(* ===================================================================== *)

(** A (sample rate, buffer size) pair is valid when the configuration manager
    accepts both numbers. *)
Definition valid_pair (c : AudioConfig) : Prop :=
  ConfigManager.isValidSampleRate (sample_rate c) = true /\
  ConfigManager.isValidBufferSize (buffer_size c) = true.

(** [bufferSize / sampleRate * 1000] in [double] arithmetic. *)
Definition buffer_latency_ms (c : AudioConfig) : spec_float :=
  F64.mul (F64.div (F64.of_Z (buffer_size c)) (F64.of_Z (sample_rate c)))
          F64.c1000.

(** The same quantity as a rational number. *)
Definition exact_latency_ms (c : AudioConfig) : Q :=
  (inject_Z (buffer_size c * 1000) / inject_Z (sample_rate c))%Q.

(** The three latency fields of a snapshot agree with a configuration. *)
Definition latency_of (c : AudioConfig) (m : AudioMetrics) : Prop :=
  input_latency m = buffer_latency_ms c /\
  output_latency m = buffer_latency_ms c /\
  total_latency m = F64.add (buffer_latency_ms c) (buffer_latency_ms c).

(** The invariant of an initialised engine: the latency fields of the current
    snapshot follow the current configuration. *)
Definition latency_inv (s : AudioEngine.t) : Prop :=
  latency_of (AudioEngine.config_ s) (AudioEngine.current_metrics_ s).

(** A [float] between 0 and 1, both included: the comparisons of the format,
    and the same bounds on the rational value. *)
Definition in_unit_interval (x : spec_float) : Prop :=
  SFleb F32.zero x = true /\ SFleb x F32.one = true /\
  exists q : Q, IEEE.value x = Some q /\ (0 <= q)%Q /\ (q <= 1)%Q.

(** What a tick may assume of its surroundings: every draw of the
    distribution lies between its bounds [0.1f] and [1.0f], and every value
    returned by [std::sin] lies between [-1.0f] and [1.0f]; both are numbers
    of the format. *)
Definition sin_argument (env : AudioEngine.TickEnv) (i : nat) : spec_float :=
  F32.add (F32.div (F32.of_Z (AudioEngine.now_ms env i)) F32.c100)
          (F32.mul (F32.of_Z (Z.of_nat i)) F32.half).

Definition env_ok (env : AudioEngine.TickEnv) : Prop :=
  forall i : nat, (i < 32)%nat ->
    (F32.valid (AudioEngine.dis env i) = true /\
     SFleb F32.tenth (AudioEngine.dis env i) = true /\
     SFleb (AudioEngine.dis env i) F32.one = true) /\
    (F32.valid (AudioEngine.sinf env (sin_argument env i)) = true /\
     SFleb (SFopp F32.one) (AudioEngine.sinf env (sin_argument env i)) = true /\
     SFleb (AudioEngine.sinf env (sin_argument env i)) F32.one = true).

(** A [float] of magnitude at most [2^k]: a zero, or a finite number whose
    mantissa has at most 24 bits and whose mantissa and exponent are bounded
    accordingly. *)
Definition bounded_by (k : Z) (x : spec_float) : Prop :=
  match x with
  | S754_zero _ => True
  | S754_finite _ m e => Z.pos m < 2 ^ 24 /\ e <= k - 23 /\ Z.pos m <= 2 ^ (k - e)
  | _ => False
  end.

(** The sign bit of a zero or of a finite number. *)
Definition has_sign (sx : bool) (x : spec_float) : Prop :=
  match x with
  | S754_zero s | S754_finite s _ _ => s = sx
  | _ => False
  end.

Definition nonnegative (x : spec_float) : Prop :=
  match x with
  | S754_zero _ => True
  | S754_finite s _ _ => s = false
  | _ => False
  end.

Definition unit_float (x : spec_float) : Prop := nonnegative x /\ bounded_by 0 x.

(** The same test as a boolean, to be run on constants. *)
Definition unit_floatb (x : spec_float) : bool :=
  match x with
  | S754_zero _ => true
  | S754_finite s m e =>
      negb s && (Z.pos m <? 2 ^ 24) && (e <=? -23) && (Z.pos m <=? 2 ^ (- e))
  | _ => false
  end.

(** No bits have been shifted out of a rounding record. *)
Definition shr_exact (r : shr_record) : Prop := shr_r r = false /\ shr_s r = false.

(** The spectrum of a snapshot as the specification describes it: 32 bins,
    each between 0 and 1. *)
Definition spectrum_ok (m : AudioMetrics) : Prop :=
  length (spectrum_data m) = 32%nat /\
  Forall in_unit_interval (spectrum_data m).

(** A sequence of calls whose ticks all run in acceptable surroundings. *)
Definition ops_ok (ops : list AudioEngine.op) : Prop :=
  Forall (fun o => match o with
                   | AudioEngine.OpTick env => env_ok env
                   | _ => True
                   end) ops.

(** Surroundings in which every draw is [1.0f], the clock stands at 0 and
    the sine returned is 0. *)
Definition quiet_env : AudioEngine.TickEnv :=
  AudioEngine.mkTickEnv (fun _ => F32.one) (fun _ => 0) (fun _ => F32.zero).

(* ===================================================================== *)
(** * Vocabulary of the specification: requests and responses *)
(* ===================================================================== *)

(** A word of a request line: not empty, without white space and without NUL. *)
Fixpoint no_space (s : string) : bool :=
  match s with
  | EmptyString => true
  | String c s' =>
      negb (Str.isspace c) && negb (Ascii.eqb c "000"%char) && no_space s'
  end.

Definition is_word (s : string) : bool :=
  negb (String.eqb s EmptyString) && no_space s.

(** A request line made of a method, a target and a version. *)
Definition request_line (m target version : string) : string :=
  m +:+ " " +:+ target +:+ " " +:+ version +:+ Str.CRLF.

(** A string without question mark. *)
Definition no_query (s : string) : bool :=
  bool_decide (Str.find_char "?"%char s = None).

(** A response with the CORS block: the status line and headers [head], the
    three CORS headers, then the separator and body of the original response. *)
Definition with_cors (head body : string) : string :=
  head +:+ Str.CRLF +:+ WebServer.cors_headers +:+ Str.CRLF +:+ Str.CRLF +:+ body.

Definition ok_head (content_type : string) : string :=
  "HTTP/1.1 200 OK" +:+ Str.CRLF +:+ "Content-Type: " +:+ content_type.

Definition not_found_head : string :=
  "HTTP/1.1 404 Not Found" +:+ Str.CRLF +:+ "Content-Type: text/html".

Definition not_found_body : string := "<h1>404 Not Found</h1>".

(** The MIME types of [getContentType]. *)
Definition content_types : list string :=
  [ "text/plain"; "text/html"; "text/css"; "application/javascript";
    "application/json"; "image/png"; "image/jpeg"; "image/gif";
    "image/svg+xml"; "image/x-icon"; "audio/wav"; "audio/mpeg" ].

(** The JSON object with the single member [error]. *)
Definition error_json (msg : string) : string :=
  "{" +:+ Str.quoted "error" +:+ ": " +:+ Str.quoted msg +:+ "}".

(** The file a GET request resolves to under the static root. *)
Definition static_target (p : string) : string :=
  if String.eqb p "/" then "/index.html" else p.

(** Servers as the class builds them: the constructor installs the four API
    routes and [addRoute] appends. *)
Definition has_api_routes (s : WebServer.t) : Prop :=
  exists extra, WebServer.routes_ s = WebServer.setupRoutes ++ extra.

(** The value bound to [k] by its last occurrence in a list of matches. *)
Fixpoint last_value (k : string) (l : list (string * string)) : option string :=
  match l with
  | [] => None
  | (k', v) :: l' =>
      match last_value k l' with
      | Some v' => Some v'
      | None => if String.eqb k' k then Some v else None
      end
  end.

(** The query string written from a list of name/value pairs. *)
Fixpoint query_of (l : list (string * string)) : string :=
  match l with
  | [] => EmptyString
  | [(k, v)] => k +:+ "=" +:+ v
  | (k, v) :: l' => k +:+ "=" +:+ v +:+ "&" +:+ query_of l'
  end.

(** Names and values that a query string can carry as they are. *)
Fixpoint no_sep (s : string) : bool :=
  match s with
  | EmptyString => true
  | String c s' => negb (ParamRegex.is_sep c) && no_sep s'
  end.

Definition plain_pair (kv : string * string) : bool :=
  negb (String.eqb kv.1 EmptyString) && no_sep kv.1 && no_sep kv.2.

(* ===================================================================== *)
(** * Vocabulary for the further properties *)
(* ===================================================================== *)

(** The life cycle of an engine: the thread object exists exactly while the
    engine is initialised; an engine that is not initialised does not play
    and stands at position 0; an initialised engine has its default audio of
    264600 samples, a running thread, and a position inside the buffer. *)
Definition lifecycle_inv (s : AudioEngine.t) : Prop :=
  AudioEngine.audio_thread_ s = AudioEngine.initialized_ s /\
  (AudioEngine.initialized_ s = false ->
     AudioEngine.playing_ s = false /\ AudioEngine.playback_position_ s = 0) /\
  (AudioEngine.initialized_ s = true ->
     AudioEngine.should_stop_ s = false /\
     AudioEngine.audio_buffer_ s = 264600 /\
     0 <= AudioEngine.playback_position_ s < 264600).

(** Integers that an [int] can hold. *)
Definition is_int (z : Z) : Prop := Text.INT_MIN <= z <= Text.INT_MAX.

(** Strings without line feed. *)
Fixpoint no_lf (s : string) : bool :=
  match s with
  | EmptyString => true
  | String c s' => negb (Ascii.eqb c Str.LF) && no_lf s'
  end.

(** Sequences of manager calls in which the active device is never set
    below -1. *)
Definition active_ids_ok (ops : list ConfigManager.op) : Prop :=
  Forall (fun o => match o with
                   | ConfigManager.OpSetActiveDevice d => -1 <= d
                   | _ => True
                   end) ops.

(** Every stored device profile passes the validation. *)
Definition profiles_valid (cm : ConfigManager.t) : Prop :=
  forall d c, ConfigManager.device_profiles_ cm !! d = Some c ->
              ConfigManager.validateAudioConfig c = true.

(** Sequences of device manager calls without direct status updates. *)
Definition no_status_updates (ops : list Devices.op) : Prop :=
  Forall (fun o => match o with
                   | Devices.OpUpdateDeviceStatus _ _ => False
                   | _ => True
                   end) ops.

(** The device table is the default one, up to the status of the devices. *)
Definition default_table (dm : Devices.t) : Prop :=
  map (Devices.with_status Inactive) (Devices.devices_ dm)
  = map (Devices.with_status Inactive) Devices.default_devices.

(** The extensions known to [getContentType] with their MIME types. *)
Definition mime_table : list (string * string) :=
  [ (".html", "text/html"); (".css", "text/css");
    (".js", "application/javascript"); (".json", "application/json");
    (".png", "image/png"); (".jpg", "image/jpeg"); (".jpeg", "image/jpeg");
    (".gif", "image/gif"); (".svg", "image/svg+xml"); (".ico", "image/x-icon");
    (".wav", "audio/wav"); (".mp3", "audio/mpeg") ].

(** The flags that the loop over [argv] reacts to. *)
Definition is_flag (arg : string) : bool :=
  String.eqb arg "--port" || String.eqb arg "--static-dir" ||
  String.eqb arg "--help" || String.eqb arg "-h".

(** A string of white space only. *)
Fixpoint all_space (s : string) : bool :=
  match s with
  | EmptyString => true
  | String c s' => Str.isspace c && all_space s'
  end.

(** Strings of decimal digits. *)
Fixpoint all_digits (s : string) : bool :=
  match s with
  | EmptyString => true
  | String c s' => Text.is_digit c && all_digits s'
  end.

(** The fields of a system configuration that are [int] in the program hold
    values of that type. *)
Definition int_fields (sc : SystemConfig) : Prop :=
  is_int (sample_rate (audio sc)) /\ is_int (buffer_size (audio sc)) /\
  is_int (bit_depth (audio sc)) /\ is_int (channels (audio sc)) /\
  is_int (active_device_id sc).

(** The manager as [loadFromFile] leaves it, whether it returned or threw. *)
Definition manager_after (r : ConfigIO.load_result) : ConfigManager.t :=
  match r with
  | ConfigIO.Returned _ cm => cm
  | ConfigIO.Thrown cm => cm
  end.

(** What a load read back from a file written for [sc] into a manager
    holding [sc0]: the saved fields, with the file name trimmed, and the
    two fields that are not saved as they were. *)
Definition reloaded (sc sc0 : SystemConfig) : SystemConfig :=
  {| audio := audio sc;
     active_device_id := active_device_id sc;
     current_audio_file := Text.trim (current_audio_file sc);
     auto_save := auto_save sc0;
     config_file_path := config_file_path sc0 |}.

(** The status map agrees with the device table on every device of the
    table. *)
Definition status_agrees (dm : Devices.t) : Prop :=
  forall x d, Devices.getDevice x dm = Some d ->
              Devices.device_status_ dm !! x = Some (status d).

(** No device has the id -1, and a device of the table has status Active
    exactly when it is the active one. *)
Definition single_active (dm : Devices.t) : Prop :=
  Devices.getDevice (-1) dm = None /\
  forall x d, Devices.getDevice x dm = Some d ->
              (status d = Active <-> Devices.active_device_id_ dm = x).

(* ===================================================================== *)
(** * Properties of the configuration manager *)
(* ===================================================================== *)

Section ConfigManagerFacts.
Import ConfigManager.

Lemma isValidSampleRate_spec r :
  isValidSampleRate r = true <-> In r [44100; 48000; 88200; 96000; 192000].
Proof.
  unfold isValidSampleRate, valid_rates. rewrite existsb_exists. split.
  - intros (x & Hx & He). apply Z.eqb_eq in He. now subst.
  - intros H. exists r. split; [exact H | apply Z.eqb_refl].
Qed.

Lemma isValidBitDepth_spec d :
  isValidBitDepth d = true <-> In d [16; 24; 32].
Proof.
  unfold isValidBitDepth. rewrite !orb_true_iff, !Z.eqb_eq. simpl. intuition.
Qed.

(** Between 32 and 2048 the test [b & (b - 1) == 0] holds at the seven powers
    of two only; checked by running the test on the whole range. *)
Lemma land_pred_range :
  forallb (fun n => let b := 32 + Z.of_nat n in
                    Bool.eqb (Z.land b (b - 1) =? 0)
                             (existsb (Z.eqb b) pow2_in_range))
          (seq 0 2017) = true.
Proof. vm_compute. reflexivity. Qed.

Lemma isValidBufferSize_list b :
  isValidBufferSize b = true <-> In b pow2_in_range.
Proof.
  unfold isValidBufferSize. split.
  - intros H. apply andb_true_iff in H as [H H3].
    apply andb_true_iff in H as [H1 H2].
    apply Z.leb_le in H1, H2.
    pose proof land_pred_range as A. rewrite forallb_forall in A.
    specialize (A (Z.to_nat (b - 32))).
    assert (Hin : In (Z.to_nat (b - 32)) (seq 0 2017)).
    { apply in_seq. lia. }
    specialize (A Hin). cbv zeta in A.
    replace (32 + Z.of_nat (Z.to_nat (b - 32))) with b in A by lia.
    rewrite H3 in A. apply Bool.eqb_prop in A. symmetry in A.
    apply existsb_exists in A as (x & Hx & He).
    apply Z.eqb_eq in He. now subst.
  - intros H. simpl in H.
    repeat (destruct H as [<- | H]; [reflexivity |]). destruct H.
Qed.

Lemma power_of_two_range b :
  (power_of_two b /\ 32 <= b <= 2048) <-> In b pow2_in_range.
Proof.
  split.
  - intros [(k & Hk & ->) [Hlo Hhi]].
    assert (5 <= k <= 11) as Hr.
    { split.
      - apply Z.nlt_ge. intros Hlt.
        assert (2 ^ k <= 2 ^ 4) by (apply Z.pow_le_mono_r; lia).
        change (2 ^ 4) with 16 in *. lia.
      - apply Z.nlt_ge. intros Hlt.
        assert (2 ^ 12 <= 2 ^ k) by (apply Z.pow_le_mono_r; lia).
        change (2 ^ 12) with 4096 in *. lia. }
    assert (k = 5 \/ k = 6 \/ k = 7 \/ k = 8 \/ k = 9 \/ k = 10 \/ k = 11)
      as Hc by lia.
    simpl. intuition (subst; auto).
  - intros H. simpl in H.
    assert (forall k, 0 <= k -> b = 2 ^ k -> power_of_two b) as P
      by (intros k ? ?; exists k; auto).
    intuition (subst; first [ now apply (P 5) | now apply (P 6) | now apply (P 7)
                             | now apply (P 8) | now apply (P 9) | now apply (P 10)
                             | now apply (P 11) | lia ]).
Qed.

Lemma validateAudioConfig_spec c :
  validateAudioConfig c = true <-> valid_audio_spec c.
Proof.
  unfold validateAudioConfig, valid_audio_spec.
  rewrite !andb_true_iff, isValidSampleRate_spec, isValidBufferSize_list,
    isValidBitDepth_spec, power_of_two_range, Z.ltb_lt, Z.leb_le.
  intuition lia.
Qed.

(** C10. [setAudioConfig] validates before it stores: a configuration that
    breaks one of the four conditions (sample rate in the fixed list, buffer
    size a power of two in [32, 2048], bit depth in {16, 24, 32}, channels in
    [1, 8]) is rejected with [false] and the manager is left as it was; a
    configuration that meets all four is accepted with [true] and becomes the
    stored audio configuration, the rest of the system configuration being
    kept. *)
Theorem setAudioConfig_atomic (c : AudioConfig) (cm : ConfigManager.t) :
  (~ valid_audio_spec c /\ setAudioConfig c cm = (false, cm))
  \/
  (valid_audio_spec c /\
   fst (setAudioConfig c cm) = true /\
   getAudioConfig (snd (setAudioConfig c cm)) = c /\
   getSystemConfig (snd (setAudioConfig c cm))
     = with_audio c (getSystemConfig cm) /\
   device_profiles_ (snd (setAudioConfig c cm)) = device_profiles_ cm).
Proof.
  unfold setAudioConfig.
  destruct (validateAudioConfig c) eqn:V; simpl.
  - right. split; [now apply validateAudioConfig_spec |].
    unfold notifyConfigChanged, set_system_config, getAudioConfig, getSystemConfig.
    simpl. destruct (config_change_callback_ cm); simpl; auto.
  - left. split; [| reflexivity].
    intros H. apply validateAudioConfig_spec in H. congruence.
Qed.

End ConfigManagerFacts.
(* ===================================================================== *)
(** * Properties of the audio engine: latency *)
(* ===================================================================== *)

Section LatencyFacts.
Import AudioEngine.

Lemma valid_pair_cases (c : AudioConfig) :
  valid_pair c ->
  In (sample_rate c) [44100; 48000; 88200; 96000; 192000] /\
  In (buffer_size c) pow2_in_range.
Proof.
  intros [H1 H2]. split.
  - now apply isValidSampleRate_spec.
  - now apply isValidBufferSize_list.
Qed.

(** Doubling is exact on each of the 35 latencies a valid pair can give:
    the sum [x + x] is the product [2.0 * x], it is finite, and its value is
    twice the value of [x]. Checked by evaluating the operations. *)
Lemma doubling_exact (sr bs : Z) :
  In sr [44100; 48000; 88200; 96000; 192000] -> In bs pow2_in_range ->
  let x := buffer_latency_ms (mkAudioConfig sr bs 0 0) in
  F64.add x x = F64.mul F64.two x /\
  exists q q2, IEEE.value x = Some q /\ IEEE.value (F64.add x x) = Some q2 /\
               (q2 == 2 * q)%Q.
Proof.
  intros Hsr Hbs. simpl in Hsr, Hbs.
  repeat (destruct Hsr as [<- | Hsr]);
    try (destruct Hsr);
    repeat (destruct Hbs as [<- | Hbs]);
    try (destruct Hbs);
    (split; [vm_compute; reflexivity
            | eexists; eexists; split; [| split]; vm_compute; reflexivity]).
Qed.

Lemma buffer_latency_ms_ext (c : AudioConfig) :
  buffer_latency_ms c = buffer_latency_ms (mkAudioConfig (sample_rate c) (buffer_size c) 0 0).
Proof. reflexivity. Qed.

Lemma exact_latency_ms_ext (c : AudioConfig) :
  exact_latency_ms c = exact_latency_ms (mkAudioConfig (sample_rate c) (buffer_size c) 0 0).
Proof. reflexivity. Qed.

Lemma calculateLatency_latency_of (s : AudioEngine.t) :
  latency_of (config_ s) (getMetrics (calculateLatency s)).
Proof. repeat split. Qed.

(** The invariant is kept by every call and every tick. *)
Lemma latency_inv_step (o : op) (s : AudioEngine.t) :
  latency_inv s -> latency_inv (step o s).
Proof.
  unfold latency_inv, latency_of. intros H.
  destruct o; simpl.
  - repeat split.
  - unfold shutdown. destruct (initialized_ s); simpl; exact H.
  - unfold setConfig. destruct (initialized_ s); simpl; [| exact H].
    destruct (sample_rate c =? sample_rate (config_ s)) eqn:E1; simpl;
      [| repeat split].
    destruct (buffer_size c =? buffer_size (config_ s)) eqn:E2; simpl;
      [| repeat split].
    apply Z.eqb_eq in E1, E2.
    assert (E : buffer_latency_ms c = buffer_latency_ms (config_ s)).
    { unfold buffer_latency_ms. now rewrite E1, E2. }
    destruct (bit_depth c =? bit_depth (config_ s)); simpl.
    + rewrite E. exact H.
    + repeat split.
  - unfold play. destruct (initialized_ s); simpl; exact H.
  - exact H.
  - exact H.
  - exact H.
  - exact H.
  - unfold tick, generateSpectrumData, processAudioBuffer.
    destruct (playing_ s) eqn:P; simpl.
    + destruct (audio_buffer_ s =? 0); simpl; rewrite ?P; simpl;
        destruct (visualization_callback_ s); simpl; exact H.
    + rewrite P. simpl. exact H.
Qed.

Lemma latency_inv_run (ops : list op) (s : AudioEngine.t) :
  latency_inv s -> latency_inv (run ops s).
Proof.
  revert s. induction ops as [| o ops IH]; intros s H; simpl; [exact H |].
  apply IH, latency_inv_step, H.
Qed.

Lemma latency_inv_initialize (c : AudioConfig) (s : AudioEngine.t) :
  latency_inv (snd (initialize c s)).
Proof. repeat split. Qed.

(** C1. Once [initialize] has been called, and after any sequence of further
    calls and ticks, the snapshot returned by [getMetrics] follows the
    configuration: for every valid (sample rate, buffer size) pair held in
    the configuration, the input latency is [bufferSize / sampleRate * 1000]
    in [double] arithmetic, the output latency is the same value, and the
    total is exactly twice that value. *)
Theorem latency_follows_config (c0 : AudioConfig) (s0 : AudioEngine.t)
    (ops : list op) :
  let s := run ops (snd (initialize c0 s0)) in
  valid_pair (getConfig s) ->
  input_latency (getMetrics s) = buffer_latency_ms (getConfig s) /\
  output_latency (getMetrics s) = buffer_latency_ms (getConfig s) /\
  total_latency (getMetrics s) = F64.mul F64.two (buffer_latency_ms (getConfig s)) /\
  exists q q2 : Q,
    IEEE.value (input_latency (getMetrics s)) = Some q /\
    IEEE.value (output_latency (getMetrics s)) = Some q /\
    IEEE.value (total_latency (getMetrics s)) = Some q2 /\
    (q2 == 2 * q)%Q.
Proof.
  intros s Hv.
  pose proof (latency_inv_run ops _ (latency_inv_initialize c0 s0)) as (Hi & Ho & Ht).
  fold s in Hi, Ho, Ht. unfold getMetrics, getConfig in *.
  destruct (valid_pair_cases _ Hv) as [Hsr Hbs].
  destruct (doubling_exact _ _ Hsr Hbs) as (Hd & q & q2 & Hq & Hq2 & E).
  cbv zeta in Hd, Hq, Hq2. rewrite <- buffer_latency_ms_ext in Hd, Hq, Hq2.
  rewrite Hi, Ho, Ht, <- Hd. repeat split. exists q, q2. auto.
Qed.

Lemma latency_follows_config_witness :
  input_latency (getMetrics (run [OpPlay; OpStop] (snd (initialize default_config new))))
  = buffer_latency_ms default_config.
Proof.
  exact (proj1 (latency_follows_config default_config new [OpPlay; OpStop]
                  (conj eq_refl eq_refl))).
Defined.

(** C1 as stated fails before the first [initialize], when the snapshot still
    holds the member initialisers: the engine as constructed has the valid pair (48000, 256) in
    its configuration and reports a latency of 0.0. *)
Lemma latency_before_initialize :
  valid_pair (getConfig new) /\
  input_latency (getMetrics new) = F64.zero /\
  input_latency (getMetrics new) <> buffer_latency_ms (getConfig new) /\
  ~ (valid_pair (getConfig new) ->
     input_latency (getMetrics new) = buffer_latency_ms (getConfig new) /\
     output_latency (getMetrics new) = buffer_latency_ms (getConfig new) /\
     total_latency (getMetrics new)
       = F64.mul F64.two (buffer_latency_ms (getConfig new))).
Proof.
  assert (V : valid_pair (getConfig new)) by (split; reflexivity).
  assert (N : input_latency (getMetrics new) <> buffer_latency_ms (getConfig new)).
  { vm_compute. discriminate. }
  split; [exact V |]. split; [reflexivity |]. split; [exact N |].
  intros H. destruct (H V) as [E _]. exact (N E).
Qed.

End LatencyFacts.

(* ===================================================================== *)
(** * Properties of the audio engine: the spectrum when playback is off *)
(* ===================================================================== *)

Section IdleSpectrumFacts.
Import AudioEngine.

Lemma length_resize n v : length (resize n v) = n.
Proof.
  unfold resize. rewrite length_app, length_take, length_replicate. lia.
Qed.

Lemma processAudioBuffer_playing (s : AudioEngine.t) :
  playing_ (processAudioBuffer s) = playing_ s.
Proof.
  unfold processAudioBuffer.
  destruct (negb (playing_ s) || (audio_buffer_ s =? 0)); reflexivity.
Qed.

Lemma tick_idle (env : TickEnv) (s : AudioEngine.t) :
  playing_ s = false ->
  spectrum_data (getMetrics (tick env s)) = replicate 32 F32.tenth /\
  playing_ (tick env s) = false.
Proof.
  intros P. unfold tick, generateSpectrumData.
  rewrite processAudioBuffer_playing, P. simpl.
  unfold fill. rewrite length_resize. split; [reflexivity |].
  now rewrite processAudioBuffer_playing.
Qed.

(** C3. When playback is not active, one tick of the metrics thread leaves
    every one of the 32 spectrum bins at [0.1f], and further ticks keep them
    there; this is in particular the state after [stop] or [pause]. *)
Theorem idle_spectrum_is_flat (s : AudioEngine.t) (env : TickEnv)
    (more : list TickEnv) :
  isPlaying s = false ->
  let s' := run (map OpTick (env :: more)) s in
  spectrum_data (getMetrics s') = replicate 32 F32.tenth /\
  length (spectrum_data (getMetrics s')) = 32%nat /\
  (forall i x, spectrum_data (getMetrics s') !! i = Some x ->
               x = S754_finite false 13421773 (-27)) /\
  isPlaying s' = false.
Proof.
  intros P s'. subst s'.
  change (run (map OpTick (env :: more)) s) with (run (map OpTick more) (tick env s)).
  destruct (tick_idle env s P) as [E1 P1].
  assert (G : forall l t, playing_ t = false ->
              spectrum_data (getMetrics t) = replicate 32 F32.tenth ->
              spectrum_data (getMetrics (run (map OpTick l) t)) = replicate 32 F32.tenth
              /\ playing_ (run (map OpTick l) t) = false).
  { induction l as [| e l IH]; intros t Pt Et; simpl; [auto |].
    destruct (tick_idle e t Pt) as [E2 P2]. apply IH; assumption. }
  destruct (G more (tick env s) P1 E1) as [E P'].
  rewrite E.
  split; [reflexivity |]. split; [reflexivity |]. split; [| exact P'].
  intros i x Hx. apply list_elem_of_lookup_2 in Hx.
  apply elem_of_replicate in Hx as [-> _]. reflexivity.
Qed.

Lemma idle_spectrum_is_flat_witness :
  spectrum_data (getMetrics (run (map OpTick [mkTickEnv (fun _ => F32.one) (fun _ => 0) (fun x => x)])
                               (stop new)))
  = replicate 32 F32.tenth.
Proof.
  exact (proj1 (idle_spectrum_is_flat (stop new)
                  (mkTickEnv (fun _ => F32.one) (fun _ => 0) (fun x => x)) []
                  eq_refl)).
Defined.

End IdleSpectrumFacts.
(* ===================================================================== *)
(** * Rounding in binary32: products and sums that stay within bounds *)
(* ===================================================================== *)

Section RoundingFacts.

(** ** Digits and shifts *)

Lemma digits2_pos_bounds (m : positive) :
  2 ^ (Z.pos (digits2_pos m) - 1) <= Z.pos m < 2 ^ Z.pos (digits2_pos m).
Proof.
  induction m as [m IH | m IH |]; simpl digits2_pos.
  - rewrite Pos2Z.inj_succ.
    replace (Z.succ (Z.pos (digits2_pos m)) - 1) with (Z.succ (Z.pos (digits2_pos m) - 1)) by lia.
    rewrite !Z.pow_succ_r by lia. lia.
  - rewrite Pos2Z.inj_succ.
    replace (Z.succ (Z.pos (digits2_pos m)) - 1) with (Z.succ (Z.pos (digits2_pos m) - 1)) by lia.
    rewrite !Z.pow_succ_r by lia. lia.
  - simpl. lia.
Qed.

Lemma iter_pos_nat {A} (f : A -> A) (p : positive) (x : A) :
  SpecFloat.iter_pos f p x = Nat.iter (Pos.to_nat p) f x.
Proof.
  revert x. induction p as [p IH | p IH |]; intros x; simpl SpecFloat.iter_pos.
  - rewrite !IH, Pos2Nat.inj_xI.
    replace (S (2 * Pos.to_nat p)) with (Pos.to_nat p + (Pos.to_nat p + 1))%nat by lia.
    rewrite !Nat.iter_add. simpl. reflexivity.
  - rewrite !IH, Pos2Nat.inj_xO.
    replace (2 * Pos.to_nat p)%nat with (Pos.to_nat p + Pos.to_nat p)%nat by lia.
    rewrite Nat.iter_add. reflexivity.
  - reflexivity.
Qed.

Lemma shr_1_spec (r : shr_record) :
  0 <= shr_m r ->
  shr_m (shr_1 r) = shr_m r / 2 /\
  (shr_exact r -> shr_m r mod 2 = 0 -> shr_exact (shr_1 r)).
Proof.
  destruct r as [m b s]. unfold shr_exact. cbn [shr_m shr_r shr_s]. intros Hm.
  destruct m as [| [p | p |] |]; cbn [shr_1 shr_m shr_r shr_s]; try lia.
  - split; [reflexivity |]. intros [-> ->] _. split; reflexivity.
  - split.
    + apply Z.div_unique with (r := 1); lia.
    + intros _ H. exfalso.
      assert (Z.pos p~1 mod 2 = 1).
      { symmetry. apply Z.mod_unique with (q := Z.pos p); lia. }
      lia.
  - split.
    + apply Z.div_unique with (r := 0); lia.
    + intros [-> ->] _. split; reflexivity.
  - split; [reflexivity |]. intros _ H. discriminate.
Qed.

Lemma shr_iter_spec (n : nat) (r : shr_record) :
  0 <= shr_m r ->
  shr_m (Nat.iter n shr_1 r) = shr_m r / 2 ^ Z.of_nat n /\
  (shr_exact r -> shr_m r mod 2 ^ Z.of_nat n = 0 -> shr_exact (Nat.iter n shr_1 r)).
Proof.
  intros Hm. induction n as [| n [IH1 IH2]].
  - simpl. rewrite Z.div_1_r. auto.
  - simpl Nat.iter.
    assert (Hpos : 0 <= shr_m (Nat.iter n shr_1 r)).
    { rewrite IH1. apply Z.div_pos; lia. }
    destruct (shr_1_spec _ Hpos) as [S1 S2].
    rewrite Nat2Z.inj_succ, Z.pow_succ_r by lia.
    split.
    + rewrite S1, IH1, Z.div_div by lia. f_equal. lia.
    + intros He Hmod.
      assert (P : 0 < 2 ^ Z.of_nat n) by (apply Z.pow_pos_nonneg; lia).
      apply Z.mod_divide in Hmod; [| lia]. destruct Hmod as [q Hq].
      apply S2.
      * apply IH2; [exact He |]. rewrite Hq.
        replace (q * (2 * 2 ^ Z.of_nat n)) with ((q * 2) * 2 ^ Z.of_nat n) by lia.
        apply Z.mod_mul. lia.
      * rewrite IH1, Hq.
        replace (q * (2 * 2 ^ Z.of_nat n)) with ((q * 2) * 2 ^ Z.of_nat n) by lia.
        rewrite Z.div_mul by lia. apply Z.mod_mul. lia.
Qed.

(** [shr] by [n] places: the mantissa is divided by [2^n], and nothing is
    recorded as lost when the division is exact. *)
Lemma shr_spec (m e n : Z) :
  0 <= m ->
  let '(r, e') := shr (Build_shr_record m false false) e n in
  (n <= 0 -> shr_m r = m /\ shr_exact r /\ e' = e) /\
  (0 < n -> shr_m r = m / 2 ^ n /\ (m mod 2 ^ n = 0 -> shr_exact r) /\ e' = e + n).
Proof.
  intros Hm. unfold shr. destruct n as [| p | p].
  - split; [intros _; repeat split | lia].
  - split; [lia |]. intros _.
    rewrite iter_pos_nat.
    destruct (shr_iter_spec (Pos.to_nat p) (Build_shr_record m false false) Hm) as [H1 H2].
    rewrite positive_nat_Z in H1, H2. simpl in H1.
    split; [exact H1 |]. split; [| reflexivity].
    intros H. apply H2; [split; reflexivity | exact H].
  - split; [intros _; repeat split | lia].
Qed.

Lemma round_nearest_even_bounds (r : shr_record) :
  shr_m r <= round_nearest_even (shr_m r) (loc_of_shr_record r) <= shr_m r + 1 /\
  (shr_exact r -> round_nearest_even (shr_m r) (loc_of_shr_record r) = shr_m r).
Proof.
  destruct r as [m b s]. simpl.
  destruct b, s; simpl; try (destruct (Z.even m)); split; try lia;
    try reflexivity; intros [? ?]; discriminate.
Qed.


(** ** Powers of two *)

Lemma pow2_pos (n : Z) : 0 <= n -> 0 < 2 ^ n.
Proof. intros. apply Z.pow_pos_nonneg; lia. Qed.

Lemma pow2_le_inv (a b : Z) : 0 <= b -> 2 ^ a <= 2 ^ b -> a <= b.
Proof.
  intros Hb H. destruct (Z_le_gt_dec a b) as [| G]; [assumption | exfalso].
  assert (2 ^ b < 2 ^ a) by (apply Z.pow_lt_mono_r; lia). lia.
Qed.

Lemma pow2_split (j n : Z) : 0 <= j -> 0 <= n -> 2 ^ (j + n) = 2 ^ n * 2 ^ j.
Proof. intros. rewrite Z.pow_add_r by lia. lia. Qed.

(** Shifting out [n] bits of a number that is at most [2^(j+n)] and rounding
    to nearest leaves at most [2^j]. *)
Lemma shift_round_le (m n j : Z) (r : shr_record) :
  0 <= m -> 0 < n -> 0 <= j -> m <= 2 ^ (j + n) ->
  shr_m r = m / 2 ^ n -> (m mod 2 ^ n = 0 -> shr_exact r) ->
  0 <= round_nearest_even (shr_m r) (loc_of_shr_record r) <= 2 ^ j.
Proof.
  intros Hm Hn Hj Hle Hr Hex.
  destruct (round_nearest_even_bounds r) as [[B1 B2] B3].
  assert (Pn : 0 < 2 ^ n) by (apply pow2_pos; lia).
  assert (D0 : 0 <= m / 2 ^ n) by (apply Z.div_pos; lia).
  assert (D1 : m / 2 ^ n <= 2 ^ j).
  { apply Z.div_le_upper_bound; [lia |]. rewrite <- pow2_split by lia. exact Hle. }
  split; [lia |].
  destruct (Z.eq_dec (m / 2 ^ n) (2 ^ j)) as [E | NE].
  - rewrite B3; [lia |]. apply Hex.
    pose proof (Z.div_mod m (2 ^ n) ltac:(lia)) as DM.
    pose proof (Z.mod_pos_bound m (2 ^ n) Pn) as MB.
    rewrite E, <- pow2_split in DM by lia. lia.
  - lia.
Qed.

(** ** The rounding step of the operations *)

(** A positive number [P * 2^E] of magnitude at most [2^k] is rounded by
    [binary_round_aux] to a zero or to a finite number of magnitude at most
    [2^k] with a mantissa of at most 24 bits; the sign is the one given. *)
Lemma binary_round_aux_bound (sx : bool) (P E k : Z) :
  0 < P -> -126 <= k <= 127 -> E <= k - 23 -> P <= 2 ^ (k - E) ->
  bounded_by k (binary_round_aux 24 128 sx P E loc_Exact) /\
  has_sign sx (binary_round_aux 24 128 sx P E loc_Exact).
Proof.
  intros HP Hk HE Hle.
  destruct P as [| p |]; try lia.
  pose proof (digits2_pos_bounds p) as [D1 D2].
  set (d := Z.pos (digits2_pos p)) in *.
  assert (Hd : d + E <= k + 1).
  { assert (d - 1 <= k - E); [| lia].
    apply pow2_le_inv; lia. }
  unfold binary_round_aux, shr_fexp.
  cbn [Zdigits2 shr_record_of_loc]. fold d.
  unfold fexp, emin.
  set (e1 := Z.max (d + E - 24) (3 - 128 - 24)).
  pose proof (shr_spec (Z.pos p) E (e1 - E) ltac:(lia)) as S1.
  destruct (shr (Build_shr_record (Z.pos p) false false) E (e1 - E)) as [r1 e'].
  destruct S1 as [S1a S1b].
  set (m1 := round_nearest_even (shr_m r1) (loc_of_shr_record r1)).
  (* after the first shift and the rounding *)
  assert (A : 0 <= m1 <= 2 ^ (k - e') /\ -149 <= e' <= k - 23).
  { destruct (Z_le_gt_dec (e1 - E) 0) as [L | G].
    - destruct (S1a L) as (Hm & Hex & ->).
      destruct (round_nearest_even_bounds r1) as [_ B3].
      unfold m1. rewrite (B3 Hex), Hm. lia.
    - destruct (S1b ltac:(lia)) as (Hm & Hex & ->).
      replace (E + (e1 - E)) with e1 by lia.
      split; [| lia].
      apply (shift_round_le (Z.pos p) (e1 - E) (k - e1) r1); try lia.
      + replace (k - e1 + (e1 - E)) with (k - E) by lia. exact Hle.
      + exact Hex. }
  destruct A as [[M0 M1] [E0 E1]].
  clearbody m1. clear S1a S1b r1.
  (* the second shift *)
  destruct m1 as [| q |]; try lia.
  - cbn [Zdigits2]. 
    set (e2 := Z.max (0 + e' - 24) (3 - 128 - 24)).
    assert (e2 - e' <= 0) by lia.
    pose proof (shr_spec 0 e' (e2 - e') ltac:(lia)) as S2.
    destruct (shr (Build_shr_record 0 false false) e' (e2 - e')) as [r2 e''].
    destruct S2 as [S2a _]. destruct (S2a ltac:(lia)) as (Hm & _ & _).
    rewrite Hm. simpl. auto.
  - cbn [Zdigits2].
    pose proof (digits2_pos_bounds q) as [Q1 Q2].
    set (dq := Z.pos (digits2_pos q)) in *.
    set (e2 := Z.max (dq + e' - 24) (3 - 128 - 24)).
    assert (Hdq : dq + e' <= k + 1).
    { assert (dq - 1 <= k - e'); [| lia]. apply pow2_le_inv; lia. }
    pose proof (shr_spec (Z.pos q) e' (e2 - e') ltac:(lia)) as S2.
    destruct (shr (Build_shr_record (Z.pos q) false false) e' (e2 - e')) as [r2 e''].
    destruct S2 as [S2a S2b].
    destruct (Z_le_gt_dec (e2 - e') 0) as [L | G].
    + destruct (S2a L) as (Hm & _ & ->). rewrite Hm.
      assert ((e' <=? 128 - 24) = true) as -> by (apply Z.leb_le; lia).
      simpl. split; [| reflexivity].
      split; [| split; [lia | exact M1]].
      assert (dq <= 24) by lia.
      assert (2 ^ dq <= 2 ^ 24) by (apply Z.pow_le_mono_r; lia). lia.
    + destruct (S2b ltac:(lia)) as (Hm & _ & ->). rewrite Hm.
      assert (e2 = dq + e' - 24) by lia.
      replace (e' + (e2 - e')) with e2 by lia.
      assert (Pn : 0 < 2 ^ (e2 - e')) by (apply pow2_pos; lia).
      assert (U1 : Z.pos q / 2 ^ (e2 - e') < 2 ^ 24).
      { apply Z.div_lt_upper_bound; [lia |].
        rewrite <- pow2_split by lia.
        replace (24 + (e2 - e')) with dq by lia. lia. }
      assert (U2 : Z.pos q / 2 ^ (e2 - e') <= 2 ^ (k - e2)).
      { apply Z.div_le_upper_bound; [lia |].
        rewrite <- pow2_split by lia.
        replace (k - e2 + (e2 - e')) with (k - e') by lia. lia. }
      destruct (Z.pos q / 2 ^ (e2 - e')) as [| q' |] eqn:Eq.
      * simpl. auto.
      * assert ((e2 <=? 128 - 24) = true) as -> by (apply Z.leb_le; lia).
        simpl. split; [| reflexivity]. repeat split; lia.
      * pose proof (Z.div_pos (Z.pos q) (2 ^ (e2 - e')) ltac:(lia) Pn). lia.
Qed.


(** ** Comparisons and values *)

Lemma valid_mantissa (s : bool) (m : positive) (e : Z) :
  F32.valid (S754_finite s m e) = true -> Z.pos m < 2 ^ 24 /\ -149 <= e.
Proof.
  unfold F32.valid, valid_binary, bounded, canonical_mantissa, fexp, emin,
    F32.prec, F32.emax.
  intros H. apply andb_true_iff in H as [H _]. apply Z.eqb_eq in H.
  pose proof (digits2_pos_bounds m) as [_ D].
  assert (Z.pos (digits2_pos m) <= 24) by lia.
  assert (2 ^ Z.pos (digits2_pos m) <= 2 ^ 24) by (apply Z.pow_le_mono_r; lia).
  lia.
Qed.

Lemma one_is : F32.one = S754_finite false 8388608 (-23).
Proof. reflexivity. Qed.

Lemma half_is : F32.half = S754_finite false 8388608 (-24).
Proof. reflexivity. Qed.

Lemma tenth_is : F32.tenth = S754_finite false 13421773 (-27).
Proof. reflexivity. Qed.

Lemma compare_cont_le (m n : positive) :
  PosDef.Pos.compare_cont Eq m n <> Gt -> Z.pos m <= Z.pos n.
Proof. intros H. exact H. Qed.

Lemma compare_cont_ge (m n : positive) :
  CompOpp (PosDef.Pos.compare_cont Eq n m) <> Gt -> Z.pos m <= Z.pos n.
Proof.
  intros H. change (PosDef.Pos.compare_cont Eq n m) with (Pos.compare n m) in H.
  rewrite <- Pos.compare_antisym in H. exact H.
Qed.

Lemma le_compare_cont (m n : positive) :
  Z.pos m <= Z.pos n -> PosDef.Pos.compare_cont Eq m n <> Gt.
Proof. intros H. exact H. Qed.

(** Below [1.0f] in the order of the format means magnitude at most 1. *)
Lemma leb_one_bounded (m : positive) (e : Z) :
  Z.pos m < 2 ^ 24 ->
  SFleb (S754_finite false m e) F32.one = true ->
  bounded_by 0 (S754_finite false m e).
Proof.
  intros Hm. rewrite one_is. unfold SFleb, SFcompare, bounded_by.
  destruct (Z.compare_spec e (-23)) as [-> | L | G].
  - intros H. split; [exact Hm |]. split; [lia |].
    change (2 ^ (0 - -23)) with (Z.pos 8388608).
    apply compare_cont_le.
    destruct (PosDef.Pos.compare_cont Eq m 8388608); congruence.
  - intros _. split; [exact Hm |]. split; [lia |].
    assert (2 ^ 24 <= 2 ^ (0 - e)) by (apply Z.pow_le_mono_r; lia). lia.
  - discriminate.
Qed.

Lemma geb_minus_one_bounded (m : positive) (e : Z) :
  Z.pos m < 2 ^ 24 ->
  SFleb (SFopp F32.one) (S754_finite true m e) = true ->
  bounded_by 0 (S754_finite true m e).
Proof.
  intros Hm. rewrite one_is. unfold SFleb, SFcompare, SFopp, negb, bounded_by.
  destruct (Z.compare_spec (-23) e) as [<- | L | G].
  - intros H. split; [exact Hm |]. split; [lia |].
    change (2 ^ (0 - -23)) with (Z.pos 8388608).
    apply (compare_cont_ge m 8388608).
    destruct (PosDef.Pos.compare_cont Eq 8388608 m); simpl in *; congruence.
  - discriminate.
  - intros _. split; [exact Hm |]. split; [lia |].
    assert (2 ^ 24 <= 2 ^ (0 - e)) by (apply Z.pow_le_mono_r; lia). lia.
Qed.

Lemma unit_float_leb (x : spec_float) :
  unit_float x -> SFleb F32.zero x = true /\ SFleb x F32.one = true.
Proof.
  intros [Hs Hb]. rewrite one_is.
  destruct x as [s | s | | s m e]; try contradiction.
  - split; reflexivity.
  - simpl in Hs. subst s. destruct Hb as (Hm & He & Hv).
    split; [reflexivity |].
    unfold SFleb, SFcompare.
    destruct (Z.compare_spec e (-23)) as [-> | L | G]; [| reflexivity | lia].
    change (2 ^ (0 - -23)) with (Z.pos 8388608) in Hv.
    apply le_compare_cont in Hv.
    destruct (PosDef.Pos.compare_cont Eq m 8388608); [reflexivity | reflexivity | congruence].
Qed.

Lemma unit_float_value (x : spec_float) :
  unit_float x -> exists q : Q, IEEE.value x = Some q /\ (0 <= q)%Q /\ (q <= 1)%Q.
Proof.
  intros [Hs Hb].
  destruct x as [s | s | | s m e]; try contradiction.
  - exists 0%Q. split; [reflexivity |]. split; unfold Qle; simpl; lia.
  - simpl in Hs. subst s. destruct Hb as (Hm & He & Hv).
    destruct e as [| p | p]; try lia.
    exists (Z.pos m # Pos.pow 2 p). split; [reflexivity |].
    unfold Qle. simpl Qnum. simpl Qden. split; [lia |].
    rewrite Pos2Z.inj_pow. change (0 - Z.neg p) with (Z.pos p) in Hv. lia.
Qed.

Lemma unit_float_in_unit_interval (x : spec_float) :
  unit_float x -> in_unit_interval x.
Proof.
  intros H. destruct (unit_float_leb x H) as [L1 L2].
  split; [exact L1 |]. split; [exact L2 |]. now apply unit_float_value.
Qed.

Lemma unit_floatb_spec (x : spec_float) : unit_floatb x = true -> unit_float x.
Proof.
  destruct x as [s | s | | s m e]; unfold unit_floatb; try discriminate.
  - intros _. split; exact I.
  - intros H. apply andb_true_iff in H as [H H4]. apply andb_true_iff in H as [H H3].
    apply andb_true_iff in H as [H1 H2]. apply negb_true_iff in H1.
    apply Z.ltb_lt in H2. apply Z.leb_le in H3, H4.
    split; [exact H1 |]. unfold bounded_by.
    replace (0 - e) with (- e) by lia. repeat split; lia.
Qed.

(** ** Products *)

Lemma mul_bounded (kx ky : Z) (x y : spec_float) :
  -126 <= kx + ky <= 127 ->
  bounded_by kx x -> bounded_by ky y ->
  bounded_by (kx + ky) (F32.mul x y) /\
  (forall sx sy, has_sign sx x -> has_sign sy y -> has_sign (xorb sx sy) (F32.mul x y)).
Proof.
  intros Hk Hx Hy.
  destruct x as [sx | sx | | sx mx ex]; try contradiction;
    destruct y as [sy | sy | | sy my ey]; try contradiction;
    try (split; [exact I | simpl; intros ? ? -> ->; reflexivity]).
  destruct Hx as (Hmx & Hex & Hvx). destruct Hy as (Hmy & Hey & Hvy).
  unfold F32.mul, SFmul.
  destruct (binary_round_aux_bound (xorb sx sy) (Z.pos (mx * my)) (ex + ey) (kx + ky))
    as [B S]; try lia.
  - rewrite Pos2Z.inj_mul.
    replace (kx + ky - (ex + ey)) with ((kx - ex) + (ky - ey)) by lia.
    rewrite Z.pow_add_r by lia.
    apply Z.mul_le_mono_nonneg; lia.
  - split; [exact B |]. simpl. intros ? ? -> ->. exact S.
Qed.

Lemma mul_unit (x y : spec_float) :
  unit_float x -> unit_float y -> unit_float (F32.mul x y).
Proof.
  intros [Sx Bx] [Sy By].
  destruct (mul_bounded 0 0 x y ltac:(lia) Bx By) as [B S].
  split; [| exact B].
  assert (Hx : has_sign false x \/ exists s, x = S754_zero s).
  { destruct x; try contradiction; [right; eauto | left; exact Sx]. }
  assert (Hy : has_sign false y \/ exists s, y = S754_zero s).
  { destruct y; try contradiction; [right; eauto | left; exact Sy]. }
  destruct Hx as [Hx | [s ->]].
  - destruct Hy as [Hy | [s ->]].
    + specialize (S false false Hx Hy). simpl in S.
      destruct (F32.mul x y); try contradiction; [exact I | exact S].
    + destruct x; try contradiction; exact I.
  - destruct y; try contradiction; exact I.
Qed.


(** ** Sums *)

Lemma pos_iter_xO (m d : positive) :
  Z.pos (Pos.iter xO m d) = Z.pos m * 2 ^ Z.pos d.
Proof.
  induction d as [| d IH] using Pos.peano_ind.
  - simpl. lia.
  - rewrite Pos.iter_succ, Pos2Z.inj_xO, IH, Pos2Z.inj_succ, Z.pow_succ_r by lia.
    lia.
Qed.

Lemma shl_align_spec (m : positive) (e e' : Z) :
  (e' < e -> Z.pos (fst (shl_align m e e')) = Z.pos m * 2 ^ (e - e') /\
             snd (shl_align m e e') = e') /\
  (e <= e' -> shl_align m e e' = (m, e)).
Proof.
  unfold shl_align. destruct (e' - e) as [| d | d] eqn:E.
  - split; [lia | reflexivity].
  - split; [lia | reflexivity].
  - split; [| lia]. intros _. simpl. rewrite pos_iter_xO.
    replace (e - e') with (Z.pos d) by lia. auto.
Qed.

Lemma binary_round_bound (sx : bool) (m : positive) (e k : Z) :
  -126 <= k <= 127 -> e <= k - 23 -> Z.pos m <= 2 ^ (k - e) ->
  bounded_by k (binary_round 24 128 sx m e) /\
  has_sign sx (binary_round 24 128 sx m e).
Proof.
  intros Hk He Hv. unfold binary_round.
  set (e3 := fexp 24 128 (Z.pos (digits2_pos m) + e)).
  destruct (shl_align_spec m e e3) as [A B].
  destruct (shl_align m e e3) as [mz ez].
  destruct (Z_lt_ge_dec e3 e) as [L | G].
  - destruct (A L) as [A1 A2]. simpl in A1, A2. subst ez.
    apply binary_round_aux_bound; try lia.
    rewrite A1. replace (k - e3) with ((k - e) + (e - e3)) by lia.
    rewrite Z.pow_add_r by lia.
    apply Z.mul_le_mono_nonneg_r; [| exact Hv].
    apply Z.pow_nonneg. lia.
  - assert (Es : (mz, ez) = (m, e)) by (apply B; lia).
    injection Es as -> ->.
    apply binary_round_aux_bound; lia.
Qed.

Lemma half_unit : unit_float F32.half.
Proof. apply unit_floatb_spec. reflexivity. Qed.

(** [0.5f + h] for [h] of magnitude at most one half lies between 0 and 1. *)
Lemma add_half_unit (h : spec_float) :
  bounded_by (-1) h -> unit_float (F32.add F32.half h).
Proof.
  intros Hb. rewrite half_is.
  destruct h as [s | s | | sh mh eh]; try contradiction.
  - rewrite <- half_is. exact half_unit.
  - destruct Hb as (Hm & He & Hv).
    unfold F32.add, SFadd, F32.prec, F32.emax.
    replace (Z.min (-24) eh) with eh by lia.
    destruct (shl_align_spec mh eh eh) as [_ B]. rewrite (B ltac:(lia)).
    cbn [fst].
    assert (HA : Z.pos (fst (shl_align 8388608 (-24) eh)) = 2 ^ (-1 - eh)).
    { destruct (shl_align_spec 8388608 (-24) eh) as [A1 A2].
      destruct (Z_lt_ge_dec eh (-24)) as [L | G].
      - destruct (A1 L) as [-> _].
        change (Z.pos 8388608) with (2 ^ 23).
        rewrite <- Z.pow_add_r by lia. f_equal. lia.
      - rewrite A2 by lia. assert (eh = -24) as -> by lia. reflexivity. }
    set (M := cond_Zopp false (Z.pos (fst (shl_align 8388608 (-24) eh)))
              + cond_Zopp sh (Z.pos mh)).
    assert (HM : 0 <= M <= 2 ^ (0 - eh)).
    { unfold M. rewrite HA. cbn [cond_Zopp].
      replace (0 - eh) with (Z.succ (-1 - eh)) by lia.
      rewrite Z.pow_succ_r by lia.
      replace (-1 - eh) with (-1 - 1 - eh + 1) in Hv |- * by lia.
      replace (-1 - 1 - eh + 1) with (-1 - eh) in Hv |- * by lia.
      destruct sh; cbn [cond_Zopp]; lia. }
    clearbody M. unfold binary_normalize.
    destruct M as [| p | p]; try lia.
    + split; exact I.
    + destruct (binary_round_bound false p eh 0) as [Bd Sg]; try lia.
      split; [| exact Bd].
      destruct (binary_round 24 128 false p eh); try contradiction;
        [exact I | exact Sg].
Qed.

(** [0.5f * v] for [v] of magnitude at most 1 has magnitude at most one
    half. *)
Lemma mul_half_bounded (v : spec_float) :
  bounded_by 0 v -> bounded_by (-1) (F32.mul F32.half v).
Proof.
  intros Hv.
  assert (Hh : bounded_by (-1) F32.half).
  { rewrite half_is. simpl. repeat split; lia. }
  exact (proj1 (mul_bounded (-1) 0 F32.half v ltac:(lia) Hh Hv)).
Qed.

(** A value that [std::sin] may return: a number of the format between
    [-1.0f] and [1.0f]. *)
Lemma sin_range_bounded (v : spec_float) :
  F32.valid v = true ->
  SFleb (SFopp F32.one) v = true -> SFleb v F32.one = true ->
  bounded_by 0 v.
Proof.
  intros Hval L1 L2.
  destruct v as [s | s | | s m e].
  - exact I.
  - destruct s; discriminate.
  - discriminate.
  - destruct (valid_mantissa s m e Hval) as [Hm _].
    destruct s.
    + now apply geb_minus_one_bounded.
    + now apply leb_one_bounded.
Qed.

(** A draw of the distribution: a number of the format between [0.1f] and
    [1.0f]. *)
Lemma draw_range_unit (r : spec_float) :
  F32.valid r = true ->
  SFleb F32.tenth r = true -> SFleb r F32.one = true ->
  unit_float r.
Proof.
  intros Hval L1 L2.
  destruct r as [s | s | | s m e]; try (destruct s; discriminate); try discriminate.
  destruct (valid_mantissa s m e Hval) as [Hm _].
  destruct s; [discriminate |].
  split; [reflexivity |]. now apply leb_one_bounded.
Qed.

End RoundingFacts.

(* ===================================================================== *)
(** * Properties of the audio engine: the spectrum after a tick *)
(* ===================================================================== *)

Create HintDb unit_floats.

Section SpectrumFacts.
Import AudioEngine.

Lemma base_level_all_unit :
  forallb (fun i => unit_floatb (base_level i)) (seq 0 32) = true.
Proof. vm_compute. reflexivity. Qed.

Lemma base_level_unit (i : nat) : (i < 32)%nat -> unit_float (base_level i).
Proof.
  intros Hi. apply unit_floatb_spec.
  pose proof base_level_all_unit as H. rewrite forallb_forall in H.
  apply H, in_seq. lia.
Qed.

Lemma time_factor_unit (env : TickEnv) (i : nat) :
  env_ok env -> (i < 32)%nat -> unit_float (time_factor env i).
Proof.
  intros He Hi. destruct (He i Hi) as [_ (V & L1 & L2)].
  unfold time_factor. fold (sin_argument env i).
  apply add_half_unit, mul_half_bounded, sin_range_bounded; assumption.
Qed.

#[local] Hint Resolve mul_unit base_level_unit draw_range_unit time_factor_unit
  : unit_floats.

Lemma bin_unit (env : TickEnv) (i : nat) :
  env_ok env -> (i < 32)%nat -> unit_float (bin env i).
Proof.
  intros He Hi. destruct (He i Hi) as [(V & L1 & L2) _].
  unfold bin. auto with unit_floats.
Qed.

(** The loop writes every index once, in order. *)
Lemma foldl_insert_seq {A} (f : nat -> A) (n a : nat) (pre suf : list A) :
  length pre = a -> length suf = n ->
  foldl (fun d i => <[i := f i]> d) (pre ++ suf) (seq a n) = pre ++ map f (seq a n).
Proof.
  revert a pre suf. induction n as [| n IH]; intros a pre suf Hp Hs.
  - destruct suf; [reflexivity | discriminate].
  - destruct suf as [| x suf]; [discriminate |]. simpl in Hs.
    cbn [seq foldl map].
    rewrite insert_app_r_alt by lia.
    replace (a - length pre)%nat with 0%nat by lia. cbn [insert list_insert].
    replace (pre ++ f a :: suf) with ((pre ++ [f a]) ++ suf)
      by (rewrite <- app_assoc; reflexivity).
    rewrite (IH (S a) (pre ++ [f a]) suf).
    + rewrite <- app_assoc. reflexivity.
    + rewrite length_app. simpl. lia.
    + lia.
Qed.

Lemma spectrum_loop_map (env : TickEnv) (v : list spec_float) :
  length v = 32%nat -> spectrum_loop env v = map (bin env) (seq 0 32).
Proof.
  intros H. unfold spectrum_loop.
  exact (foldl_insert_seq (bin env) 32 0 [] v eq_refl H).
Qed.

Lemma zero_in_unit_interval : in_unit_interval F32.zero.
Proof. apply unit_float_in_unit_interval, unit_floatb_spec. reflexivity. Qed.

Lemma tenth_in_unit_interval : in_unit_interval F32.tenth.
Proof. apply unit_float_in_unit_interval, unit_floatb_spec. reflexivity. Qed.

Lemma spectrum_ok_replicate (x : spec_float) (m : AudioMetrics) :
  in_unit_interval x -> spectrum_data m = replicate 32 x -> spectrum_ok m.
Proof.
  intros Hx E. unfold spectrum_ok. rewrite E. split; [reflexivity |].
  apply Forall_forall. intros y Hy. apply elem_of_replicate in Hy as [-> _]. exact Hx.
Qed.

Lemma tick_spectrum_ok (env : TickEnv) (s : AudioEngine.t) :
  env_ok env -> spectrum_ok (getMetrics (tick env s)).
Proof.
  intros He. unfold tick, generateSpectrumData.
  rewrite processAudioBuffer_playing.
  set (s1 := processAudioBuffer s).
  destruct (playing_ s) eqn:P.
  - cbv zeta. unfold spectrum_ok.
    match goal with
    | |- context [spectrum_data (getMetrics ?X)] =>
        assert (E' : spectrum_data (getMetrics X)
                     = map (bin env) (seq 0 32))
    end.
    { destruct (visualization_callback_ _); simpl;
        apply spectrum_loop_map, length_resize. }
    rewrite E'. split; [reflexivity |].
    apply Forall_forall. intros y Hy.
    apply list_elem_of_In, in_map_iff in Hy as (i & <- & Hi).
    apply in_seq in Hi. apply unit_float_in_unit_interval, bin_unit; [exact He | lia].
  - apply (spectrum_ok_replicate F32.tenth); [exact tenth_in_unit_interval |].
    simpl. unfold fill. now rewrite length_resize.
Qed.

Lemma stop_spectrum_ok (s : AudioEngine.t) : spectrum_ok (getMetrics (stop s)).
Proof. apply (spectrum_ok_replicate F32.zero); [exact zero_in_unit_interval | reflexivity]. Qed.

(** Once established, the shape of the spectrum survives every call. *)
Lemma spectrum_ok_step (o : op) (s : AudioEngine.t) :
  match o with OpTick env => env_ok env | _ => True end ->
  spectrum_ok (getMetrics s) -> spectrum_ok (getMetrics (step o s)).
Proof.
  intros Ho H. destruct o; simpl.
  - unfold shutdown. destruct (initialized_ s); simpl.
    + apply (spectrum_ok_replicate F32.zero); [exact zero_in_unit_interval | reflexivity].
    + exact H.
  - unfold shutdown. destruct (initialized_ s); simpl; [| exact H].
    apply (spectrum_ok_replicate F32.zero); [exact zero_in_unit_interval | reflexivity].
  - unfold setConfig. destruct (initialized_ s); simpl; [| exact H].
    match goal with |- context [if ?b then _ else _] => destruct b end; exact H.
  - unfold play. destruct (initialized_ s); exact H.
  - exact H.
  - apply stop_spectrum_ok.
  - exact H.
  - exact H.
  - now apply tick_spectrum_ok.
Qed.

Lemma spectrum_ok_run (ops : list op) (s : AudioEngine.t) :
  ops_ok ops -> spectrum_ok (getMetrics s) -> spectrum_ok (getMetrics (run ops s)).
Proof.
  revert s. induction ops as [| o ops IH]; intros s Ho H; [exact H |].
  apply Forall_cons in Ho as [Ho Hops].
  simpl. apply IH; [exact Hops |]. now apply spectrum_ok_step.
Qed.

(** C2. After a tick of the metrics thread, in the playing branch as in the
    other one, the spectrum of the snapshot has exactly 32 bins and each bin
    lies between 0 and 1, both included; the same holds after every later
    call and tick, so for all sequences of ticks. The draws of the random
    distribution are taken within its bounds [0.1f, 1.0f] and the values of
    [std::sin] within [-1.0f, 1.0f]. *)
Theorem spectrum_in_unit_interval (s : AudioEngine.t) (env : TickEnv)
    (ops : list op) :
  env_ok env -> ops_ok ops ->
  let m := getMetrics (run ops (tick env s)) in
  length (spectrum_data m) = 32%nat /\
  forall (i : nat) (x : spec_float), spectrum_data m !! i = Some x ->
    SFleb F32.zero x = true /\ SFleb x F32.one = true /\
    exists q : Q, IEEE.value x = Some q /\ (0 <= q)%Q /\ (q <= 1)%Q.
Proof.
  intros He Ho m.
  destruct (spectrum_ok_run ops (tick env s) Ho (tick_spectrum_ok env s He)) as [L F].
  fold m in L, F. split; [exact L |].
  intros i x Hx. rewrite Forall_forall in F.
  apply (F x). eapply list_elem_of_lookup_2, Hx.
Qed.

Lemma quiet_env_ok : env_ok quiet_env.
Proof. intros i _. repeat split; reflexivity. Qed.

Lemma stop_then_tick_ok : ops_ok [OpStop; OpTick quiet_env].
Proof.
  unfold ops_ok. apply Forall_cons_2; [exact I |].
  apply Forall_cons_2; [exact quiet_env_ok | apply Forall_nil_2].
Qed.

Lemma spectrum_in_unit_interval_witness :
  length (spectrum_data (getMetrics
            (run [OpStop; OpTick quiet_env]
                 (tick quiet_env (play (snd (initialize default_config new)))))))
  = 32%nat.
Proof.
  exact (proj1 (spectrum_in_unit_interval
                  (play (snd (initialize default_config new))) quiet_env
                  [OpStop; OpTick quiet_env] quiet_env_ok stop_then_tick_ok)).
Defined.

(** A tick while playing, run on these surroundings. *)
Example playing_tick_runs :
  spectrum_data (getMetrics (tick quiet_env (play (snd (initialize default_config new)))))
  = map (fun i => F32.mul (base_level i) F32.half) (seq 0 32).
Proof. vm_compute. reflexivity. Qed.

End SpectrumFacts.
(* ===================================================================== *)
(** * Properties of the HTTP dispatcher *)
(* ===================================================================== *)

Section WebServerFacts.
Import WebServer.
#[local] Arguments String.append : simpl nomatch.

(** ** Strings *)

Lemma string_eqb_eq (a b : string) : String.eqb a b = true <-> a = b.
Proof. apply String.eqb_eq. Qed.

Lemma append_nil_r (s : string) : s +:+ EmptyString = s.
Proof. induction s as [| c s IH]; simpl; [reflexivity | now rewrite IH]. Qed.

Lemma append_assoc (a b c : string) : (a +:+ b) +:+ c = a +:+ (b +:+ c).
Proof. induction a as [| x a IH]; simpl; [reflexivity | now rewrite IH]. Qed.

(** ** The CORS block *)

(** On a response that starts with a status line and one header, the blank
    line found by [addCORSHeaders] is the one that ends the headers. *)
Lemma addCORSHeaders_ok (ct body : string) :
  In ct content_types ->
  addCORSHeaders ("HTTP/1.1 200 OK" +:+ Str.CRLF +:+ "Content-Type: " +:+ ct
                    +:+ Str.CRLF +:+ Str.CRLF +:+ body)
  = with_cors (ok_head ct) body.
Proof.
  intros H. simpl in H.
  repeat (destruct H as [<- | H]; [reflexivity |]). destruct H.
Qed.

Lemma addCORSHeaders_not_found :
  addCORSHeaders not_found = with_cors not_found_head not_found_body.
Proof. reflexivity. Qed.

Lemma getContentType_known (p : string) : In (getContentType p) content_types.
Proof.
  unfold getContentType, content_types.
  destruct (Str.find_last_of "." p) as [n |]; [| simpl; tauto].
  repeat match goal with
         | |- context [if ?b then _ else _] => destruct b
         end; simpl; tauto.
Qed.

Lemma head_has_no_blank_line (ct : string) :
  In ct content_types -> Str.find (Str.CRLF +:+ Str.CRLF) (ok_head ct) = None.
Proof.
  intros H. simpl in H.
  repeat (destruct H as [<- | H]; [reflexivity |]). destruct H.
Qed.

(** ** Routes *)

Lemma find_route_Some routes m p r :
  find_route routes m p = Some r ->
  In r routes /\ method r = m /\ path r = p.
Proof.
  induction routes as [| x rest IH]; simpl; [discriminate |].
  destruct (String.eqb (method x) m && String.eqb (path x) p) eqn:E.
  - intros [= <-]. apply andb_true_iff in E as [E1 E2].
    apply string_eqb_eq in E1, E2. auto.
  - intros H. destruct (IH H) as (? & ? & ?). auto.
Qed.

Lemma find_route_None routes m p :
  find_route routes m p = None <->
  (forall r, In r routes -> ~ (method r = m /\ path r = p)).
Proof.
  induction routes as [| x rest IH]; simpl.
  - split; [intros _ r [] | reflexivity].
  - destruct (String.eqb (method x) m && String.eqb (path x) p) eqn:E.
    + apply andb_true_iff in E as [E1 E2]. apply string_eqb_eq in E1, E2.
      split; [discriminate |]. intros H. exfalso. apply (H x); auto.
    + rewrite IH. split.
      * intros H r [<- | Hr]; [| now apply H].
        intros [<- <-]. rewrite !String.eqb_refl in E. discriminate.
      * intros H r Hr. apply H. now right.
Qed.

(** The first route with the method and path of the request is the one
    found, whatever follows it in the table. *)
Lemma find_route_first routes1 routes2 m p r :
  find_route routes1 m p = Some r -> find_route (routes1 ++ routes2) m p = Some r.
Proof.
  induction routes1 as [| x rest IH]; simpl; [discriminate |].
  destruct (String.eqb (method x) m && String.eqb (path x) p); auto.
Qed.

Lemma handleRequest_route fs s m p params r :
  find_route (routes_ s) m p = Some r ->
  handleRequest fs s m p params
  = with_cors (ok_head "application/json") (handler r (components_ s) params).
Proof.
  intros H. unfold handleRequest. rewrite H.
  apply (addCORSHeaders_ok "application/json"). simpl. tauto.
Qed.

Lemma handleRequest_static fs s p params :
  find_route (routes_ s) "GET" p = None ->
  serveStaticFile fs s (static_target p) <> EmptyString ->
  handleRequest fs s "GET" p params
  = with_cors (ok_head (getContentType (static_target p)))
              (serveStaticFile fs s (static_target p)).
Proof.
  intros H Hc. unfold handleRequest. rewrite H. simpl String.eqb. cbv iota.
  fold (static_target p).
  destruct (String.eqb (serveStaticFile fs s (static_target p)) EmptyString) eqn:E.
  - apply string_eqb_eq in E. contradiction.
  - simpl negb. cbv iota.
    apply addCORSHeaders_ok, getContentType_known.
Qed.

Lemma handleRequest_not_found fs s m p params :
  find_route (routes_ s) m p = None ->
  (m = "GET" -> serveStaticFile fs s (static_target p) = EmptyString) ->
  handleRequest fs s m p params = with_cors not_found_head not_found_body.
Proof.
  intros H Hc. unfold handleRequest. rewrite H.
  destruct (String.eqb m "GET") eqn:Em.
  - apply string_eqb_eq in Em. fold (static_target p). rewrite (Hc Em). reflexivity.
  - reflexivity.
Qed.

(** C5. A GET request whose method and path match no registered route, and
    for which the static file lookup yields no content, is answered with
    status 404 and the fixed HTML body, whatever the query parameters. *)
Theorem unmatched_get_is_404 (fs : FileSystem) (s : WebServer.t) (p : string)
    (params : gmap string string) :
  find_route (routes_ s) "GET" p = None ->
  serveStaticFile fs s (static_target p) = EmptyString ->
  handleRequest fs s "GET" p params
  = "HTTP/1.1 404 Not Found" +:+ Str.CRLF +:+ "Content-Type: text/html"
      +:+ Str.CRLF +:+ cors_headers +:+ Str.CRLF +:+ Str.CRLF
      +:+ "<h1>404 Not Found</h1>".
Proof.
  intros H Hc. rewrite (handleRequest_not_found fs s "GET" p params H (fun _ => Hc)).
  reflexivity.
Qed.

Lemma unmatched_get_is_404_witness :
  handleRequest (fun _ => None) (new 7788) "GET" "/api/device" {[ "x" := "1" ]}
  = "HTTP/1.1 404 Not Found" +:+ Str.CRLF +:+ "Content-Type: text/html"
      +:+ Str.CRLF +:+ cors_headers +:+ Str.CRLF +:+ Str.CRLF
      +:+ "<h1>404 Not Found</h1>".
Proof.
  apply (unmatched_get_is_404 (fun _ => None) (new 7788) "/api/device"
           {[ "x" := "1" ]}); reflexivity.
Defined.

(** C6. Every response of [handleRequest] carries the three CORS headers,
    placed after the status line and content-type header and before the blank
    line and body of the response they were added to: this holds when a route
    handler answered, when a static file was served and for the 404. *)
Theorem every_response_has_cors (fs : FileSystem) (s : WebServer.t)
    (m p : string) (params : gmap string string) :
  exists head body,
    handleRequest fs s m p params
    = head +:+ Str.CRLF
        +:+ "Access-Control-Allow-Origin: *" +:+ Str.CRLF
        +:+ "Access-Control-Allow-Methods: GET, POST, PUT, DELETE, OPTIONS" +:+ Str.CRLF
        +:+ "Access-Control-Allow-Headers: Content-Type, Authorization" +:+ Str.CRLF
        +:+ Str.CRLF +:+ Str.CRLF +:+ body
    /\ Str.find (Str.CRLF +:+ Str.CRLF) head = None
    /\ ((exists r, find_route (routes_ s) m p = Some r /\
                   head = ok_head "application/json" /\
                   body = handler r (components_ s) params)
        \/ (find_route (routes_ s) m p = None /\ m = "GET" /\
            head = ok_head (getContentType (static_target p)) /\
            body = serveStaticFile fs s (static_target p) /\
            body <> EmptyString)
        \/ (find_route (routes_ s) m p = None /\
            head = not_found_head /\ body = not_found_body)).
Proof.
  destruct (find_route (routes_ s) m p) as [r |] eqn:Hr.
  - exists (ok_head "application/json"), (handler r (components_ s) params).
    split; [| split].
    + now rewrite (handleRequest_route fs s m p params r Hr).
    + reflexivity.
    + left. eauto.
  - destruct (String.eqb m "GET") eqn:Em.
    + apply string_eqb_eq in Em. subst m.
      destruct (String.eqb (serveStaticFile fs s (static_target p)) EmptyString) eqn:Ec.
      * apply string_eqb_eq in Ec.
        exists not_found_head, not_found_body. split; [| split].
        -- now rewrite (handleRequest_not_found fs s "GET" p params Hr (fun _ => Ec)).
        -- reflexivity.
        -- right. right. auto.
      * assert (Hne : serveStaticFile fs s (static_target p) <> EmptyString).
        { intros E. rewrite E in Ec. discriminate. }
        exists (ok_head (getContentType (static_target p))),
               (serveStaticFile fs s (static_target p)).
        split; [| split].
        -- now rewrite (handleRequest_static fs s p params Hr Hne).
        -- apply head_has_no_blank_line, getContentType_known.
        -- right. left. auto.
    + exists not_found_head, not_found_body. split; [| split].
      * rewrite (handleRequest_not_found fs s m p params Hr); [reflexivity |].
        intros ->. discriminate.
      * reflexivity.
      * right. right. auto.
Qed.

(** ** Missing collaborators *)

Lemma api_route_found s m p r :
  has_api_routes s ->
  find_route setupRoutes m p = Some r ->
  find_route (routes_ s) m p = Some r.
Proof. intros [extra ->]. apply find_route_first. Qed.

(** C7. On a server with the API routes of the constructor, a request for a
    route whose collaborator is missing (device manager for GET /api/devices,
    configuration manager for GET /api/config, audio engine for
    POST /api/audio/play) is answered with status 200 and a JSON object with
    the single member [error]; no other status is produced for it. *)
Theorem missing_collaborator_is_200_error (fs : FileSystem) (s : WebServer.t)
    (params : gmap string string) :
  has_api_routes s ->
  (device_manager_ (components_ s) = None ->
   handleRequest fs s "GET" "/api/devices" params
   = with_cors (ok_head "application/json")
               (error_json "Device manager not available"))
  /\ (config_manager_ (components_ s) = None ->
      handleRequest fs s "GET" "/api/config" params
      = with_cors (ok_head "application/json")
                  (error_json "Config manager not available"))
  /\ (audio_engine_ (components_ s) = None ->
      handleRequest fs s "POST" "/api/audio/play" params
      = with_cors (ok_head "application/json")
                  (error_json "Audio engine not available")).
Proof.
  intros Hs. repeat split; intros Hc.
  - rewrite (handleRequest_route fs s _ _ params _
               (api_route_found s "GET" "/api/devices" _ Hs eq_refl)).
    simpl. unfold handleDevicesAPI. now rewrite Hc.
  - rewrite (handleRequest_route fs s _ _ params _
               (api_route_found s "GET" "/api/config" _ Hs eq_refl)).
    simpl. unfold handleConfigAPI. now rewrite Hc.
  - rewrite (handleRequest_route fs s _ _ params _
               (api_route_found s "POST" "/api/audio/play" _ Hs eq_refl)).
    simpl. unfold handleAudioAPI. now rewrite Hc.
Qed.

Lemma has_api_routes_new port : has_api_routes (new port).
Proof. exists []. reflexivity. Qed.

Lemma has_api_routes_addRoute m p h s :
  has_api_routes s -> has_api_routes (addRoute m p h s).
Proof.
  intros [extra E]. exists (extra ++ [mkRoute m p h]). simpl.
  now rewrite E, <- app_assoc.
Qed.

Lemma missing_collaborator_is_200_error_witness :
  handleRequest (fun _ => None) (new 7788) "GET" "/api/devices" ∅
  = with_cors (ok_head "application/json")
              (error_json "Device manager not available").
Proof.
  exact (proj1 (missing_collaborator_is_200_error (fun _ => None) (new 7788) ∅
                  (has_api_routes_new 7788)) eq_refl).
Defined.

(** ** Stopping *)

(** C9. [stop] is idempotent: a second call leaves the server as the first
    one left it, and the server is not running after either. The function is
    total, it has no failing or waiting path. *)
Theorem stop_idempotent (s : WebServer.t) :
  stop (stop s) = stop s /\ isRunning (stop s) = false.
Proof. split; reflexivity. Qed.


(** ** Query parameters *)

Lemma foldl_insert_lookup (l : list (string * string)) (m0 : gmap string string)
    (k : string) :
  foldl (fun params kv => <[kv.1 := kv.2]> params) m0 l !! k
  = match last_value k l with
    | Some v => Some v
    | None => m0 !! k
    end.
Proof.
  revert m0. induction l as [| [k' v] l IH]; intros m0; simpl; [reflexivity |].
  rewrite IH. destruct (last_value k l) as [v' |]; [reflexivity |].
  destruct (String.eqb k' k) eqn:E.
  - apply string_eqb_eq in E. subst. apply lookup_insert_eq.
  - apply lookup_insert_ne. intros ->. rewrite String.eqb_refl in E. discriminate.
Qed.

Lemma query_params_lookup (query k : string) :
  query_params query !! k = last_value k (ParamRegex.matches query).
Proof.
  unfold query_params. rewrite foldl_insert_lookup.
  destruct (last_value k (ParamRegex.matches query)); [reflexivity |].
  apply lookup_empty.
Qed.

Lemma last_value_app k l1 l2 :
  last_value k (l1 ++ l2)
  = match last_value k l2 with
    | Some v => Some v
    | None => last_value k l1
    end.
Proof.
  induction l1 as [| [k' v] l1 IH]; simpl.
  - now destruct (last_value k l2).
  - rewrite IH. now destruct (last_value k l2).
Qed.

Lemma last_value_absent k l : ~ In k (map fst l) -> last_value k l = None.
Proof.
  induction l as [| [k' v] l IH]; simpl; [reflexivity |].
  intros H. rewrite IH by tauto.
  destruct (String.eqb k' k) eqn:E; [| reflexivity].
  apply string_eqb_eq in E. tauto.
Qed.

(** C8. The parameter map built from a query string binds every name once,
    to the value of its last match: when the matches of the query are
    [l1 ++ (k, v) :: l2] and [k] does not occur again in [l2], the map binds
    [k] to [v], whatever earlier matches in [l1] bound it to; the keys listed
    from the map are pairwise different. *)
Theorem duplicate_parameter_last_wins (query k : string) :
  query_params query !! k = last_value k (ParamRegex.matches query)
  /\ NoDup (map fst (map_to_list (query_params query)))
  /\ (forall l1 v l2,
        ParamRegex.matches query = l1 ++ (k, v) :: l2 ->
        ~ In k (map fst l2) ->
        query_params query !! k = Some v
        /\ forall v', In (k, v') (map_to_list (query_params query)) -> v' = v).
Proof.
  split; [apply query_params_lookup |].
  split; [apply NoDup_fst_map_to_list |].
  intros l1 v l2 Hm Hk.
  assert (E : query_params query !! k = Some v).
  { rewrite query_params_lookup, Hm, last_value_app. simpl.
    rewrite (last_value_absent k l2 Hk), String.eqb_refl. reflexivity. }
  split; [exact E |].
  intros v' Hin. apply list_elem_of_In, elem_of_map_to_list in Hin. congruence.
Qed.

Lemma duplicate_parameter_last_wins_witness :
  query_params "a=1&b=2&a=3" !! "a" = Some "3".
Proof.
  exact (proj1 (proj2 (proj2 (duplicate_parameter_last_wins "a=1&b=2&a=3" "a"))
                  [("a", "1"); ("b", "2")] "3" [] eq_refl (fun H => H))).
Defined.


(** ** The regex on query strings *)

Lemma length_append (a b : string) :
  String.length (a +:+ b) = (String.length a + String.length b)%nat.
Proof. induction a as [| c a IH]; simpl; [reflexivity | now rewrite IH]. Qed.

Lemma span_split s k r : ParamRegex.span s = (k, r) -> s = k +:+ r.
Proof.
  revert k r. induction s as [| c s IH]; simpl; intros k r.
  - now intros [= <- <-].
  - destruct (ParamRegex.is_sep c).
    + now intros [= <- <-].
    + destruct (ParamRegex.span s) as [k' r'] eqn:E. intros [= <- <-].
      simpl. now rewrite (IH k' r' eq_refl).
Qed.

Lemma span_app_sep k c rest :
  no_sep k = true -> ParamRegex.is_sep c = true ->
  ParamRegex.span (k +:+ String c rest) = (k, String c rest).
Proof.
  intros Hk Hc. induction k as [| a k IH]; simpl.
  - now rewrite Hc.
  - simpl in Hk. apply andb_true_iff in Hk as [Ha Hk].
    apply negb_true_iff in Ha. rewrite Ha, (IH Hk). reflexivity.
Qed.

Lemma span_no_sep k : no_sep k = true -> ParamRegex.span k = (k, EmptyString).
Proof.
  intros Hk. induction k as [| a k IH]; simpl; [reflexivity |].
  simpl in Hk. apply andb_true_iff in Hk as [Ha Hk].
  apply negb_true_iff in Ha. rewrite Ha, (IH Hk). reflexivity.
Qed.

Lemma match_here_shorter s k v rest :
  ParamRegex.match_here s = Some (k, v, rest) ->
  (String.length rest + 2 <= String.length s)%nat.
Proof.
  unfold ParamRegex.match_here.
  destruct (ParamRegex.span s) as [k0 r0] eqn:E.
  apply span_split in E. subst s.
  destruct k0 as [| c k0]; [discriminate |].
  destruct r0 as [| e r0]; [discriminate |].
  destruct (Ascii.eqb e "="); [| discriminate].
  destruct (ParamRegex.span r0) as [v0 r1] eqn:E1.
  apply span_split in E1. subst r0. intros [= <- <- <-].
  simpl. rewrite !length_append. simpl. rewrite length_append. lia.
Qed.

Lemma search_shorter s k v rest :
  ParamRegex.search s = Some (k, v, rest) ->
  (String.length rest + 2 <= String.length s)%nat.
Proof.
  induction s as [| c s IH]; simpl.
  - discriminate.
  - destruct (ParamRegex.match_here (String c s)) as [[[k0 v0] r0] |] eqn:E.
    + intros [= <- <- <-]. apply match_here_shorter in E. exact E.
    + intros H. specialize (IH H). lia.
Qed.

(** The number of matches is bounded by the length of the query: more fuel
    than that changes nothing. *)
Lemma iter_fuel_enough (n m : nat) (s : string) :
  (String.length s <= n)%nat -> (String.length s <= m)%nat ->
  ParamRegex.iter n s = ParamRegex.iter m s.
Proof.
  revert m s. induction n as [| n IH]; intros m s Hn Hm.
  - destruct s; [| simpl in Hn; lia]. now destruct m.
  - destruct m as [| m].
    + destruct s; [| simpl in Hm; lia]. reflexivity.
    + simpl. destruct (ParamRegex.search s) as [[[k v] rest] |] eqn:E; [| reflexivity].
      apply search_shorter in E. f_equal. apply IH; lia.
Qed.

Lemma match_here_pair k v rest :
  plain_pair (k, v) = true ->
  (rest = EmptyString \/ exists r, rest = String "&" r) ->
  ParamRegex.match_here (k +:+ "=" +:+ v +:+ rest) = Some (k, v, rest).
Proof.
  unfold plain_pair. simpl. intros H Hrest.
  apply andb_true_iff in H as [H Hv]. apply andb_true_iff in H as [Hne Hk].
  unfold ParamRegex.match_here.
  change (k +:+ "=" +:+ v +:+ rest) with (k +:+ String "=" (v +:+ rest)).
  rewrite (span_app_sep k "=" (v +:+ rest) Hk eq_refl).
  destruct k as [| c k]; [discriminate |]. simpl.
  destruct Hrest as [-> | [r ->]].
  - rewrite append_nil_r, (span_no_sep v Hv). reflexivity.
  - rewrite (span_app_sep v "&" r Hv eq_refl). reflexivity.
Qed.

Lemma search_match_here s m :
  ParamRegex.match_here s = Some m -> ParamRegex.search s = Some m.
Proof. intros H. destruct s; unfold ParamRegex.search; now rewrite H. Qed.

Lemma search_skip_amp s : ParamRegex.search (String "&" s) = ParamRegex.search s.
Proof. reflexivity. Qed.

Lemma search_empty : ParamRegex.search EmptyString = None.
Proof. reflexivity. Qed.

Ltac len_in H :=
  repeat (rewrite ?length_append in H; progress simpl String.length in H).

(** A query string written from name/value pairs is read back as those
    pairs, in order. *)
Lemma matches_query_of (l : list (string * string)) :
  forallb plain_pair l = true -> ParamRegex.matches (query_of l) = l.
Proof.
  unfold ParamRegex.matches.
  assert (G : forall fuel, forallb plain_pair l = true ->
              (String.length (query_of l) <= fuel)%nat ->
              ParamRegex.iter fuel (query_of l) = l).
  { induction l as [| [k v] l IH]; intros fuel Hl Hf.
    - destruct fuel; reflexivity.
    - simpl in Hl. apply andb_true_iff in Hl as [Hkv Hl].
      destruct l as [| kv' l'].
      + change (query_of [(k, v)]) with (k +:+ "=" +:+ v) in *.
        destruct fuel as [| fuel].
        * len_in Hf. rewrite ?length_append in Hf. lia.
        * pose proof (match_here_pair k v EmptyString Hkv (or_introl eq_refl)) as M.
          rewrite append_nil_r in M.
          assert (S1 : ParamRegex.search (k +:+ "=" +:+ v) = Some (k, v, EmptyString)).
          { now apply search_match_here. }
          cbn [ParamRegex.iter]. rewrite S1. f_equal. now destruct fuel.
      + change (query_of ((k, v) :: kv' :: l'))
          with (k +:+ "=" +:+ v +:+ "&" +:+ query_of (kv' :: l')) in *.
        set (q' := query_of (kv' :: l')) in *.
        destruct fuel as [| fuel].
        * len_in Hf. rewrite ?length_append in Hf. lia.
        * pose proof (match_here_pair k v ("&" +:+ q') Hkv
                        (or_intror (ex_intro _ q' eq_refl))) as M.
          assert (S1 : ParamRegex.search (k +:+ "=" +:+ v +:+ "&" +:+ q')
                       = Some (k, v, "&" +:+ q')).
          { now apply search_match_here. }
          cbn [ParamRegex.iter]. rewrite S1. f_equal.
          destruct fuel as [| fuel].
          -- len_in Hf. lia.
          -- change ("&" +:+ q') with (String "&" q').
             cbn [ParamRegex.iter]. rewrite search_skip_amp.
             assert (Hq : (String.length q' <= S fuel)%nat).
             { len_in Hf. rewrite ?length_append in Hf. lia. }
             specialize (IH (S fuel) Hl Hq). cbn [ParamRegex.iter] in IH. exact IH. }
  intros Hl. apply G; [exact Hl | lia].
Qed.


(** ** Reading the request line *)

Lemma no_space_app a b : no_space (a +:+ b) = no_space a && no_space b.
Proof.
  induction a as [| c a IH]; simpl; [reflexivity |].
  rewrite IH. now rewrite !andb_assoc.
Qed.

Lemma c_str_app a b : no_space a = true -> Str.c_str (a +:+ b) = a +:+ Str.c_str b.
Proof.
  induction a as [| c a IH]; simpl; [reflexivity |].
  intros H. apply andb_true_iff in H as [H Ha]. apply andb_true_iff in H as [_ Hc].
  apply negb_true_iff in Hc. rewrite Hc, (IH Ha). reflexivity.
Qed.

Lemma c_str_request_line m target version :
  no_space m = true -> no_space target = true -> no_space version = true ->
  Str.c_str (request_line m target version) = request_line m target version.
Proof.
  intros Hm Ht Hv. unfold request_line.
  rewrite (c_str_app m _ Hm). f_equal.
  change (" " +:+ target +:+ " " +:+ version +:+ Str.CRLF)
    with (String " " (target +:+ String " " (version +:+ Str.CRLF))).
  simpl Str.c_str at 1. f_equal.
  rewrite (c_str_app target _ Ht). f_equal.
  simpl Str.c_str at 1. f_equal.
  rewrite (c_str_app version _ Hv). reflexivity.
Qed.

Lemma read_word_app w c rest :
  no_space w = true -> Str.isspace c = true ->
  Str.read_word (w +:+ String c rest) = (w, String c rest).
Proof.
  intros Hw Hc. induction w as [| a w IH]; simpl.
  - now rewrite Hc.
  - simpl in Hw. apply andb_true_iff in Hw as [H Hw].
    apply andb_true_iff in H as [Ha _]. apply negb_true_iff in Ha.
    rewrite Ha, (IH Hw). reflexivity.
Qed.

Lemma extract_word w c rest :
  is_word w = true -> Str.isspace c = true ->
  Str.extract (w +:+ String c rest) = (w, String c rest).
Proof.
  unfold is_word, Str.extract. intros H Hc.
  apply andb_true_iff in H as [Hne Hw].
  rewrite <- (read_word_app w c rest Hw Hc). f_equal.
  destruct w as [| a w]; [discriminate |].
  simpl in Hw. apply andb_true_iff in Hw as [H _].
  apply andb_true_iff in H as [Ha _]. apply negb_true_iff in Ha.
  simpl. now rewrite Ha.
Qed.

Lemma extract_skip c rest :
  Str.isspace c = true -> Str.extract (String c rest) = Str.extract rest.
Proof. intros Hc. unfold Str.extract. simpl. now rewrite Hc. Qed.

(** [handleClient] on a well-formed request line: the method and the target
    are its first two words, and the target is split at its question mark
    before [handleRequest] is called. *)
Lemma handleClient_request_line fs s m target version :
  is_word m = true -> is_word target = true -> is_word version = true ->
  handleClient fs s (Some (request_line m target version))
  = Some (handleRequest fs s m (split_target target).1 (split_target target).2).
Proof.
  intros Hm Ht Hv. unfold handleClient.
  assert (Hm' := Hm). assert (Ht' := Ht). assert (Hv' := Hv).
  unfold is_word in Hm', Ht', Hv'.
  apply andb_true_iff in Hm' as [_ Hm'].
  apply andb_true_iff in Ht' as [_ Ht'].
  apply andb_true_iff in Hv' as [_ Hv'].
  rewrite (c_str_request_line m target version Hm' Ht' Hv').
  unfold request_line.
  change (m +:+ " " +:+ target +:+ " " +:+ version +:+ Str.CRLF)
    with (m +:+ String " " (target +:+ String " " (version +:+ String Str.CR (String Str.LF EmptyString)))).
  rewrite (extract_word m " " _ Hm eq_refl).
  rewrite (extract_skip " " _ eq_refl).
  rewrite (extract_word target " " _ Ht eq_refl).
  rewrite (extract_skip " " _ eq_refl).
  rewrite (extract_word version Str.CR _ Hv eq_refl).
  now destruct (split_target target).
Qed.

Lemma find_char_app p q :
  no_query p = true ->
  Str.find_char "?" (p +:+ String "?" q) = Some (String.length p).
Proof.
  unfold no_query. intros H. apply bool_decide_eq_true in H.
  induction p as [| a p IH]; simpl; [reflexivity |].
  simpl in H. destruct (Ascii.eqb a "?"); [discriminate |].
  destruct (Str.find_char "?" p); [discriminate |].
  now rewrite (IH eq_refl).
Qed.

Lemma take_app p r : Str.take (String.length p) (p +:+ r) = p.
Proof.
  induction p as [| a p IH]; simpl; [now destruct r | now rewrite IH].
Qed.

Lemma drop_app p c r : Str.drop (S (String.length p)) (p +:+ String c r) = r.
Proof.
  induction p as [| a p IH]; simpl; [now destruct r | exact IH].
Qed.

Lemma split_target_query p q :
  no_query p = true ->
  split_target (p +:+ "?" +:+ q) = (p, query_params q).
Proof.
  intros H. unfold split_target.
  change (p +:+ "?" +:+ q) with (p +:+ String "?" q).
  now rewrite (find_char_app p q H), take_app, drop_app.
Qed.

Lemma split_target_bare p : no_query p = true -> split_target p = (p, ∅).
Proof.
  unfold no_query, split_target. intros H. apply bool_decide_eq_true in H.
  now rewrite H.
Qed.

(** The target is cut at its first question mark, so what is appended after
    one more question mark never reaches the route table. *)
Lemma find_char_app_l c p q n :
  Str.find_char c p = Some n ->
  Str.find_char c (p +:+ q) = Some n /\ Str.take n (p +:+ q) = Str.take n p.
Proof.
  revert n. induction p as [| a p IH]; simpl; intros n; [discriminate |].
  destruct (Ascii.eqb a c).
  - intros [= <-]. split; reflexivity.
  - destruct (Str.find_char c p) as [n' |]; [| discriminate].
    intros [= <-]. destruct (IH n' eq_refl) as [E1 E2].
    rewrite E1. split; [reflexivity |]. simpl. now rewrite E2.
Qed.

Lemma split_target_path_stable p q :
  (split_target (p +:+ "?" +:+ q)).1 = (split_target p).1.
Proof.
  unfold split_target.
  change (p +:+ "?" +:+ q) with (p +:+ String "?" q).
  destruct (Str.find_char "?" p) as [n |] eqn:E.
  - destruct (find_char_app_l "?" p (String "?" q) n E) as [E1 E2].
    rewrite E1. exact E2.
  - rewrite (find_char_app p q); [| unfold no_query; now apply bool_decide_eq_true].
    simpl. apply take_app.
Qed.

(** C4. Route matching is string equality on method and path, after the query
    string has been cut off: the route found for a request has exactly its
    method and path, and is the first such route; a request whose method and
    path are not both equal to those of some route finds none; and a
    request line whose target is a path followed by a question mark and any
    query string is dispatched like the bare path, to the same handler, the
    query only supplying the parameters. *)
Theorem route_matching_is_exact (fs : FileSystem) (s : WebServer.t)
    (m p q version : string) :
  (forall r, find_route (routes_ s) m p = Some r ->
             In r (routes_ s) /\ method r = m /\ path r = p)
  /\ (find_route (routes_ s) m p = None <->
      forall r, In r (routes_ s) -> ~ (method r = m /\ path r = p))
  /\ (split_target (p +:+ "?" +:+ q)).1 = (split_target p).1
  /\ (is_word m = true -> is_word p = true -> no_query p = true ->
      no_space q = true -> is_word version = true ->
      handleClient fs s (Some (request_line m (p +:+ "?" +:+ q) version))
      = Some (handleRequest fs s m p (query_params q))
      /\ handleClient fs s (Some (request_line m p version))
         = Some (handleRequest fs s m p ∅)
      /\ forall r, find_route (routes_ s) m p = Some r ->
           handleClient fs s (Some (request_line m (p +:+ "?" +:+ q) version))
           = Some (with_cors (ok_head "application/json")
                             (handler r (components_ s) (query_params q)))
           /\ handleClient fs s (Some (request_line m p version))
              = Some (with_cors (ok_head "application/json")
                                (handler r (components_ s) ∅))).
Proof.
  split; [intros r; apply find_route_Some |].
  split; [apply find_route_None |].
  split; [apply split_target_path_stable |].
  intros Hm Hp Hnq Hq Hv.
  assert (Hpq : is_word (p +:+ "?" +:+ q) = true).
  { unfold is_word in *. apply andb_true_iff in Hp as [Hne Hp].
    apply andb_true_iff. split.
    - destruct p; [discriminate | reflexivity].
    - rewrite !no_space_app, Hp, Hq. reflexivity. }
  assert (E1 : handleClient fs s (Some (request_line m (p +:+ "?" +:+ q) version))
               = Some (handleRequest fs s m p (query_params q))).
  { rewrite (handleClient_request_line fs s m _ version Hm Hpq Hv).
    now rewrite (split_target_query p q Hnq). }
  assert (E2 : handleClient fs s (Some (request_line m p version))
               = Some (handleRequest fs s m p ∅)).
  { rewrite (handleClient_request_line fs s m _ version Hm Hp Hv).
    now rewrite (split_target_bare p Hnq). }
  split; [exact E1 |]. split; [exact E2 |].
  intros r Hr. rewrite E1, E2.
  now rewrite !(handleRequest_route fs s m p _ r Hr).
Qed.

Lemma route_matching_is_exact_witness :
  handleClient (fun _ => None) (new 7788)
    (Some (request_line "GET" ("/api/status" +:+ "?" +:+ "x=1") "HTTP/1.1"))
  = Some (handleRequest (fun _ => None) (new 7788) "GET" "/api/status"
            (query_params "x=1")).
Proof.
  exact (proj1 (proj2 (proj2 (proj2
           (route_matching_is_exact (fun _ => None) (new 7788)
              "GET" "/api/status" "x=1" "HTTP/1.1")))
           eq_refl eq_refl eq_refl eq_refl eq_refl)).
Defined.

(** The matches of the regex on a few query strings: empty names and pairs
    without equals sign are skipped, a second equals sign ends the value. *)
Example matches_plain :
  ParamRegex.matches "a=1&b=2&a=3" = [("a", "1"); ("b", "2"); ("a", "3")].
Proof. reflexivity. Qed.

Example matches_ragged :
  ParamRegex.matches "a=1&&c&d==e&=f&g=h=i"
  = [("a", "1"); ("d", EmptyString); ("g", "h")].
Proof. reflexivity. Qed.

(** The two scenarios of the specification, run on the server as constructed. *)
Example singular_device_is_not_devices :
  find_route setupRoutes "GET" "/api/device" = None
  /\ handleClient (fun _ => None) (new 7788)
       (Some (request_line "GET" "/api/device" "HTTP/1.1"))
     = Some (with_cors not_found_head not_found_body).
Proof. split; reflexivity. Qed.

Example status_with_query :
  handleClient (fun _ => None) (new 7788)
    (Some (request_line "GET" "/api/status?x=1" "HTTP/1.1"))
  = handleClient (fun _ => None) (new 7788)
      (Some (request_line "GET" "/api/status" "HTTP/1.1")).
Proof. reflexivity. Qed.

End WebServerFacts.
(* ===================================================================== *)
(** * Further properties of the audio engine *)
(* ===================================================================== *)

Section EngineMoreFacts.
Import AudioEngine.

Lemma lifecycle_inv_new : lifecycle_inv new.
Proof.
  split; [reflexivity |]. split; [intros _; split; reflexivity | discriminate].
Qed.

Lemma lifecycle_inv_stop (s : AudioEngine.t) :
  lifecycle_inv s -> lifecycle_inv (stop s).
Proof.
  intros (T & N & I). split; [exact T |]. split.
  - intros _. split; reflexivity.
  - intros H. destruct (I H) as (A & B & C). simpl. repeat split; auto; lia.
Qed.

Lemma lifecycle_inv_shutdown (s : AudioEngine.t) :
  lifecycle_inv s ->
  lifecycle_inv (shutdown s) /\ initialized_ (shutdown s) = false.
Proof.
  intros H. unfold shutdown. case_eq (initialized_ s); intros E; simpl.
  - split; [| reflexivity]. split; [reflexivity |].
    split; [intros _; split; reflexivity | discriminate].
  - split; [exact H | exact E].
Qed.

Lemma lifecycle_inv_processAudioBuffer (s : AudioEngine.t) :
  lifecycle_inv s -> lifecycle_inv (processAudioBuffer s).
Proof.
  intros H. unfold processAudioBuffer.
  case_eq (playing_ s); intros P; simpl; [| exact H].
  case_eq (audio_buffer_ s =? 0); intros B; simpl; [exact H |].
  destruct H as (T & N & I).
  case_eq (initialized_ s); intros E.
  - destruct (I E) as (A & Hb & C).
    split; [exact T |]. split; simpl; rewrite E; [discriminate |].
    intros _. split; [exact A |]. split; [exact Hb |].
    rewrite Hb.
    set (p := (playback_position_ s + Z.quot (sample_rate (config_ s) * 50) 1000)
                mod 2 ^ 64).
    assert (0 <= p) by (apply Z.mod_pos_bound; lia).
    destruct (264600 <=? p) eqn:L; [lia |]. apply Z.leb_gt in L. lia.
  - destruct (N E) as [Pf _]. congruence.
Qed.

Lemma lifecycle_inv_step (o : op) (s : AudioEngine.t) :
  lifecycle_inv s -> lifecycle_inv (step o s).
Proof.
  intros H. destruct o; simpl.
  - (* initialize *)
    assert (H0 : lifecycle_inv (if initialized_ s then shutdown s else s)
                 /\ initialized_ (if initialized_ s then shutdown s else s) = false).
    { case_eq (initialized_ s); intros E;
        [now apply lifecycle_inv_shutdown | auto]. }
    destruct H0 as [(T & N & I) E0]. destruct (N E0) as [Pf Pos].
    split; [reflexivity |]. split; [discriminate |].
    intros _. simpl. rewrite Pos. repeat split; lia.
  - now apply lifecycle_inv_shutdown.
  - unfold setConfig. case_eq (initialized_ s); intros E; simpl; [| exact H].
    match goal with |- context [if ?b then _ else _] => case b end; exact H.
  - unfold play. case_eq (initialized_ s); intros E; simpl; [| exact H].
    destruct H as (T & N & I). destruct (I E) as (A & B & C).
    split; [exact T |]. split; simpl; rewrite E; [discriminate |].
    intros _. repeat split; auto; lia.
  - destruct H as (T & N & I). split; [exact T |]. split.
    + intros E. destruct (N E) as [_ Pos]. split; [reflexivity | exact Pos].
    + exact I.
  - now apply lifecycle_inv_stop.
  - exact H.
  - exact H.
  - unfold tick, generateSpectrumData.
    pose proof (lifecycle_inv_processAudioBuffer s H) as H'.
    case (playing_ (processAudioBuffer s)); simpl.
    + case (visualization_callback_ (processAudioBuffer s)); simpl; exact H'.
    + exact H'.
Qed.

Lemma lifecycle_inv_run (ops : list op) (s : AudioEngine.t) :
  lifecycle_inv s -> lifecycle_inv (run ops s).
Proof.
  revert s. induction ops as [| o ops IH]; intros s H; simpl; [exact H |].
  apply IH, lifecycle_inv_step, H.
Qed.

(** X1. In every state that calls and ticks lead to from a constructed
    engine, playback implies initialisation: an engine that is not
    initialised never plays, and the thread object exists exactly while the
    engine is initialised, with [should_stop_] cleared. *)
Theorem playing_implies_initialized (ops : list op) :
  let s := run ops new in
  (isPlaying s = true -> isInitialized s = true) /\
  audio_thread_ s = isInitialized s /\
  (isInitialized s = true -> should_stop_ s = false).
Proof.
  intros s. destruct (lifecycle_inv_run ops new lifecycle_inv_new) as (T & N & I).
  fold s in T, N, I. unfold isPlaying, isInitialized. split; [| split].
  - intros P. destruct (initialized_ s) eqn:E; [reflexivity |].
    destruct (N eq_refl) as [Pf _]. congruence.
  - exact T.
  - intros E. now destruct (I E).
Qed.


Lemma idle_tick_keeps_flag (env : TickEnv) (s : AudioEngine.t) :
  playing_ s = false ->
  playing_ (tick env s) = false /\
  is_playing (getMetrics (tick env s)) = is_playing (getMetrics s).
Proof.
  intros P. unfold tick, generateSpectrumData.
  rewrite processAudioBuffer_playing, P. simpl.
  unfold processAudioBuffer. rewrite P. simpl. split; [exact P | reflexivity].
Qed.

(** X3. [pause] does not clear the playing flag of the metrics: after a tick
    of a playing engine with audio in its buffer, a pause and any number of
    further ticks, [isPlaying] is false while the snapshot still has
    [is_playing] set; only [stop] clears it. *)
Theorem pause_leaves_snapshot_playing (s : AudioEngine.t) (env : TickEnv)
    (later : list TickEnv) :
  isPlaying s = true -> audio_buffer_ s <> 0 ->
  let s' := run (OpTick env :: OpPause :: map OpTick later) s in
  isPlaying s' = false /\
  is_playing (getMetrics s') = true /\
  is_playing (getMetrics (stop s')) = false.
Proof.
  intros P B s'. unfold isPlaying in *.
  assert (H1 : is_playing (getMetrics (pause (tick env s))) = true
               /\ playing_ (pause (tick env s)) = false).
  { unfold tick, generateSpectrumData, processAudioBuffer.
    rewrite P. apply Z.eqb_neq in B. rewrite B. simpl. rewrite P. simpl.
    destruct (visualization_callback_ s); split; reflexivity. }
  assert (G : forall l t, playing_ t = false -> is_playing (getMetrics t) = true ->
              playing_ (run (map OpTick l) t) = false /\
              is_playing (getMetrics (run (map OpTick l) t)) = true).
  { induction l as [| e l IH]; intros t Pt Ft; simpl; [auto |].
    destruct (idle_tick_keeps_flag e t Pt) as [P2 F2].
    apply IH; [exact P2 | now rewrite F2]. }
  destruct H1 as [F1 P1].
  destruct (G later _ P1 F1) as [P' F'].
  change s' with (run (map OpTick later) (pause (tick env s))).
  repeat split; assumption.
Qed.

Lemma pause_leaves_snapshot_playing_witness :
  is_playing (getMetrics
    (run (OpTick quiet_env :: OpPause :: map OpTick [quiet_env])
         (play (snd (initialize default_config new))))) = true.
Proof.
  exact (proj1 (proj2 (pause_leaves_snapshot_playing
                         (play (snd (initialize default_config new)))
                         quiet_env [quiet_env] eq_refl
                         ltac:(discriminate)))).
Defined.

(** X4. The visualisation callback is called by a tick exactly when the
    engine plays and a callback is installed, once, with the spectrum that
    the snapshot holds after the tick; no other call of the engine invokes
    it. *)
Theorem visualization_once_per_playing_tick (o : op) (s : AudioEngine.t) :
  visualized_ (step o s) =
  match o with
  | OpTick env =>
      if playing_ s && visualization_callback_ s
      then visualized_ s ++ [spectrum_data (getMetrics (tick env s))]
      else visualized_ s
  | _ => visualized_ s
  end.
Proof.
  destruct o; simpl; try reflexivity.
  - destruct (initialized_ s) eqn:E; simpl; [| reflexivity].
    unfold shutdown. rewrite E. reflexivity.
  - unfold shutdown. destruct (initialized_ s); reflexivity.
  - unfold setConfig. destruct (initialized_ s); simpl; [| reflexivity].
    match goal with |- context [if ?b then _ else _] => destruct b end; reflexivity.
  - unfold play. destruct (initialized_ s); reflexivity.
  - unfold tick, generateSpectrumData.
    rewrite processAudioBuffer_playing.
    assert (V : visualized_ (processAudioBuffer s) = visualized_ s
                /\ visualization_callback_ (processAudioBuffer s)
                   = visualization_callback_ s).
    { unfold processAudioBuffer.
      destruct (negb (playing_ s) || (audio_buffer_ s =? 0)); split; reflexivity. }
    destruct V as [V1 V2].
    destruct (playing_ s); simpl; [| exact V1].
    rewrite V2. destruct (visualization_callback_ s); simpl; [| exact V1].
    now rewrite V1.
Qed.



Lemma latency_accuracy_cases (sr bs : Z) :
  In sr [44100; 48000; 88200; 96000; 192000] -> In bs pow2_in_range ->
  exists q, IEEE.value (buffer_latency_ms (mkAudioConfig sr bs 0 0)) = Some q /\
            Qle_bool (Qabs (q - exact_latency_ms (mkAudioConfig sr bs 0 0)))
                     (1 # 2 ^ 45) = true.
Proof.
  intros Hsr Hbs. simpl in Hsr, Hbs.
  repeat (destruct Hsr as [<- | Hsr]);
    try (destruct Hsr);
    repeat (destruct Hbs as [<- | Hbs]);
    try (destruct Hbs);
    (eexists; split; [vm_compute; reflexivity |]; vm_compute; reflexivity).
Qed.

(** X6. For every valid (sample rate, buffer size) pair the latency written
    by [calculateLatency] is a finite [double] whose value differs from the
    rational number [bufferSize * 1000 / sampleRate] by at most 2^-45. *)
Theorem latency_accuracy (s : AudioEngine.t) :
  valid_pair (getConfig s) ->
  exists q : Q,
    IEEE.value (input_latency (getMetrics (calculateLatency s))) = Some q /\
    (Qabs (q - exact_latency_ms (getConfig s)) <= 1 # 2 ^ 45)%Q.
Proof.
  intros Hv. destruct (valid_pair_cases _ Hv) as [Hsr Hbs].
  destruct (latency_accuracy_cases _ _ Hsr Hbs) as (q & Hq & C).
  exists q. split; [exact Hq |]. apply Qle_bool_iff. exact C.
Qed.

Lemma latency_accuracy_witness :
  exists q : Q,
    IEEE.value (input_latency (getMetrics (calculateLatency new))) = Some q /\
    (Qabs (q - exact_latency_ms (getConfig new)) <= 1 # 2 ^ 45)%Q.
Proof. exact (latency_accuracy new (conj eq_refl eq_refl)). Defined.

End EngineMoreFacts.
(* ===================================================================== *)
(** * Further properties of the configuration manager *)
(* ===================================================================== *)

Section ConfigManagerMoreFacts.
Import ConfigManager.

(** X7. Saving a valid profile for a device makes exactly that profile the
    one found for the device and leaves the profiles of all other devices
    and the system configuration as they were; an invalid profile is
    refused and nothing changes. *)
Theorem saveDeviceProfile_roundtrip (d : Z) (c : AudioConfig) (cm : ConfigManager.t) :
  let r := saveDeviceProfile d c cm in
  if validateAudioConfig c
  then fst r = true /\
       hasDeviceProfile d (snd r) = true /\
       getDeviceProfile d (snd r) = c /\
       (forall d', d' <> d ->
          hasDeviceProfile d' (snd r) = hasDeviceProfile d' cm /\
          getDeviceProfile d' (snd r) = getDeviceProfile d' cm) /\
       getSystemConfig (snd r) = getSystemConfig cm /\
       notified_ (snd r) = notified_ cm
  else r = (false, cm).
Proof.
  cbv zeta. unfold saveDeviceProfile.
  destruct (validateAudioConfig c); simpl; [| reflexivity].
  unfold hasDeviceProfile, getDeviceProfile. simpl.
  rewrite lookup_insert_eq. split; [reflexivity |].
  split; [apply bool_decide_eq_true; eauto |]. split; [reflexivity |].
  split; [| split; reflexivity].
  intros d' Hd. now rewrite lookup_insert_ne by congruence.
Qed.

(** X8. Removing the profile of a device makes the manager answer for that
    device as if no profile had ever been saved: [hasDeviceProfile] is false
    and [getDeviceProfile] gives the default audio configuration; the other
    devices keep their profiles. *)
Theorem removeDeviceProfile_forgets (d : Z) (cm : ConfigManager.t) :
  hasDeviceProfile d (removeDeviceProfile d cm) = false /\
  getDeviceProfile d (removeDeviceProfile d cm) = getDefaultAudioConfig /\
  (forall d', d' <> d ->
     hasDeviceProfile d' (removeDeviceProfile d cm) = hasDeviceProfile d' cm /\
     getDeviceProfile d' (removeDeviceProfile d cm) = getDeviceProfile d' cm).
Proof.
  unfold hasDeviceProfile, getDeviceProfile, removeDeviceProfile. simpl.
  rewrite lookup_delete_eq.
  split; [apply bool_decide_eq_false; intros [x Hx]; discriminate Hx |].
  split; [reflexivity |].
  intros d' Hd. now rewrite lookup_delete_ne by congruence.
Qed.

Lemma notifyConfigChanged_fields (cm : ConfigManager.t) :
  system_config_ (notifyConfigChanged cm) = system_config_ cm /\
  device_profiles_ (notifyConfigChanged cm) = device_profiles_ cm /\
  config_change_callback_ (notifyConfigChanged cm) = config_change_callback_ cm.
Proof.
  unfold notifyConfigChanged.
  case_eq (config_change_callback_ cm); intros E; simpl; auto.
Qed.

Lemma profiles_valid_step (o : op) (cm : ConfigManager.t) :
  profiles_valid cm -> profiles_valid (step o cm).
Proof.
  intros H. destruct o; simpl.
  - unfold setSystemConfig. destruct (validateConfig c); simpl; [| exact H].
    intros d a. destruct (notifyConfigChanged_fields (set_system_config c cm))
      as (_ & -> & _). apply H.
  - unfold setAudioConfig. destruct (validateAudioConfig c); simpl; [| exact H].
    intros d a.
    destruct (notifyConfigChanged_fields
                (set_system_config (with_audio c (system_config_ cm)) cm))
      as (_ & -> & _). apply H.
  - unfold saveDeviceProfile. destruct (validateAudioConfig c) eqn:V; simpl;
      [| exact H].
    intros d a. simpl. destruct (decide (d = device_id)) as [-> | Hne].
    + rewrite lookup_insert_eq. intros [= <-]. exact V.
    + rewrite lookup_insert_ne by congruence. apply H.
  - intros d a. simpl. destruct (decide (d = device_id)) as [-> | Hne].
    + rewrite lookup_delete_eq. discriminate.
    + rewrite lookup_delete_ne by congruence. apply H.
  - intros d a. unfold setActiveDevice.
    match goal with |- context [notifyConfigChanged ?x] =>
      destruct (notifyConfigChanged_fields x) as (_ & -> & _) end. apply H.
  - intros d a. unfold setCurrentAudioFile.
    match goal with |- context [notifyConfigChanged ?x] =>
      destruct (notifyConfigChanged_fields x) as (_ & -> & _) end. apply H.
  - exact H.
  - intros d a. unfold resetToDefaults.
    match goal with |- context [notifyConfigChanged ?x] =>
      destruct (notifyConfigChanged_fields x) as (_ & -> & _) end.
    simpl. rewrite lookup_empty. discriminate.
Qed.

Lemma profiles_valid_run (ops : list op) (cm : ConfigManager.t) :
  profiles_valid cm -> profiles_valid (run ops cm).
Proof.
  revert cm. induction ops as [| o ops IH]; intros cm H; simpl; [exact H |].
  apply IH, profiles_valid_step, H.
Qed.

(** X9. Whatever calls are made on a constructed manager, the profile that
    [getDeviceProfile] returns for any device passes [validateAudioConfig]:
    only validated profiles are stored, and the default that stands in for a
    missing one is valid. *)
Theorem getDeviceProfile_always_valid (ops : list op) (d : Z) :
  validateAudioConfig (getDeviceProfile d (run ops new)) = true.
Proof.
  assert (H : profiles_valid (run ops new)).
  { apply profiles_valid_run. intros d' c E. simpl in E.
    rewrite lookup_empty in E. discriminate E. }
  unfold getDeviceProfile. destruct (device_profiles_ (run ops new) !! d) eqn:E.
  - exact (H d a E).
  - reflexivity.
Qed.

Lemma validateConfig_step (o : op) (cm : ConfigManager.t) :
  match o with OpSetActiveDevice d => -1 <= d | _ => True end ->
  validateConfig (system_config_ cm) = true ->
  validateConfig (system_config_ (step o cm)) = true.
Proof.
  intros Ho H. destruct o; simpl.
  - unfold setSystemConfig. destruct (validateConfig c) eqn:V; simpl; [| exact H].
    destruct (notifyConfigChanged_fields (set_system_config c cm)) as (-> & _).
    exact V.
  - unfold setAudioConfig. destruct (validateAudioConfig c) eqn:V; simpl; [| exact H].
    match goal with |- context [notifyConfigChanged ?x] =>
      destruct (notifyConfigChanged_fields x) as (-> & _) end.
    simpl. unfold validateConfig in *. simpl. rewrite V.
    apply andb_true_iff in H as [_ H]. exact H.
  - unfold saveDeviceProfile. destruct (validateAudioConfig c); exact H.
  - exact H.
  - unfold setActiveDevice.
    match goal with |- context [notifyConfigChanged ?x] =>
      destruct (notifyConfigChanged_fields x) as (-> & _) end.
    simpl. unfold validateConfig in *. simpl.
    apply andb_true_iff in H as [H _]. rewrite H. simpl. apply Z.leb_le. exact Ho.
  - unfold setCurrentAudioFile.
    match goal with |- context [notifyConfigChanged ?x] =>
      destruct (notifyConfigChanged_fields x) as (-> & _) end.
    exact H.
  - exact H.
  - unfold resetToDefaults.
    match goal with |- context [notifyConfigChanged ?x] =>
      destruct (notifyConfigChanged_fields x) as (-> & _) end.
    reflexivity.
Qed.

(** X10. As long as [setActiveDevice] is never called with an id below -1,
    the system configuration held by a manager passes [validateConfig] after
    any sequence of calls; [setActiveDevice] itself checks nothing, so the
    condition on its argument is what keeps the stored configuration
    acceptable to [setSystemConfig]. *)
Theorem stored_config_stays_valid (ops : list op) :
  active_ids_ok ops ->
  validateConfig (getSystemConfig (run ops new)) = true.
Proof.
  unfold getSystemConfig. intros H.
  assert (G : forall cm, validateConfig (system_config_ cm) = true ->
                         validateConfig (system_config_ (run ops cm)) = true).
  { induction H as [| o ops Ho Hops IH]; intros cm Hcm; simpl; [exact Hcm |].
    apply IH, validateConfig_step; assumption. }
  apply G. reflexivity.
Qed.

Lemma stored_config_stays_valid_witness :
  validateConfig
    (getSystemConfig (run [OpSetActiveDevice 3; OpSetCurrentAudioFile "a.wav"] new))
  = true.
Proof.
  apply stored_config_stays_valid.
  constructor; [simpl; lia |]. constructor; [exact I |]. constructor.
Defined.

(** [setActiveDevice] with an id below -1 stores a configuration that
    [setSystemConfig] would refuse. *)
Example setActiveDevice_unchecked :
  validateConfig (getSystemConfig (setActiveDevice (-2) new)) = false /\
  fst (setSystemConfig (getSystemConfig (setActiveDevice (-2) new)) new) = false.
Proof. split; reflexivity. Qed.




End ConfigManagerMoreFacts.
(* ===================================================================== *)
(** * Numbers and lines in the configuration file *)
(* ===================================================================== *)

Section TextFacts.
#[local] Arguments String.append : simpl nomatch.

Lemma append_assoc' (a b c : string) : (a +:+ b) +:+ c = a +:+ (b +:+ c).
Proof. induction a as [| x a IH]; simpl; [reflexivity | now rewrite IH]. Qed.

Lemma is_digit_char (c : ascii) :
  Text.is_digit c = true ->
  Str.isspace c = false /\ Text.is_blank c = false /\
  Ascii.eqb c "-"%char = false /\ Ascii.eqb c "+"%char = false /\
  Ascii.eqb c Str.LF = false /\ 0 <= Text.digit_value c <= 9.
Proof.
  destruct c as [[] [] [] [] [] [] [] []]; intros H; try discriminate H;
    vm_compute; repeat split; congruence.
Qed.

(** The ten digit characters of [pretty], checked one by one. *)
Lemma pretty_N_char_table :
  forallb (fun k => let n := N.of_nat k in
                    Text.is_digit (pretty_N_char n) &&
                    (Text.digit_value (pretty_N_char n) =? Z.of_N n))
          (seq 0 10) = true.
Proof. vm_compute. reflexivity. Qed.

Lemma pretty_N_char_digit (n : N) :
  (n < 10)%N ->
  Text.is_digit (pretty_N_char n) = true /\
  Text.digit_value (pretty_N_char n) = Z.of_N n.
Proof.
  intros H. pose proof pretty_N_char_table as A.
  rewrite forallb_forall in A. specialize (A (N.to_nat n)).
  assert (Hin : In (N.to_nat n) (seq 0 10)) by (apply in_seq; lia).
  specialize (A Hin). cbv zeta in A. rewrite N2Nat.id in A.
  apply andb_true_iff in A as [A1 A2]. apply Z.eqb_eq in A2. auto.
Qed.

Lemma read_digits_app (d s : string) (acc : Z) :
  all_digits d = true ->
  Text.read_digits acc (d +:+ s) = Text.read_digits (Text.read_digits acc d) s.
Proof.
  revert acc. induction d as [| c d IH]; intros acc H; simpl; [reflexivity |].
  simpl in H. apply andb_true_iff in H as [Hc Hd]. rewrite Hc. now apply IH.
Qed.

Lemma all_digits_app (a b : string) :
  all_digits a = true -> all_digits b = true -> all_digits (a +:+ b) = true.
Proof.
  induction a as [| c a IH]; simpl; intros Ha Hb; [exact Hb |].
  apply andb_true_iff in Ha as [Hc Ha]. rewrite Hc. now apply IH.
Qed.

(** The digits that [pretty] writes for a natural number, put before [s]. *)
Lemma pretty_N_go_digits (x : N) (s : string) :
  exists d, pretty_N_go x s = d +:+ s /\ all_digits d = true /\
            Text.read_digits 0 d = Z.of_N x /\ ((0 < x)%N -> d <> EmptyString).
Proof.
  revert s. induction (N.lt_wf_0 x) as [x _ IH]. intros s.
  assert (x = 0 \/ 0 < x)%N as [-> | Hx] by lia.
  - exists EmptyString. rewrite pretty_N_go_0. repeat split. lia.
  - rewrite pretty_N_go_step by exact Hx.
    assert (Hlt : (x `div` 10 < x)%N) by (apply N.div_lt; lia).
    destruct (IH _ Hlt (String (pretty_N_char (x `mod` 10)) s))
      as (d & E & D & V & _).
    assert (Hm : (x `mod` 10 < 10)%N) by (apply N.mod_lt; lia).
    destruct (pretty_N_char_digit _ Hm) as [Dc Vc].
    exists (d +:+ String (pretty_N_char (x `mod` 10)) EmptyString).
    rewrite E, append_assoc'. simpl. split; [reflexivity |]. split; [| split].
    + apply all_digits_app; [exact D |]. simpl. now rewrite Dc.
    + rewrite read_digits_app by exact D. rewrite V. simpl. rewrite Dc, Vc.
      pose proof (N.div_mod x 10 ltac:(lia)). lia.
    + intros _. destruct d; discriminate.
Qed.

Lemma pretty_pos_digits (p : positive) :
  exists c d, pretty (Z.pos p) = String c d /\
              all_digits (String c d) = true /\
              Text.read_digits 0 (String c d) = Z.pos p.
Proof.
  destruct (pretty_N_go_digits (N.pos p) EmptyString) as (d & E & D & V & NE).
  assert (E' : pretty (Z.pos p) = d).
  { unfold pretty, pretty_Z, pretty, pretty_positive, pretty, pretty_N.
    destruct (decide (N.pos p = 0%N)) as [H | _]; [discriminate H |].
    rewrite E. clear. induction d as [| c d IH]; simpl; [reflexivity | now rewrite IH]. }
  destruct d as [| c d]; [exfalso; apply NE; [reflexivity | reflexivity] |].
  exists c, d. rewrite E'. repeat split; [exact D | exact V].
Qed.

Lemma pretty_neg (p : positive) :
  pretty (Z.neg p) = String "-"%char (pretty (Z.pos p)).
Proof. reflexivity. Qed.

(** Reading back an [int] as the stream operator writes it. *)
Lemma stoi_pretty (z : Z) : is_int z -> Text.stoi (pretty z) = Some z.
Proof.
  unfold is_int, Text.INT_MIN, Text.INT_MAX. intros R.
  destruct z as [| p | p].
  - reflexivity.
  - destruct (pretty_pos_digits p) as (c & d & E & D & V). rewrite E.
    pose proof D as D'. simpl in D'. apply andb_true_iff in D' as [Dc _].
    destruct (is_digit_char c Dc) as (S1 & _ & S2 & S3 & _).
    unfold Text.stoi. simpl Str.skip_ws. rewrite S1, S2, S3, Dc, V. unfold Text.INT_MIN, Text.INT_MAX.
    destruct (_ <=? _) eqn:A; [destruct (Z.pos p <=? _) eqn:B |]; simpl;
      [reflexivity | apply Z.leb_gt in B; lia | apply Z.leb_gt in A; lia].
  - rewrite pretty_neg.
    destruct (pretty_pos_digits p) as (c & d & E & D & V). rewrite E.
    pose proof D as D'. simpl in D'. apply andb_true_iff in D' as [Dc _].
    unfold Text.stoi. simpl Str.skip_ws.
    cbv beta iota delta [Ascii.eqb Bool.eqb andb].
    rewrite Dc, V. change (- Z.pos p) with (Z.neg p).
    unfold Text.INT_MIN, Text.INT_MAX.
    destruct (_ <=? _) eqn:A; [destruct (Z.neg p <=? _) eqn:B |]; simpl;
      [reflexivity | apply Z.leb_gt in B; lia | apply Z.leb_gt in A; lia].
Qed.

Lemma trim_right_digits (d : string) :
  all_digits d = true -> Text.trim_right d = d.
Proof.
  induction d as [| c d IH]; simpl; intros H; [reflexivity |].
  apply andb_true_iff in H as [Hc Hd]. rewrite (IH Hd).
  destruct (is_digit_char c Hc) as (_ & B & _). rewrite B.
  destruct d; reflexivity.
Qed.

Lemma trim_pretty (z : Z) : Text.trim (pretty z) = pretty z.
Proof.
  destruct z as [| p | p].
  - reflexivity.
  - destruct (pretty_pos_digits p) as (c & d & E & D & V). rewrite E.
    pose proof D as D'. simpl in D'. apply andb_true_iff in D' as [Dc _].
    destruct (is_digit_char c Dc) as (_ & B & _).
    unfold Text.trim. simpl Text.trim_left. rewrite B. now apply trim_right_digits.
  - rewrite pretty_neg.
    destruct (pretty_pos_digits p) as (c & d & E & D & V). rewrite E.
    unfold Text.trim. simpl Text.trim_left.
    change (Text.trim_right (String "-" (String c d)))
      with (match Text.trim_right (String c d) with
            | EmptyString => String "-"%char EmptyString
            | t => String "-"%char t end).
    rewrite (trim_right_digits _ D). reflexivity.
Qed.

Lemma no_lf_digits (d : string) : all_digits d = true -> no_lf d = true.
Proof.
  induction d as [| c d IH]; simpl; intros H; [reflexivity |].
  apply andb_true_iff in H as [Hc Hd].
  destruct (is_digit_char c Hc) as (_ & _ & _ & _ & L & _). rewrite L. simpl. auto.
Qed.

Lemma no_lf_pretty (z : Z) : no_lf (pretty z) = true.
Proof.
  destruct z as [| p | p].
  - reflexivity.
  - destruct (pretty_pos_digits p) as (c & d & E & D & V). rewrite E.
    now apply no_lf_digits.
  - rewrite pretty_neg.
    destruct (pretty_pos_digits p) as (c & d & E & D & V). rewrite E.
    change (no_lf (String "-" (String c d))) with (no_lf (String c d)).
    now apply no_lf_digits.
Qed.

Lemma no_lf_app (a b : string) :
  no_lf a = true -> no_lf b = true -> no_lf (a +:+ b) = true.
Proof.
  induction a as [| c a IH]; simpl; intros Ha Hb; [exact Hb |].
  apply andb_true_iff in Ha as [Hc Ha]. rewrite Hc. simpl. now apply IH.
Qed.

Lemma getlines_line (s rest : string) :
  no_lf s = true ->
  Text.getlines (ConfigIO.line s +:+ rest) = s :: Text.getlines rest.
Proof.
  unfold ConfigIO.line. induction s as [| c s IH]; simpl; intros H.
  - reflexivity.
  - apply andb_true_iff in H as [Hc Hs]. apply negb_true_iff in Hc.
    rewrite Hc, (IH Hs). reflexivity.
Qed.

Lemma getlines_last (s : string) :
  no_lf s = true -> Text.getlines (ConfigIO.line s) = [s].
Proof.
  unfold ConfigIO.line. induction s as [| c s IH]; simpl; intros H.
  - reflexivity.
  - apply andb_true_iff in H as [Hc Hs]. apply negb_true_iff in Hc.
    rewrite Hc, (IH Hs). reflexivity.
Qed.

End TextFacts.

(* ===================================================================== *)
(** * Further properties: the configuration file *)
(* ===================================================================== *)

Section ConfigFileFacts.
Import ConfigManager ConfigIO.
#[local] Arguments String.append : simpl nomatch.

Lemma process_line_int (key : string) (v : Z) (sc : SystemConfig) :
  is_int v ->
  In key ["sample_rate="; "buffer_size="; "bit_depth="; "channels=";
          "active_device_id="] ->
  process_line (key +:+ pretty v) sc =
  Some (if String.eqb key "sample_rate=" then with_sample_rate v sc
        else if String.eqb key "buffer_size=" then with_buffer_size v sc
        else if String.eqb key "bit_depth=" then with_bit_depth v sc
        else if String.eqb key "channels=" then with_channels v sc
        else with_active_device v sc).
Proof.
  intros Hv Hk. simpl in Hk.
  repeat (destruct Hk as [<- | Hk];
          [unfold process_line; simpl; rewrite trim_pretty, (stoi_pretty v Hv);
           reflexivity |]).
  destruct Hk.
Qed.

Lemma process_line_file (f : string) (sc : SystemConfig) :
  process_line ("current_audio_file=" +:+ f) sc
  = Some (with_audio_file (Text.trim f) sc).
Proof. reflexivity. Qed.

(** The lines of a saved configuration, read back one after the other. *)
Lemma process_lines_config_text (sc sc0 : SystemConfig) :
  int_fields sc -> no_lf (current_audio_file sc) = true ->
  process_lines (Text.getlines (config_text sc)) sc0 = (reloaded sc sc0, false).
Proof.
  intros (H1 & H2 & H3 & H4 & H5) H6. unfold config_text, reloaded.
  assert (K : forall k (z : Z), no_lf k = true -> no_lf (k +:+ pretty z) = true).
  { intros k z Hk. apply no_lf_app; [exact Hk | apply no_lf_pretty]. }
  rewrite !getlines_line
    by first [ reflexivity | apply K; reflexivity
             | apply no_lf_app; [reflexivity | exact H6] ].
  rewrite getlines_last by (apply no_lf_app; [reflexivity | exact H6]).
  cbn [process_lines].
  change (process_line "# CyberASIO Core Configuration" sc0) with (Some sc0).
  cbv iota beta.
  change (process_line
            "# Generated automatically - do not edit while application is running"
            sc0) with (Some sc0).
  cbv iota beta.
  change (process_line EmptyString sc0) with (Some sc0). cbv iota beta.
  change (process_line "# Audio Configuration" sc0) with (Some sc0).
  cbv iota beta.
  rewrite (process_line_int "sample_rate=" _ _ H1) by (simpl; tauto).
  rewrite (process_line_int "buffer_size=" _ _ H2) by (simpl; tauto).
  rewrite (process_line_int "bit_depth=" _ _ H3) by (simpl; tauto).
  rewrite (process_line_int "channels=" _ _ H4) by (simpl; tauto).
  cbn [String.eqb Ascii.eqb Bool.eqb].
  match goal with |- context [process_line EmptyString ?x] =>
    change (process_line EmptyString x) with (Some x) end.
  cbv iota beta.
  match goal with |- context [process_line "# System Configuration" ?x] =>
    change (process_line "# System Configuration" x) with (Some x) end.
  cbv iota beta.
  rewrite (process_line_int "active_device_id=" _ _ H5) by (simpl; tauto).
  rewrite process_line_file.
  cbn [String.eqb Ascii.eqb Bool.eqb].
  destruct sc as [[sr bs bd ch] ad f a p]. reflexivity.
Qed.

(** X12. A configuration written by [saveToFile] is read back by
    [loadFromFile]: the load returns true and the manager then holds the
    four audio fields and the active device id that were saved, and the
    saved file name without leading and trailing blanks; [auto_save] and the
    configuration path are not in the file and stay as the loading manager
    had them. Nothing is validated on the way: any [int] values come back. *)
Theorem save_then_load (writable : string -> bool) (fs : string -> option string)
    (filepath : string) (cm cm0 : ConfigManager.t) :
  writable filepath = true ->
  int_fields (getSystemConfig cm) ->
  no_lf (getCurrentAudioFile cm) = true ->
  let saved := saveToFile writable fs filepath cm in
  fst saved = true /\
  loadFromFile (snd saved) filepath cm0 =
  Returned true
    (set_system_config (reloaded (getSystemConfig cm) (getSystemConfig cm0)) cm0).
Proof.
  unfold getSystemConfig, getCurrentAudioFile. intros W Hi Hn. cbv zeta.
  unfold saveToFile. rewrite W. simpl. split; [reflexivity |].
  unfold loadFromFile. rewrite String.eqb_refl.
  rewrite (process_lines_config_text _ (system_config_ cm0) Hi Hn).
  reflexivity.
Qed.

Lemma save_then_load_witness :
  loadFromFile (snd (saveToFile (fun _ => true) (fun _ => None) "config.txt"
                                ConfigManager.new))
               "config.txt" ConfigManager.new
  = Returned true ConfigManager.new.
Proof.
  exact (proj2 (save_then_load (fun _ => true) (fun _ => None) "config.txt"
                  ConfigManager.new ConfigManager.new eq_refl
                  ltac:(repeat split; vm_compute; discriminate) eq_refl)).
Defined.

Lemma process_line_frame (l : string) (sc sc' : SystemConfig) :
  process_line l sc = Some sc' ->
  auto_save sc' = auto_save sc /\ config_file_path sc' = config_file_path sc.
Proof.
  unfold process_line. destruct l as [| c l]; [now intros [= <-] |].
  destruct (Ascii.eqb c "#"); [now intros [= <-] |].
  destruct (Str.find_char "=" (String c l)) as [n |]; [| now intros [= <-]].
  repeat match goal with
         | |- context [if ?b then _ else _] => destruct b
         end;
    try (destruct (Text.stoi _); simpl; [| discriminate]);
    intros [= <-]; split; reflexivity.
Qed.

Lemma process_lines_frame (ls : list string) (sc : SystemConfig) :
  auto_save (fst (process_lines ls sc)) = auto_save sc /\
  config_file_path (fst (process_lines ls sc)) = config_file_path sc.
Proof.
  revert sc. induction ls as [| l ls IH]; intros sc; simpl; [auto |].
  destruct (process_line l sc) as [sc' |] eqn:E; simpl; [| auto].
  destruct (process_line_frame l sc sc' E) as [A B].
  destruct (IH sc') as [A' B']. rewrite A', B'. auto.
Qed.

(** X13. [loadFromFile] touches the system configuration only: whatever the
    file holds, and whether the load returns or throws, the device profiles,
    the installed callback and the list of notifications made are as
    before, so observers are not told about loaded values, and the fields
    [auto_save] and [config_file_path] keep their values. *)
Theorem loadFromFile_frame (fs : string -> option string) (filepath : string)
    (cm : ConfigManager.t) :
  let cm' := manager_after (loadFromFile fs filepath cm) in
  device_profiles_ cm' = device_profiles_ cm /\
  config_change_callback_ cm' = config_change_callback_ cm /\
  notified_ cm' = notified_ cm /\
  auto_save (getSystemConfig cm') = auto_save (getSystemConfig cm) /\
  config_file_path (getSystemConfig cm') = config_file_path (getSystemConfig cm).
Proof.
  cbv zeta. unfold loadFromFile, getSystemConfig.
  destruct (fs filepath) as [content |]; simpl; [| auto 6].
  destruct (String.eqb content EmptyString); simpl; [auto 6 |].
  pose proof (process_lines_frame (Text.getlines content) (system_config_ cm))
    as [A B].
  destruct (process_lines (Text.getlines content) (system_config_ cm))
    as [sc threw]. simpl in A, B.
  destruct threw; simpl; auto 6.
Qed.

Lemma process_lines_app (l1 l2 : list string) (sc sc1 : SystemConfig) :
  process_lines l1 sc = (sc1, false) ->
  process_lines (l1 ++ l2) sc = process_lines l2 sc1.
Proof.
  revert sc. induction l1 as [| l l1 IH]; intros sc; simpl.
  - now intros [= <-].
  - destruct (process_line l sc) as [sc' |]; [apply IH | discriminate].
Qed.

(** X14. A load is not all-or-nothing: when a line of the file makes
    [std::stoi] throw, the lines before it have already been applied, and the
    manager is left holding their values while the exception leaves
    [loadFromFile]. *)
Theorem load_keeps_lines_before_throw (fs : string -> option string)
    (filepath good bad rest : string) (cm : ConfigManager.t)
    (sc1 : SystemConfig) :
  no_lf good = true -> no_lf bad = true ->
  fs filepath = Some (line good +:+ line bad +:+ rest) ->
  process_line good (getSystemConfig cm) = Some sc1 ->
  process_line bad sc1 = None ->
  loadFromFile fs filepath cm = Thrown (set_system_config sc1 cm).
Proof.
  unfold getSystemConfig. intros Hg Hb Hf Pg Pb. unfold loadFromFile. rewrite Hf.
  assert (NE : String.eqb (line good +:+ line bad +:+ rest) EmptyString = false).
  { unfold line. destruct good; reflexivity. }
  rewrite NE, !getlines_line by assumption.
  cbn [process_lines]. rewrite Pg, Pb. reflexivity.
Qed.

Lemma load_keeps_lines_before_throw_witness :
  loadFromFile
    (fun _ => Some (line "channels=6" +:+ line "sample_rate=fast" +:+ EmptyString))
    "config.txt" ConfigManager.new
  = Thrown (set_system_config
              (with_channels 6 getDefaultSystemConfig) ConfigManager.new).
Proof.
  exact (load_keeps_lines_before_throw _ "config.txt" "channels=6"
           "sample_rate=fast" EmptyString ConfigManager.new
           (with_channels 6 getDefaultSystemConfig)
           eq_refl eq_refl eq_refl eq_refl eq_refl).
Defined.

End ConfigFileFacts.
(* ===================================================================== *)
(** * Properties of the device manager *)
(* ===================================================================== *)

Section DeviceManagerFacts.
Import Devices.

(** X15. The conversions between the device enumerations and their names are
    inverse to each other on the enumeration side: converting a type or a
    status to its string and back gives the value started from. *)
Theorem device_enum_string_roundtrip (ty : DeviceType) (st : DeviceStatus) :
  stringToDeviceType (deviceTypeToString ty) = ty /\
  stringToDeviceStatus (deviceStatusToString st) = st.
Proof. destruct ty, st; split; reflexivity. Qed.

Lemma find_device_id (x : Z) (l : list AudioDevice) (d : AudioDevice) :
  find_device x l = Some d -> id d = x.
Proof.
  induction l as [| a l IH]; simpl; [discriminate |].
  destruct (id a =? x) eqn:E; [| exact IH].
  intros [= <-]. now apply Z.eqb_eq.
Qed.

Lemma find_update_first (x y : Z) (st : DeviceStatus) (l : list AudioDevice) :
  find_device x (update_first y st l)
  = if x =? y then option_map (with_status st) (find_device x l)
    else find_device x l.
Proof.
  induction l as [| a l IH]; simpl.
  - now destruct (x =? y).
  - destruct (id a =? y) eqn:Ey; simpl.
    + apply Z.eqb_eq in Ey. destruct (x =? y) eqn:Exy.
      * apply Z.eqb_eq in Exy. subst. now rewrite Z.eqb_refl.
      * apply Z.eqb_neq in Exy.
        destruct (id a =? x) eqn:Ex; [apply Z.eqb_eq in Ex; congruence |].
        reflexivity.
    + destruct (id a =? x) eqn:Ex.
      * apply Z.eqb_eq in Ex. apply Z.eqb_neq in Ey.
        destruct (x =? y) eqn:Exy; [apply Z.eqb_eq in Exy; congruence |].
        reflexivity.
      * exact IH.
Qed.

Lemma getDevice_updateDeviceStatus (x y : Z) (st : DeviceStatus) (dm : Devices.t) :
  getDevice x (updateDeviceStatus y st dm)
  = if x =? y then option_map (with_status st) (getDevice x dm)
    else getDevice x dm.
Proof. unfold getDevice, updateDeviceStatus. simpl. apply find_update_first. Qed.

Lemma status_updateDeviceStatus (x y : Z) (st : DeviceStatus) (dm : Devices.t) :
  getDeviceStatus x (updateDeviceStatus y st dm)
  = if x =? y then st else getDeviceStatus x dm.
Proof.
  unfold getDeviceStatus, updateDeviceStatus. simpl.
  destruct (x =? y) eqn:E.
  - apply Z.eqb_eq in E. subst. now rewrite lookup_insert_eq.
  - apply Z.eqb_neq in E. now rewrite lookup_insert_ne by congruence.
Qed.

Lemma active_updateDeviceStatus (y : Z) (st : DeviceStatus) (dm : Devices.t) :
  active_device_id_ (updateDeviceStatus y st dm) = active_device_id_ dm.
Proof. reflexivity. Qed.

Lemma DeviceStatus_eqb_eq (a b : DeviceStatus) :
  DeviceStatus_eqb a b = true <-> a = b.
Proof. destruct a, b; simpl; split; congruence. Qed.

(** X16. [activateDevice] either refuses and changes nothing, when there is
    no device with the id or the device is Disabled, or it succeeds, and
    then the device is the active one, Active both in the device table and
    in the status map, and the device that was active before, if it is
    another one, has status Inactive. *)
Theorem activateDevice_spec (device_id : Z) (dm : Devices.t) :
  let r := activateDevice device_id dm in
  match getDevice device_id dm with
  | None => r = (false, dm)
  | Some d =>
      if DeviceStatus_eqb (status d) Disabled then r = (false, dm)
      else fst r = true /\
           isDeviceActive device_id (snd r) = true /\
           getDeviceStatus device_id (snd r) = Active /\
           getDevice device_id (snd r) = Some (with_status Active d) /\
           (active_device_id_ dm <> -1 -> active_device_id_ dm <> device_id ->
            getDeviceStatus (active_device_id_ dm) (snd r) = Inactive /\
            isDeviceActive (active_device_id_ dm) (snd r) = false)
  end.
Proof.
  cbv zeta. unfold activateDevice.
  destruct (getDevice device_id dm) as [d |] eqn:G; [| reflexivity].
  destruct (DeviceStatus_eqb (status d) Disabled); [reflexivity |].
  simpl fst. simpl snd. unfold isDeviceActive.
  split; [reflexivity |]. split; [apply Z.eqb_refl |].
  set (dm1 := if negb (active_device_id_ dm =? -1)
              then updateDeviceStatus (active_device_id_ dm) Inactive dm else dm).
  change (getDeviceStatus device_id (set_active device_id ?x))
    with (getDeviceStatus device_id x).
  change (getDevice device_id (set_active device_id ?x))
    with (getDevice device_id x).
  rewrite status_updateDeviceStatus, getDevice_updateDeviceStatus, Z.eqb_refl.
  split; [reflexivity |]. split.
  - assert (G1 : exists d1, getDevice device_id dm1 = Some d1
                            /\ with_status Active d1 = with_status Active d).
    { subst dm1. destruct (negb (active_device_id_ dm =? -1)).
      - rewrite getDevice_updateDeviceStatus, G.
        destruct (device_id =? active_device_id_ dm); simpl; eauto.
      - eauto. }
    destruct G1 as (d1 & -> & E). simpl. now rewrite E.
  - intros Hn Hd.
    split; [| apply Z.eqb_neq; intros E; apply Hd; symmetry; exact E].
    change (getDeviceStatus ?a (set_active device_id ?x))
      with (getDeviceStatus a x).
    rewrite status_updateDeviceStatus.
    destruct (active_device_id_ dm =? device_id) eqn:E;
      [apply Z.eqb_eq in E; contradiction |].
    subst dm1. apply Z.eqb_neq in Hn. rewrite Hn. simpl.
    now rewrite status_updateDeviceStatus, Z.eqb_refl.
Qed.

(** X17. Disabled does not survive a deactivation: [deactivateDevice] sets
    the status of any existing device to Inactive, also of a Disabled one,
    so that an [activateDevice] of the same device right after it
    succeeds. *)
Theorem deactivate_then_activate (device_id : Z) (dm : Devices.t) :
  getDevice device_id dm <> None ->
  let dm' := snd (deactivateDevice device_id dm) in
  getDeviceStatus device_id dm' = Inactive /\
  fst (activateDevice device_id dm') = true /\
  isDeviceActive device_id (snd (activateDevice device_id dm')) = true.
Proof.
  intros G. cbv zeta. unfold deactivateDevice. simpl snd.
  set (dm1 := if active_device_id_ dm =? device_id then set_active (-1) dm else dm).
  assert (G1 : getDevice device_id dm1 = getDevice device_id dm).
  { subst dm1. now destruct (active_device_id_ dm =? device_id). }
  split; [now rewrite status_updateDeviceStatus, Z.eqb_refl |].
  unfold activateDevice.
  rewrite getDevice_updateDeviceStatus, Z.eqb_refl, G1.
  destruct (getDevice device_id dm) as [d |]; [| contradiction].
  simpl. unfold isDeviceActive. simpl. split; [reflexivity | apply Z.eqb_refl].
Qed.

Lemma deactivate_then_activate_witness :
  fst (activateDevice 2 Devices.new) = false /\
  fst (activateDevice 2 (snd (deactivateDevice 2 Devices.new))) = true.
Proof.
  split; [reflexivity |].
  exact (proj1 (proj2 (deactivate_then_activate 2 Devices.new
                         ltac:(discriminate)))).
Defined.

(** ** Invariants of the states reached from the constructor *)

Lemma status_agrees_update (y : Z) (st : DeviceStatus) (dm : Devices.t) :
  status_agrees dm -> status_agrees (updateDeviceStatus y st dm).
Proof.
  intros H x d. rewrite getDevice_updateDeviceStatus.
  unfold updateDeviceStatus. simpl device_status_.
  destruct (x =? y) eqn:E.
  - apply Z.eqb_eq in E. subst. rewrite lookup_insert_eq.
    destruct (getDevice y dm); simpl; [| discriminate]. now intros [= <-].
  - apply Z.eqb_neq in E. rewrite lookup_insert_ne by congruence. apply H.
Qed.

Lemma scanDevices_state (dm : Devices.t) :
  snd (scanDevices dm)
  = mk (DeviceManager.mk default_devices 1)
       (<[4 := Inactive]> (<[3 := Inactive]> (<[2 := Disabled]>
          (<[1 := Active]> ∅))))
       (system_initialized_ dm).
Proof. reflexivity. Qed.

Lemma new_state : Devices.new = snd (scanDevices (mk (DeviceManager.mk [] (-1)) ∅ true)).
Proof. reflexivity. Qed.

Lemma find_default (x : Z) (d : AudioDevice) :
  find_device x default_devices = Some d ->
  (x = 1 \/ x = 2 \/ x = 3 \/ x = 4) /\ In d default_devices.
Proof.
  assert (C : x = 1 \/ x = 2 \/ x = 3 \/ x = 4
              \/ (x <> 1 /\ x <> 2 /\ x <> 3 /\ x <> 4)) by lia.
  destruct C as [-> | [-> | [-> | [-> | (N1 & N2 & N3 & N4)]]]];
    try (intros [= <-]; split; [| simpl]; tauto).
  unfold default_devices, find_device.
  change (id (createMockDevice ?i _ _)) with i.
  apply Z.eqb_neq in N1, N2, N3, N4.
  rewrite (Z.eqb_sym 1), N1, (Z.eqb_sym 2), N2, (Z.eqb_sym 3), N3,
    (Z.eqb_sym 4), N4.
  discriminate.
Qed.

Lemma status_agrees_scan (dm : Devices.t) : status_agrees (snd (scanDevices dm)).
Proof.
  rewrite scanDevices_state. intros x d. unfold getDevice. simpl devices_.
  intros H. pose proof (find_device_id _ _ _ H) as Hid.
  destruct (find_default x d H) as [Hx Hd]. simpl in Hd.
  destruct Hd as [<- | [<- | [<- | [<- | []]]]]; simpl in Hid; subst x; reflexivity.
Qed.

Lemma status_agrees_step (o : op) (dm : Devices.t) :
  status_agrees dm -> status_agrees (step o dm).
Proof.
  intros H. destruct o; cbn [step].
  - apply status_agrees_scan.
  - unfold activateDevice. destruct (getDevice device_id dm) as [d |]; [| exact H].
    destruct (DeviceStatus_eqb (status d) Disabled); [exact H |].
    cbn [snd].
    assert (H1 : status_agrees
                   (if negb (active_device_id_ dm =? -1)
                    then updateDeviceStatus (active_device_id_ dm) Inactive dm
                    else dm)).
    { destruct (negb (active_device_id_ dm =? -1));
        [now apply status_agrees_update | exact H]. }
    exact (status_agrees_update device_id Active _ H1).
  - unfold deactivateDevice. cbn [snd].
    apply status_agrees_update.
    destruct (active_device_id_ dm =? device_id); exact H.
  - now apply status_agrees_update.
  - unfold initializeSystemAudio. destruct (system_initialized_ dm); exact H.
  - unfold shutdownSystemAudio. destruct (system_initialized_ dm); exact H.
Qed.

Lemma status_agrees_run (ops : list op) (dm : Devices.t) :
  status_agrees dm -> status_agrees (run ops dm).
Proof.
  revert dm. induction ops as [| o ops IH]; intros dm H; simpl; [exact H |].
  apply IH, status_agrees_step, H.
Qed.

(** X18. The two places where a status is kept never disagree: in every
    state that calls lead to from a constructed manager, [getDeviceStatus]
    answers for each device of the table with the status stored in the
    table entry that [getDevice] returns. *)
Theorem status_map_matches_table (ops : list op) (x : Z) (d : AudioDevice) :
  getDevice x (run ops Devices.new) = Some d ->
  getDeviceStatus x (run ops Devices.new) = status d.
Proof.
  intros G. unfold getDeviceStatus.
  rewrite (status_agrees_run ops Devices.new
             ltac:(rewrite new_state; apply status_agrees_scan) x d G).
  reflexivity.
Qed.

Lemma status_map_matches_table_witness :
  getDeviceStatus 2 (run [OpActivateDevice 3; OpUpdateDeviceStatus 2 Error]
                         Devices.new) = Error.
Proof.
  exact (status_map_matches_table
           [OpActivateDevice 3; OpUpdateDeviceStatus 2 Error] 2
           (with_status Error (createMockDevice 2 "Realtek ASIO (KS)" KS))
           eq_refl).
Defined.

Lemma single_active_scan (dm : Devices.t) : single_active (snd (scanDevices dm)).
Proof.
  rewrite scanDevices_state. split; [reflexivity |].
  intros x d. unfold getDevice. simpl devices_. simpl active_device_id_.
  intros H. pose proof (find_device_id _ _ _ H) as Hid.
  destruct (find_default x d H) as [Hx Hd]. simpl in Hd.
  destruct Hd as [<- | [<- | [<- | [<- | []]]]]; simpl in Hid; subst x;
    split; intros A; try reflexivity; vm_compute in A; discriminate A.
Qed.

Lemma getDevice_absent_update (x y : Z) (st : DeviceStatus) (dm : Devices.t) :
  getDevice x dm = None -> getDevice x (updateDeviceStatus y st dm) = None.
Proof.
  intros H. rewrite getDevice_updateDeviceStatus, H. now destruct (x =? y).
Qed.

Lemma single_active_activate (y : Z) (dm : Devices.t) :
  single_active dm -> single_active (snd (activateDevice y dm)).
Proof.
  intros [N S]. unfold activateDevice.
  destruct (getDevice y dm) as [dy |] eqn:Gy; [| exact (conj N S)].
  destruct (DeviceStatus_eqb (status dy) Disabled); [exact (conj N S) |].
  cbn [snd].
  set (a := active_device_id_ dm).
  set (dm1 := if negb (a =? -1) then updateDeviceStatus a Inactive dm else dm).
  assert (N1 : getDevice (-1) dm1 = None).
  { subst dm1. destruct (negb (a =? -1)); [now apply getDevice_absent_update | exact N]. }
  assert (S1 : forall x d, x <> y -> getDevice x dm1 = Some d -> status d <> Active).
  { intros x d Hxy G. subst dm1. destruct (a =? -1) eqn:Ea; simpl in G.
    - apply Z.eqb_eq in Ea. intros A. apply (S x d G) in A.
      fold a in A. subst x. rewrite Ea in G. congruence.
    - rewrite getDevice_updateDeviceStatus in G.
      destruct (x =? a) eqn:Exa.
      + destruct (getDevice x dm); simpl in G; [| discriminate].
        injection G as <-. discriminate.
      + apply Z.eqb_neq in Exa. intros A. apply (S x d G) in A. fold a in A.
        congruence. }
  split.
  - change (getDevice (-1) (updateDeviceStatus y Active dm1) = None).
    now apply getDevice_absent_update.
  - intros x d.
    change (getDevice x (updateDeviceStatus y Active dm1) = Some d ->
            status d = Active <-> y = x).
    rewrite getDevice_updateDeviceStatus.
    destruct (x =? y) eqn:E.
    + apply Z.eqb_eq in E. subst x.
      destruct (getDevice y dm1); simpl; [| discriminate].
      intros [= <-]. simpl. split; auto.
    + apply Z.eqb_neq in E. intros G. split.
      * intros A. exfalso. exact (S1 x d E G A).
      * intros ->. contradiction.
Qed.

Lemma single_active_deactivate (y : Z) (dm : Devices.t) :
  single_active dm -> single_active (snd (deactivateDevice y dm)).
Proof.
  intros [N S]. unfold deactivateDevice. cbn [snd].
  set (a := active_device_id_ dm).
  set (dm1 := if a =? y then set_active (-1) dm else dm).
  assert (G1 : forall x, getDevice x dm1 = getDevice x dm).
  { intros x. subst dm1. now destruct (a =? y). }
  split.
  - apply getDevice_absent_update. now rewrite G1.
  - intros x d. rewrite getDevice_updateDeviceStatus, G1.
    rewrite active_updateDeviceStatus.
    destruct (x =? y) eqn:E.
    + apply Z.eqb_eq in E. subst x.
      destruct (getDevice y dm) as [dy |] eqn:Gy; simpl; [| discriminate].
      intros [= <-]. simpl. split; [discriminate |].
      intros A. exfalso. subst dm1. destruct (a =? y) eqn:Ea.
      * change (-1 = y) in A. subst y. congruence.
      * apply Z.eqb_neq in Ea. contradiction.
    + apply Z.eqb_neq in E. intros G. rewrite (S x d G). fold a.
      subst dm1. destruct (a =? y) eqn:Ea.
      * apply Z.eqb_eq in Ea. change (a = x <-> -1 = x). split; intros A.
        { congruence. }
        { subst x. congruence. }
      * reflexivity.
Qed.

Lemma single_active_run (ops : list op) (dm : Devices.t) :
  no_status_updates ops -> single_active dm -> single_active (run ops dm).
Proof.
  intros H. revert dm. induction H as [| o ops Ho Hops IH]; intros dm S;
    simpl; [exact S |].
  apply IH. destruct o; cbn [step].
  - apply single_active_scan.
  - now apply single_active_activate.
  - now apply single_active_deactivate.
  - destruct Ho.
  - unfold initializeSystemAudio. destruct (system_initialized_ dm); exact S.
  - unfold shutdownSystemAudio. destruct (system_initialized_ dm); exact S.
Qed.

(** X19. At most one device is Active, and it is the active one: as long as
    the status of a device is changed through [activateDevice] and
    [deactivateDevice] only, a device of the table has status Active exactly
    when [isDeviceActive] holds for its id. *)
Theorem active_status_is_active_device (ops : list op) (x : Z) (d : AudioDevice) :
  no_status_updates ops ->
  getDevice x (run ops Devices.new) = Some d ->
  (status d = Active <-> isDeviceActive x (run ops Devices.new) = true).
Proof.
  intros H G.
  destruct (single_active_run ops Devices.new H
              ltac:(rewrite new_state; apply single_active_scan)) as [_ S].
  rewrite (S x d G). unfold isDeviceActive. symmetry. apply Z.eqb_eq.
Qed.

Lemma active_status_is_active_device_witness :
  status (with_status Active (createMockDevice 3 "NVIDIA Broadcast (WASAPI)" WASAPI))
  = Active <->
  isDeviceActive 3 (run [OpDeactivateDevice 1; OpActivateDevice 3] Devices.new) = true.
Proof.
  apply (active_status_is_active_device
           [OpDeactivateDevice 1; OpActivateDevice 3] 3).
  - constructor; [exact I |]. constructor; [exact I |]. constructor.
  - reflexivity.
Defined.

(** A direct status update can leave two devices Active. *)
Example status_update_breaks_single_active :
  let dm := run [OpUpdateDeviceStatus 3 Active] Devices.new in
  option_map status (getDevice 1 dm) = Some Active /\
  option_map status (getDevice 3 dm) = Some Active /\
  isDeviceActive 3 dm = false.
Proof. repeat split. Qed.

Lemma map_update_first (y : Z) (st : DeviceStatus) (l : list AudioDevice) :
  map (with_status Inactive) (update_first y st l) = map (with_status Inactive) l.
Proof.
  induction l as [| a l IH]; simpl; [reflexivity |].
  destruct (id a =? y); simpl; [reflexivity | now rewrite IH].
Qed.

Lemma default_table_update (y : Z) (st : DeviceStatus) (dm : Devices.t) :
  default_table dm -> default_table (updateDeviceStatus y st dm).
Proof.
  unfold default_table.
  change (devices_ (updateDeviceStatus y st dm))
    with (update_first y st (devices_ dm)).
  now rewrite map_update_first.
Qed.

Lemma default_table_run (ops : list op) (dm : Devices.t) :
  default_table dm -> default_table (run ops dm).
Proof.
  revert dm. induction ops as [| o ops IH]; intros dm H; simpl; [exact H |].
  apply IH. destruct o; cbn [step].
  - now rewrite scanDevices_state.
  - unfold activateDevice. destruct (getDevice device_id dm) as [d |]; [| exact H].
    destruct (DeviceStatus_eqb (status d) Disabled); [exact H |]. cbn [snd].
    apply (default_table_update device_id Active).
    destruct (negb (active_device_id_ dm =? -1));
      [now apply default_table_update | exact H].
  - unfold deactivateDevice. cbn [snd]. apply default_table_update.
    destruct (active_device_id_ dm =? device_id); exact H.
  - now apply default_table_update.
  - unfold initializeSystemAudio. destruct (system_initialized_ dm); exact H.
  - unfold shutdownSystemAudio. destruct (system_initialized_ dm); exact H.
Qed.

Lemma find_device_map (x : Z) (l : list AudioDevice) :
  find_device x (map (with_status Inactive) l)
  = option_map (with_status Inactive) (find_device x l).
Proof.
  induction l as [| a l IH]; simpl; [reflexivity |].
  destruct (id a =? x); [reflexivity | exact IH].
Qed.

(** X20. The device table is never extended or shortened and only the
    status of its entries changes, so [setDeviceConfig] gives the same
    answer in every state reached from a constructed manager: it accepts
    exactly the devices 1 to 4 with a sample rate and a bit depth that the
    configuration manager accepts too, and any buffer size from 32 to 2048,
    a power of two or not. *)
Theorem setDeviceConfig_answer (ops : list op)
    (device_id sample_rate buffer_size bit_depth : Z) :
  setDeviceConfig device_id sample_rate buffer_size bit_depth
                  (run ops Devices.new)
  = (1 <=? device_id) && (device_id <=? 4) &&
    ConfigManager.isValidSampleRate sample_rate &&
    ((32 <=? buffer_size) && (buffer_size <=? 2048)) &&
    ConfigManager.isValidBitDepth bit_depth.
Proof.
  pose proof (default_table_run ops Devices.new eq_refl) as T.
  unfold default_table in T. unfold setDeviceConfig, getDevice.
  pose proof (find_device_map device_id (devices_ (run ops Devices.new))) as F.
  rewrite T, find_device_map in F.
  destruct (find_device device_id (devices_ (run ops Devices.new))) as [d |] eqn:G.
  - pose proof (find_device_id _ _ _ G) as Hid.
    destruct (find_device device_id default_devices) as [d0 |] eqn:G0;
      [| discriminate F].
    simpl in F. destruct (find_default _ _ G0) as [Hx Hd0].
    assert (E : supported_sample_rates d = [44100; 48000; 88200; 96000; 192000]
                /\ supported_bit_depths d = [16; 24; 32]
                /\ min_buffer_size d = 32 /\ max_buffer_size d = 2048).
    { assert (Hf : forall a, In a default_devices ->
                supported_sample_rates a = [44100; 48000; 88200; 96000; 192000]
                /\ supported_bit_depths a = [16; 24; 32]
                /\ min_buffer_size a = 32 /\ max_buffer_size a = 2048).
      { intros a Ha. simpl in Ha.
        destruct Ha as [<- | [<- | [<- | [<- | []]]]]; repeat split. }
      specialize (Hf d0 Hd0).
      injection F as Fid Fname Ftype Fmax Fminb Fmaxb Frates Fdepths Fin Fout.
      rewrite <- Fminb, <- Fmaxb, <- Frates, <- Fdepths. exact Hf. }
    destruct E as (-> & -> & -> & ->).
    assert (R : (1 <=? device_id) && (device_id <=? 4) = true).
    { destruct Hx as [-> | [-> | [-> | ->]]]; reflexivity. }
    rewrite R. simpl andb at 1.
    unfold ConfigManager.isValidSampleRate, ConfigManager.valid_rates,
      ConfigManager.isValidBitDepth.
    assert (Eb : existsb (Z.eqb bit_depth) [16; 24; 32]
                 = (bit_depth =? 16) || (bit_depth =? 24) || (bit_depth =? 32)).
    { simpl. now rewrite orb_false_r, orb_assoc. }
    rewrite Eb.
    destruct (existsb (Z.eqb sample_rate) _), (32 <=? buffer_size),
      (buffer_size <=? 2048),
      ((bit_depth =? 16) || (bit_depth =? 24) || (bit_depth =? 32)); reflexivity.
  - destruct (find_device device_id default_devices) as [d0 |] eqn:G0;
      [discriminate F |].
    assert (R : (1 <=? device_id) && (device_id <=? 4) = false).
    { destruct ((1 <=? device_id) && (device_id <=? 4)) eqn:R; [| reflexivity].
      apply andb_true_iff in R as [R1 R2]. apply Z.leb_le in R1, R2.
      assert (device_id = 1 \/ device_id = 2 \/ device_id = 3 \/ device_id = 4)
        as [-> | [-> | [-> | ->]]] by lia; discriminate G0. }
    now rewrite R.
Qed.

(** X29. [getDeviceInfo] answers with an empty map exactly for the ids that
    [getDevice] does not find; for a device of the table, in every state
    reached from a constructed manager, the entry [status] is the name of the
    status that [getDeviceStatus] reports and the entry [id] is the id asked
    for, written in decimal. *)
Theorem getDeviceInfo_consistent (ops : list op) (x : Z) :
  let dm := run ops Devices.new in
  (getDeviceInfo x dm = ∅ <-> getDevice x dm = None) /\
  (forall d, getDevice x dm = Some d ->
     getDeviceInfo x dm !! "status"
       = Some (deviceStatusToString (getDeviceStatus x dm)) /\
     getDeviceInfo x dm !! "id" = Some (pretty x) /\
     getDeviceInfo x dm !! "name" = Some (name d) /\
     size (getDeviceInfo x dm) = 9%nat).
Proof.
  cbv zeta. set (dm := run ops Devices.new).
  assert (A : status_agrees dm).
  { apply status_agrees_run. rewrite new_state. apply status_agrees_scan. }
  unfold getDeviceInfo. destruct (getDevice x dm) as [d |] eqn:G.
  - split.
    + split; [| discriminate]. intros E.
      apply (f_equal (fun m : gmap string string => m !! "id")) in E.
      rewrite lookup_empty in E. discriminate E.
    + intros d' [= <-]. pose proof (find_device_id _ _ _ G) as Hid.
      unfold getDeviceStatus. rewrite (A x d G), Hid.
      repeat split.
  - split; [tauto | discriminate].
Qed.

End DeviceManagerFacts.
(* ===================================================================== *)
(** * Further properties of the web server *)
(* ===================================================================== *)

Section WebServerMoreFacts.
Import WebServer.
#[local] Arguments String.append : simpl nomatch.

Lemma find_last_of_app (stem e : string) :
  Str.find_last_of "." e = None ->
  Str.find_last_of "." (stem +:+ String "." e) = Some (String.length stem).
Proof.
  intros He. induction stem as [| c stem IH]; simpl.
  - now rewrite He.
  - now rewrite IH.
Qed.

Lemma drop_length_app (stem x : string) :
  Str.drop (String.length stem) (stem +:+ x) = x.
Proof.
  induction stem as [| c stem IH]; simpl; [now destruct x | exact IH].
Qed.

(** What stands before the last dot does not matter to [getContentType]. *)
Lemma getContentType_suffix (stem e : string) :
  Str.find_last_of "." e = None ->
  getContentType (stem +:+ String "." e) = getContentType (String "." e).
Proof.
  intros He. unfold getContentType.
  rewrite (find_last_of_app stem e He), drop_length_app.
  assert (E0 : Str.find_last_of "." (String "." e) = Some 0%nat).
  { simpl. now rewrite He. }
  now rewrite E0.
Qed.

Lemma mime_table_entry (ext mime : string) :
  In (ext, mime) mime_table ->
  exists e, ext = String "." e /\ Str.find_last_of "." e = None
            /\ getContentType ext = mime.
Proof.
  intros H. simpl in H.
  repeat (destruct H as [[= <- <-] | H];
          [eexists; split; [reflexivity |]; split; reflexivity |]).
  destruct H.
Qed.

(** X21. The content type follows the extension alone: a path that ends in
    one of the twelve known extensions gets the MIME type listed for it,
    whatever comes before the extension, further dots included. *)
Theorem content_type_by_extension (stem ext mime : string) :
  In (ext, mime) mime_table -> getContentType (stem +:+ ext) = mime.
Proof.
  intros H. destruct (mime_table_entry ext mime H) as (e & -> & He & <-).
  now apply getContentType_suffix.
Qed.

Lemma content_type_by_extension_witness :
  getContentType ("/js/app.min" +:+ ".js") = "application/javascript".
Proof.
  apply content_type_by_extension. simpl. tauto.
Defined.



(** The path is not normalised before the file is opened. *)
Example static_path_is_not_confined :
  handleRequest
    (fun f => if String.eqb f "static/../secret.json" then Some "{}" else None)
    (setStaticDirectory "static" (new 7788)) "GET" "/../secret.json" ∅
  = with_cors (ok_head "application/json") "{}".
Proof. reflexivity. Qed.

(** X23. Static files are served for GET only: a request with any other
    method that matches no route is answered 404, whatever files exist. *)
Theorem static_files_for_get_only (fs : FileSystem) (s : WebServer.t)
    (m p : string) (params : gmap string string) :
  m <> "GET" ->
  find_route (routes_ s) m p = None ->
  handleRequest fs s m p params = with_cors not_found_head not_found_body.
Proof.
  intros Hm Hr. apply handleRequest_not_found; [exact Hr |].
  intros E. contradiction.
Qed.

Lemma static_files_for_get_only_witness :
  handleRequest (fun _ => Some "<p>hi</p>") (new 7788) "HEAD" "/index.html" ∅
  = with_cors not_found_head not_found_body.
Proof.
  apply static_files_for_get_only; [discriminate | reflexivity].
Defined.

Lemma find_route_snoc (routes : list Route) (r : Route) (m p : string) :
  find_route (routes ++ [r]) m p
  = match find_route routes m p with
    | Some x => Some x
    | None => if String.eqb (method r) m && String.eqb (path r) p
              then Some r else None
    end.
Proof.
  induction routes as [| x rest IH]; simpl; [reflexivity |].
  destruct (String.eqb (method x) m && String.eqb (path x) p); [reflexivity | exact IH].
Qed.

(** X24. [addRoute] appends, and the first matching route wins: a route
    added for a method and path that an earlier route already has is never
    used, one added for a new method and path answers the requests for it
    with status 200 and the JSON content type, and requests for any other
    method or path are answered as before. *)
Theorem addRoute_first_match_wins (fs : FileSystem) (s : WebServer.t)
    (m p : string) (h : Components -> gmap string string -> string)
    (params : gmap string string) :
  (forall r, find_route (routes_ s) m p = Some r ->
     handleRequest fs (addRoute m p h s) m p params
     = handleRequest fs s m p params)
  /\ (find_route (routes_ s) m p = None ->
      handleRequest fs (addRoute m p h s) m p params
      = with_cors (ok_head "application/json") (h (components_ s) params))
  /\ (forall m' p', ~ (m' = m /\ p' = p) ->
      handleRequest fs (addRoute m p h s) m' p' params
      = handleRequest fs s m' p' params).
Proof.
  assert (F : forall m' p', find_route (routes_ (addRoute m p h s)) m' p'
              = match find_route (routes_ s) m' p' with
                | Some x => Some x
                | None => if String.eqb m m' && String.eqb p p'
                          then Some (mkRoute m p h) else None
                end).
  { intros m' p'. apply find_route_snoc. }
  split; [| split].
  - intros r Hr.
    assert (Hr' : find_route (routes_ (addRoute m p h s)) m p = Some r).
    { now rewrite F, Hr. }
    now rewrite (handleRequest_route fs _ m p params r Hr'),
                (handleRequest_route fs s m p params r Hr).
  - intros Hr.
    assert (Hr' : find_route (routes_ (addRoute m p h s)) m p
                  = Some (mkRoute m p h)).
    { now rewrite F, Hr, !String.eqb_refl. }
    now rewrite (handleRequest_route fs _ m p params _ Hr').
  - intros m' p' Hne.
    assert (Hr' : find_route (routes_ (addRoute m p h s)) m' p'
                  = find_route (routes_ s) m' p').
    { rewrite F. destruct (find_route (routes_ s) m' p'); [reflexivity |].
      destruct (String.eqb m m' && String.eqb p p') eqn:E; [| reflexivity].
      apply andb_true_iff in E as [E1 E2].
      apply string_eqb_eq in E1, E2. subst. tauto. }
    unfold handleRequest. rewrite Hr'. reflexivity.
Qed.

Lemma addRoute_first_match_wins_witness :
  handleRequest (fun _ => None)
    (addRoute "GET" "/api/status" (fun _ _ => "{}") (new 7788))
    "GET" "/api/status" ∅
  = handleRequest (fun _ => None) (new 7788) "GET" "/api/status" ∅.
Proof.
  exact (proj1 (addRoute_first_match_wins (fun _ => None) (new 7788)
                  "GET" "/api/status" (fun _ _ => "{}") ∅)
               _ eq_refl).
Defined.

Lemma c_str_sep (c : ascii) (s : string) :
  Str.isspace c = true -> Str.c_str (String c s) = String c (Str.c_str s).
Proof.
  intros H. simpl. destruct (Ascii.eqb c "000") eqn:E; [| reflexivity].
  apply Ascii.eqb_eq in E. subst. discriminate H.
Qed.

(** X25. Only the first two words of a request are looked at: whatever
    follows the request line (header lines, a body, anything after a NUL
    byte) and whatever the third word says, the response is the one of
    [handleRequest] for the method and the split target. *)
Theorem request_tail_is_ignored (fs : FileSystem) (s : WebServer.t)
    (m target version rest : string) :
  is_word m = true -> is_word target = true -> is_word version = true ->
  handleClient fs s (Some (request_line m target version +:+ rest))
  = Some (handleRequest fs s m (split_target target).1 (split_target target).2).
Proof.
  intros Hm Ht Hv. unfold handleClient.
  assert (Hm' := Hm). assert (Ht' := Ht). assert (Hv' := Hv).
  unfold is_word in Hm', Ht', Hv'.
  apply andb_true_iff in Hm' as [_ Hm'].
  apply andb_true_iff in Ht' as [_ Ht'].
  apply andb_true_iff in Hv' as [_ Hv'].
  assert (E : Str.c_str (request_line m target version +:+ rest)
              = m +:+ String " " (target +:+ String " "
                  (version +:+ String Str.CR (String Str.LF (Str.c_str rest))))).
  { unfold request_line. rewrite !append_assoc.
    rewrite (c_str_app m _ Hm'). f_equal.
    change (" " +:+ target +:+ " " +:+ version +:+ Str.CRLF +:+ rest)
      with (String " " (target +:+ String " " (version +:+
              String Str.CR (String Str.LF rest)))).
    rewrite (c_str_sep " " _ eq_refl). f_equal.
    rewrite (c_str_app target _ Ht'). f_equal.
    rewrite (c_str_sep " " _ eq_refl). f_equal.
    rewrite (c_str_app version _ Hv'). reflexivity. }
  rewrite E.
  rewrite (extract_word m " " _ Hm eq_refl).
  rewrite (extract_skip " " _ eq_refl).
  rewrite (extract_word target " " _ Ht eq_refl).
  rewrite (extract_skip " " _ eq_refl).
  rewrite (extract_word version Str.CR _ Hv eq_refl).
  now destruct (split_target target).
Qed.

Lemma request_tail_is_ignored_witness :
  handleClient (fun _ => None) (new 7788)
    (Some (request_line "GET" "/api/status" "HTTP/9" +:+ "Host: x"))
  = Some (handleRequest (fun _ => None) (new 7788) "GET" "/api/status" ∅).
Proof.
  exact (request_tail_is_ignored (fun _ => None) (new 7788)
           "GET" "/api/status" "HTTP/9" "Host: x" eq_refl eq_refl eq_refl).
Defined.

Lemma extract_all_space (s : string) :
  all_space s = true -> Str.extract s = (EmptyString, EmptyString).
Proof.
  unfold Str.extract. induction s as [| c s IH]; simpl; [reflexivity |].
  intros H. apply andb_true_iff in H as [Hc Hs]. rewrite Hc. exact (IH Hs).
Qed.

(** X26. A request without a single word, that is, received bytes that are
    white space only up to the first NUL, is not dropped: method and path
    are then empty, and unless a route was added for the empty method and
    path the answer is the 404 response. When nothing was received, nothing
    is sent. *)
Theorem blank_request_is_404 (fs : FileSystem) (s : WebServer.t) (buffer : string) :
  all_space (Str.c_str buffer) = true ->
  find_route (routes_ s) EmptyString EmptyString = None ->
  handleClient fs s (Some buffer) = Some (with_cors not_found_head not_found_body)
  /\ handleClient fs s None = None.
Proof.
  intros Hb Hr. split; [| reflexivity]. unfold handleClient.
  rewrite (extract_all_space _ Hb).
  change (Str.extract EmptyString) with (EmptyString, EmptyString).
  change (split_target EmptyString) with (EmptyString, (∅ : gmap string string)).
  cbv iota beta. f_equal.
  apply handleRequest_not_found; [exact Hr | discriminate].
Qed.

Lemma blank_request_is_404_witness :
  handleClient (fun _ => Some "<p>hi</p>") (new 7788) (Some Str.CRLF)
  = Some (with_cors not_found_head not_found_body).
Proof.
  exact (proj1 (blank_request_is_404 (fun _ => Some "<p>hi</p>") (new 7788)
                  Str.CRLF eq_refl eq_refl)).
Defined.

(** X27. A query string written from names and values without ampersand
    and equals sign, the names not empty, is read back from the request
    target: the path is what stands before the question mark, and every
    name is bound to the value of its last pair. *)
Theorem query_string_roundtrip (p : string) (l : list (string * string))
    (k : string) :
  no_query p = true -> forallb plain_pair l = true ->
  (split_target (p +:+ "?" +:+ query_of l)).1 = p /\
  (split_target (p +:+ "?" +:+ query_of l)).2 !! k = last_value k l.
Proof.
  intros Hp Hl. rewrite (split_target_query p _ Hp). simpl fst. simpl snd.
  split; [reflexivity |].
  now rewrite query_params_lookup, (matches_query_of l Hl).
Qed.

Lemma query_string_roundtrip_witness :
  (split_target ("/api/config" +:+ "?" +:+ query_of [("rate", "48000"); ("x", EmptyString)])).2
    !! "rate" = Some "48000".
Proof.
  exact (proj2 (query_string_roundtrip "/api/config"
                  [("rate", "48000"); ("x", EmptyString)] "rate"
                  eq_refl eq_refl)).
Defined.

End WebServerMoreFacts.
(* ===================================================================== *)
(** * Properties of the command line *)
(* ===================================================================== *)

Section CommandLineFacts.
Import Main.
Variable atoi : string -> Z.

Lemma parse_args_skip (a : string) (rest : list string) (port : Z) (dir : string) :
  is_flag a = false ->
  parse_args atoi (a :: rest) port dir = parse_args atoi rest port dir.
Proof.
  unfold is_flag. intros H.
  apply orb_false_iff in H as [H H4]. apply orb_false_iff in H as [H H3].
  apply orb_false_iff in H as [H1 H2].
  destruct rest as [| v rest']; simpl; rewrite ?H1, ?H2, H3, H4; reflexivity.
Qed.

(** X28. Arguments that are none of the four flags are skipped. Leading
    arguments of that kind change nothing, so a command line without flags
    runs with port 7788 and directory [static], and a [--help] or [-h]
    behind them ends the run with the usage text whatever follows. *)
Theorem non_flags_are_skipped (pre rest : list string) (port : Z) (dir : string) :
  Forall (fun a => is_flag a = false) pre ->
  parse_args atoi (pre ++ rest) port dir = parse_args atoi rest port dir /\
  parse_command_line atoi pre = Run 7788 "static" /\
  parse_args atoi (pre ++ "--help" :: rest) port dir = Help /\
  parse_args atoi (pre ++ "-h" :: rest) port dir = Help.
Proof.
  intros H.
  assert (G : forall rest, parse_args atoi (pre ++ rest) port dir
                           = parse_args atoi rest port dir).
  { clear rest. induction H as [| a pre Ha Hpre IH]; intros rest; simpl app;
      [reflexivity |].
    now rewrite (parse_args_skip a _ port dir Ha). }
  split; [apply G |]. split; [| split].
  - unfold parse_command_line. clear G. generalize 7788, "static".
    induction H as [| a pre Ha Hpre IH]; intros p d; [reflexivity |].
    now rewrite (parse_args_skip a _ p d Ha).
  - rewrite G. now destruct rest.
  - rewrite G. now destruct rest.
Qed.

(** The argument after [--port] or [--static-dir] is taken as the value
    and never read as a flag; the last of several [--port] options wins; a
    [--port] or [--static-dir] that is the last argument is ignored. *)
Example option_value_is_not_a_flag (v : string) (rest : list string)
    (port : Z) (dir : string) :
  parse_args atoi ("--port" :: v :: rest) port dir
  = parse_args atoi rest (atoi v) dir /\
  parse_args atoi ("--static-dir" :: v :: rest) port dir
  = parse_args atoi rest port v /\
  parse_args atoi ["--port"; "--help"] port dir = Run (atoi "--help") dir /\
  parse_args atoi ["--port"; v; "--port"; "--port"] port dir
  = Run (atoi "--port") dir /\
  parse_args atoi ["--port"] port dir = Run port dir /\
  parse_args atoi ["--static-dir"] port dir = Run port dir.
Proof. repeat split. Qed.

End CommandLineFacts.

Lemma non_flags_are_skipped_witness :
  Main.parse_command_line (fun _ => 0) ["serve"; "-v"] = Main.Run 7788 "static".
Proof.
  apply (non_flags_are_skipped (fun _ => 0) ["serve"; "-v"] [] 0 EmptyString).
  constructor; [reflexivity |]. constructor; [reflexivity |]. constructor.
Defined.
